(** * The YouTube Music search-and-scoring engine of [core/youtube_searcher.py]

    A shallow embedding of [YouTubeMusicSearcher]: the string similarity
    ([_calculate_similarity]), the query builder ([_build_search_query]), the
    scorer and its acceptance floor ([_find_best_match]), the three-filter
    collector ([_search_with_query]) and the three-pass driver ([search]).
    With it, the code that uses the searcher: [TrackDownloader] of
    [core/downloader.py] ([download_track], [_sanitize_filename], the
    progress hooks, also of [core/pytube_downloader.py]), the download
    cache of [server.py] and [ProgressTracker] of
    [core/progress_tracker.py].

    Conventions of the embedding.
    - Python [int] is [Z]; Python [float] is an IEEE-754 binary64 value,
      computed with the executable specification of the Rocq kernel's floats
      ([SpecFloat], precision 53, [emax] 1024, round to nearest even).
    - Python [str] is [string]; a character is one of the 256 code points of
      Latin-1, which fixes [str.lower] and the white space of [str.split].
    - Python [dict]s with a fixed set of keys are records; [None] and a
      missing key are [option].
    - The [ytmusicapi] session is an oracle that answers a request as a
      function of the requests issued before it; the requests issued are
      threaded as state, exceptions are values of [outcome].
    - The collaborators of the downloader that do input and output
      (Spotify, the audio download, the lyrics, the tag writer, the file
      move) are variables of any behaviour; times are [datetime] values in
      microseconds, given to each call that reads the clock.
    - Dictionaries with arbitrary keys are [gmap]s.
    - [logger] calls have no effect on results and are omitted. *)

From Stdlib Require Import ZArith QArith String Ascii List Bool Lia.
From Stdlib Require Import Floats.SpecFloat.
From Stdlib Require Import DecimalString.
From stdpp Require Import base decidable option list sets gmap strings.

Local Open Scope Z_scope.

(** ** Python floats *)

Module PyFloat.

Definition prec : Z := 53.
Definition emax : Z := 1024.

Definition float := spec_float.

(** An integer as an (unnormalised) binary float of the same value. *)
Definition Z2SF (n : Z) : float :=
  match n with
  | Z0 => S754_zero false
  | Zpos p => S754_finite false p 0
  | Zneg p => S754_finite true p 0
  end.

(** [a / b] on two Python ints: the correctly rounded quotient.  Python
    raises [ZeroDivisionError] when [b] is zero; every division of the
    searcher is guarded by a test that its divisor is positive. *)
Definition truediv (a b : Z) : float := SFdiv prec emax (Z2SF a) (Z2SF b).

(** [float(n)]. *)
Definition of_int (n : Z) : float := binary_normalize prec emax n 0 false.

(** [x * n] for a float [x] and an int [n]. *)
Definition mul_int (x : float) (n : Z) : float := SFmul prec emax x (of_int n).

Definition ltb (x y : float) : bool := SFltb x y.

(** [max(x, y)]: the first argument unless the second is greater. *)
Definition fmax (x y : float) : float := if ltb x y then y else x.

(** [int(x)]: truncation toward zero.  Python raises on infinities and
    NaN, which no quotient or product of the searcher is. *)
Definition to_int (x : float) : Z :=
  match x with
  | S754_finite s m e =>
      cond_Zopp s (match e with
                   | Zneg p => Z.shiftr (Zpos m) (Zpos p)
                   | _ => Z.shiftl (Zpos m) e
                   end)
  | _ => 0
  end.

(** [round(x)] to an int: nearest, ties to even. *)
Definition round_half_even (x : float) : Z :=
  match x with
  | S754_finite s m (Zneg p) =>
      let q := Z.shiftr (Zpos m) (Zpos p) in
      let r := Z.land (Zpos m) (Z.ones (Zpos p)) in
      let h := Z.shiftl 1 (Zpos p - 1) in
      cond_Zopp s (match r ?= h with
                   | Lt => q
                   | Gt => q + 1
                   | Eq => if Z.even q then q else q + 1
                   end)
  | _ => to_int x
  end.

(** The literals [1.0], [0.8] and [0.5]. *)
Definition one : float := S754_finite false 4503599627370496 (-52).
Definition lit_0_8 : float := S754_finite false 7205759403792794 (-53).
Definition half : float := S754_finite false 4503599627370496 (-53).

(** The exact value of a float, as a rational. *)
Definition to_Q (x : float) : Q :=
  match x with
  | S754_finite s m e =>
      match e with
      | Zneg p => Qmake (cond_Zopp s (Zpos m)) (2 ^ p)
      | _ => inject_Z (cond_Zopp s (Zpos m * 2 ^ e))
      end
  | _ => 0%Q
  end.

Definition is_finite (x : float) : bool :=
  match x with
  | S754_zero _ | S754_finite _ _ _ => true
  | _ => false
  end.

(** [x] is a finite float with [0 <= x <= Bn / 2^Bk], on integers. *)
Definition le_dyadic (x : float) (Bn Bk : Z) : Prop :=
  match x with
  | S754_zero _ => True
  | S754_finite false m e => e <= - Bk /\ Z.pos m <= Bn * 2 ^ (- e - Bk)
  | _ => False
  end.

(** [x] is a finite float with [Ln / 2^Lk <= x] and a mantissa of at most
    53 bits. *)
Definition ge_dyadic (x : float) (Ln Lk : Z) : Prop :=
  match x with
  | S754_finite false m e =>
      e <= - Lk /\ Ln * 2 ^ (- e - Lk) <= Z.pos m /\ Z.pos m < 2 ^ 53
  | _ => False
  end.

End PyFloat.

(** ** Python strings *)

Module PyStr.

Local Open Scope string_scope.

Definition code (c : ascii) : N := N_of_ascii c.

(** [c.isspace()] on Latin-1. *)
Definition is_space (c : ascii) : bool :=
  let n := code c in
  ((9 <=? n) && (n <=? 13) || (28 <=? n) && (n <=? 32)
   || (n =? 133) || (n =? 160))%N.

(** [c.lower()] on Latin-1: A-Z and the accented capitals but [0xD7]. *)
Definition lower_char (c : ascii) : ascii :=
  let n := code c in
  if ((65 <=? n) && (n <=? 90)
      || (192 <=? n) && (n <=? 222) && negb (n =? 215))%N
  then ascii_of_N (n + 32) else c.

Fixpoint lower (s : string) : string :=
  match s with
  | EmptyString => EmptyString
  | String c r => String (lower_char c) (lower r)
  end.

(** [needle in hay]. *)
Fixpoint contains (needle hay : string) : bool :=
  String.prefix needle hay
  || match hay with
     | EmptyString => false
     | String _ r => contains needle r
     end.

Definition flush (cur : string) : list string :=
  match cur with EmptyString => [] | _ => [cur] end.

(** [s.split()]: the maximal runs of non-space characters; [cur] is the
    run being read. *)
Fixpoint split_from (cur s : string) : list string :=
  match s with
  | EmptyString => flush cur
  | String c r =>
      if is_space c then flush cur ++ split_from EmptyString r
      else split_from (cur ++ String c EmptyString) r
  end.

Definition split (s : string) : list string := split_from EmptyString s.

(** [sep.join(ws)]. *)
Fixpoint join (sep : string) (ws : list string) : string :=
  match ws with
  | [] => EmptyString
  | [w] => w
  | w :: r => w ++ sep ++ join sep r
  end.

Fixpoint lstrip (s : string) : string :=
  match s with
  | String c r => if is_space c then lstrip r else s
  | EmptyString => EmptyString
  end.

Fixpoint rstrip (s : string) : string :=
  match s with
  | EmptyString => EmptyString
  | String c r =>
      match rstrip r with
      | EmptyString => if is_space c then EmptyString else String c EmptyString
      | r' => String c r'
      end
  end.

(** [s.strip()]. *)
Definition strip (s : string) : string := rstrip (lstrip s).

(** [len(s)]. *)
Definition len (s : string) : Z := Z.of_nat (String.length s).

End PyStr.

(** ** Regular expressions of the query builder *)

Module PyRe.

Import PyStr.

Definition newline : ascii := "010"%char.

(** The offset of the first [closer] of [s] on its first line: the text
    that a non-greedy [.*?] followed by [closer] consumes. *)
Fixpoint close_at (closer : ascii) (s : string) : option nat :=
  match s with
  | EmptyString => None
  | String c r =>
      if Ascii.eqb c closer then Some 0%nat
      else if Ascii.eqb c newline then None
      else option_map S (close_at closer r)
  end.

Fixpoint drop (n : nat) (s : string) : string :=
  match n, s with
  | S n', String _ r => drop n' r
  | _, _ => s
  end.

(** The length of the match of [opener .*? closer] at the start of [s]. *)
Definition match_len (opener : string) (closer : ascii) (ignore_case : bool)
    (s : string) : option nat :=
  if String.prefix opener (if ignore_case then lower s else s)
  then option_map (fun k => (String.length opener + k + 1)%nat)
                  (close_at closer (drop (String.length opener) s))
  else None.

(** [re.sub(opener .*? closer, '', s)]: [skip] characters of a match
    found earlier remain to be deleted. *)
Fixpoint sub_from (opener : string) (closer : ascii) (ignore_case : bool)
    (skip : nat) (s : string) : string :=
  match s with
  | EmptyString => EmptyString
  | String c r =>
      match skip with
      | S k => sub_from opener closer ignore_case k r
      | O =>
          match match_len opener closer ignore_case s with
          | Some n => sub_from opener closer ignore_case (n - 1) r
          | None => String c (sub_from opener closer ignore_case 0 r)
          end
      end
  end.

Definition sub_group (opener : string) (closer : ascii) (ignore_case : bool)
    (s : string) : string :=
  sub_from opener closer ignore_case 0 s.

End PyRe.

(** ** [difflib.SequenceMatcher] *)

Module Difflib.

Import PyFloat.

(** [_calculate_ratio(matches, length)].  [2.0 * matches] and the
    conversion of [length] to a float are exact below [2^53], where the
    float quotient is the correctly rounded [2 * matches / length]. *)
Definition _calculate_ratio (matches length : Z) : float :=
  if length =? 0 then one else truediv (2 * matches) length.

(** The block matching of [SequenceMatcher] on sequences without junk:
    the instance of the matching count used on the sample inputs.  It
    leaves out the automatic junk heuristic, which changes the count for
    a second sequence of 200 elements or more; the theorems take the
    matching count as a parameter. *)

Fixpoint common_prefix (a b : list ascii) : nat :=
  match a, b with
  | x :: a', y :: b' =>
      if Ascii.eqb x y then S (common_prefix a' b') else 0%nat
  | _, _ => 0%nat
  end.

(** The longest block of [b] that is a prefix of [a]: offset and size,
    the earliest offset among the longest. *)
Fixpoint scan_b (a b : list ascii) (j : nat) (best : nat * nat) : nat * nat :=
  match b with
  | [] => best
  | _ :: b' =>
      let k := common_prefix a b in
      scan_b a b' (S j) (if (snd best <? k)%nat then (j, k) else best)
  end.

(** [find_longest_match]: of all longest common blocks the one that
    starts earliest in [a], and of those the earliest in [b]. *)
Fixpoint scan_a (a b : list ascii) (i : nat) (best : nat * nat * nat)
    : nat * nat * nat :=
  match a with
  | [] => best
  | _ :: a' =>
      let '(j, k) := scan_b a b 0%nat (0%nat, 0%nat) in
      scan_a a' b (S i) (if (snd best <? k)%nat then (i, j, k) else best)
  end.

Definition find_longest_match (a b : list ascii) : nat * nat * nat :=
  scan_a a b 0%nat (0%nat, 0%nat, 0%nat).

(** The total size of the matching blocks: the longest block, then the
    blocks to its left and to its right. *)
Fixpoint matching_blocks (fuel : nat) (a b : list ascii) : nat :=
  match fuel with
  | O => 0%nat
  | S fuel' =>
      let '(i, j, k) := find_longest_match a b in
      match k with
      | O => 0%nat
      | S _ =>
          (k + matching_blocks fuel' (firstn i a) (firstn j b)
             + matching_blocks fuel' (skipn (i + k) a) (skipn (j + k) b))%nat
      end
  end.

Definition matching (a b : string) : nat :=
  matching_blocks (S (String.length a))
    (list_ascii_of_string a) (list_ascii_of_string b).

End Difflib.

(** ** Data *)

(** One artist entry of a search result. *)
Record artist := { a_name : option string }.

(** One entry of a [ytmusicapi] search response.  [None] stands for a
    key that is absent, which the collector reads as [''], [0] or no
    artist.  The fields have the types the library gives them, so that
    reading an entry in the loops of the collector does not raise.  A
    key that is there with the value [None] is outside this type: the
    collector passes the [None] on and the scorer of the code raises on
    it, which makes its pass return nothing.  [well_formed] below marks
    the entries that have none of this. *)
Record result := {
  r_videoId : option string;
  r_title : option string;
  r_duration_seconds : option Z;
  r_artists : option (list artist)
}.

(** The [video_info] dictionary built by the collector. *)
Record video_info := {
  vi_id : string;
  vi_title : string;
  vi_duration : Z;
  vi_uploader : string;
  vi_view_count : Z;
  vi_url : string;
  vi_webpage_url : string
}.

(** The dictionary returned for an accepted candidate. *)
Record scored_video := {
  sv_url : string;
  sv_title : string;
  sv_duration : Z;
  sv_uploader : string;
  sv_view_count : Z;
  sv_score : Z;
  sv_video_id : string
}.

(** ** The searcher *)

Section Searcher.

Import PyFloat PyStr.
Local Open Scope string_scope.
Local Open Scope Z_scope.

(** [sum(triple[-1] for triple in get_matching_blocks())] of the
    standard library's [SequenceMatcher(None, a, b)], whose matching
    blocks are disjoint in both sequences. *)
Variable matching : string -> string -> nat.

(** [SequenceMatcher(None, a, b).ratio()]. *)
Definition ratio (a b : string) : float :=
  Difflib._calculate_ratio (Z.of_nat (matching a b)) (len a + len b).

(** [set(s.split())]. *)
Definition word_set (s : string) : gset string := list_to_set (split s).

(** Truth value of a set: it is not empty. *)
Definition truthy (ws : gset string) : bool := bool_decide (ws ≠ ∅).

Definition _calculate_similarity (str1 str2 : string) : float :=
  if String.eqb str1 str2 then one
  else if contains str1 str2 || contains str2 str1 then lit_0_8
  else
    let words1 := word_set str1 in
    let words2 := word_set str2 in
    let fallback := ratio (lower str1) (lower str2) in
    if truthy words1 && truthy words2 then
      let intersection := Z.of_nat (size (words1 ∩ words2)) in
      let union := Z.of_nat (size (words1 ∪ words2)) in
      if 0 <? union then truediv intersection union else fallback
    else fallback.

(** *** The criteria of [_find_best_match], in the order of the code *)

Definition good_words : list string :=
  ["lyrics"; "lyric video"; "audio"; "official audio"].

Definition bad_keywords : list string :=
  ["sing-along"; "sing along"; "singalong";
   "karaoke"; "instrumental"; "remix";
   "cover"; "nightcore"; "slowed"; "reverb";
   "8d audio"; "bass boost"; "sped up"].

(** [w for w in track_lower.split() if len(w) > 2]. *)
Definition track_words (track_lower : string) : list string :=
  List.filter (fun w => 2 <? len w) (split track_lower).

(** [sum(1 for word in track_words if word in title)]. *)
Definition matched_words (ws : list string) (title : string) : Z :=
  Z.of_nat (length (List.filter (fun word => contains word title) ws)).

(** Track word match. *)
Definition track_match_score (track_lower title : string) : Z :=
  let ws := track_words track_lower in
  match ws with
  | [] => 0
  | _ =>
      let match_percent := truediv (matched_words ws title) (Z.of_nat (length ws)) in
      if ltb match_percent half then -100
      else to_int (mul_int match_percent 50)
  end.

(** Artist name presence. *)
Definition artist_presence_score (artist_lower title uploader : string) : Z :=
  if contains artist_lower title || contains artist_lower uploader
  then 20 else -10.

(** Duration matching. *)
Definition duration_score (duration expected_duration : Z) : Z :=
  if (0 <? expected_duration) && (0 <? duration) then
    let duration_diff := Z.abs (duration - expected_duration) in
    if duration_diff <=? 3 then 30
    else if duration_diff <=? 10 then 20
    else if duration_diff <=? 30 then 10
    else -10
  else 0.

(** View count. *)
Definition view_score (view_count : Z) : Z :=
  if 1000000 <=? view_count then 15
  else if 100000 <=? view_count then 10
  else if 10000 <=? view_count then 5
  else if 1000 <=? view_count then 0
  else -5.

(** Title keywords: the first good word found ends the loop. *)
Definition good_word_score (title : string) : Z :=
  if existsb (fun word => contains word title) good_words then 15 else 0.

(** Official (non-video). *)
Definition official_score (title : string) : Z :=
  if contains "official" title
     && negb (contains "music video" title)
     && negb (contains "official video" title)
  then 10 else 0.

(** Title similarity. *)
Definition title_score (track_lower title : string) : Z :=
  to_int (mul_int (_calculate_similarity track_lower title) 50).

(** Artist similarity. *)
Definition artist_similarity (artist_lower uploader title : string) : float :=
  fmax (_calculate_similarity artist_lower uploader)
       (_calculate_similarity artist_lower title).

Definition artist_score (artist_lower uploader title : string) : Z :=
  to_int (mul_int (artist_similarity artist_lower uploader title) 30).

(** Keyword penalties: every bad keyword found costs 50. *)
Definition keyword_penalty (title : string) : Z :=
  fold_left (fun score keyword =>
               if contains keyword title then score - 50 else score)
            bad_keywords 0.

(** The score accumulated for one video by the loop body. *)
Definition score_video (video : video_info)
    (track_name artist_name : string) (expected_duration : Z) : Z :=
  let title := lower (vi_title video) in
  let track_lower := lower track_name in
  let artist_lower := lower artist_name in
  let uploader := lower (vi_uploader video) in
  0 + track_match_score track_lower title
    + artist_presence_score artist_lower title uploader
    + duration_score (vi_duration video) expected_duration
    + view_score (vi_view_count video)
    + good_word_score title
    + official_score title
    + title_score track_lower title
    + artist_score artist_lower uploader title
    + keyword_penalty title.

(** *** [_find_best_match] *)

(** [a or b] on strings. *)
Definition str_or (a b : string) : string :=
  match a with EmptyString => b | _ => a end.

(** The entry appended to [scored_videos]. *)
Definition scored_entry (video : video_info) (score : Z) : scored_video :=
  {| sv_url := str_or (vi_webpage_url video) (vi_url video);
     sv_title := vi_title video;
     sv_duration := vi_duration video;
     sv_uploader := vi_uploader video;
     sv_view_count := vi_view_count video;
     sv_score := score;
     sv_video_id := vi_id video |}.

(** The loop over [videos]: only a score of at least 100 is kept. *)
Fixpoint scored_videos (videos : list video_info)
    (track_name artist_name : string) (expected_duration : Z)
    : list scored_video :=
  match videos with
  | [] => []
  | video :: rest =>
      let score := score_video video track_name artist_name expected_duration in
      (if 100 <=? score then [scored_entry video score] else [])
      ++ scored_videos rest track_name artist_name expected_duration
  end.

(** [max(best :: l, key=lambda x: x['score'])]: a later element replaces
    the running maximum only when its key is greater. *)
Fixpoint max_by_score (best : scored_video) (l : list scored_video)
    : scored_video :=
  match l with
  | [] => best
  | x :: r => max_by_score (if sv_score best <? sv_score x then x else best) r
  end.

Definition _find_best_match (videos : list video_info)
    (track_name artist_name : string) (expected_duration : Z)
    : option scored_video :=
  match scored_videos videos track_name artist_name expected_duration with
  | [] => None
  | x :: r => Some (max_by_score x r)
  end.

(** *** [_build_search_query] *)

Definition _build_search_query (track artist : string) : string :=
  let query := strip (track ++ " " ++ artist) in
  let query := PyRe.sub_group "(feat." ")" true query in
  let query := PyRe.sub_group "(ft." ")" true query in
  let query := PyRe.sub_group "(featuring" ")" true query in
  let query := PyRe.sub_group "[" "]" false query in
  let query := PyRe.sub_group "(" ")" false query in
  join " " (split query).

End Searcher.

(** ** The catalogue session *)

(** The result of a call that may raise. *)
Inductive outcome (A : Type) : Type :=
| Returned (a : A)
| Raised (e : string).
Arguments Returned {A} a.
Arguments Raised {A} e.

(** One call [ytmusic.search(query, filter=..., limit=...)]. *)
Record request := {
  rq_query : string;
  rq_filter : option string;
  rq_limit : Z
}.

(** A [YTMusic] session: the answer to a request, given the requests
    issued before it. *)
Definition YTMusic := list request -> request -> outcome (list result).

(** Computations that issue requests: the list of requests issued so far
    is the state. *)
Definition session (A : Type) : Type := list request -> A * list request.

Definition ret {A} (a : A) : session A := fun log => (a, log).

Definition bind {A B} (c : session A) (k : A -> session B) : session B :=
  fun log => let (a, log') := c log in k a log'.

Declare Scope session_scope.
Delimit Scope session_scope with session.
Notation "'let*' x := c 'in' k" := (bind c (fun x => k))
  (at level 10, x name, c at level 100, k at level 200) : session_scope.

(** [ytmusic.search(query, filter=f, limit=limit)]. *)
Definition yt_search (ytmusic : YTMusic) (query : string)
    (f : option string) (limit : Z) : session (outcome (list result)) :=
  fun log =>
    let rq := {| rq_query := query; rq_filter := f; rq_limit := limit |} in
    (ytmusic log rq, log ++ [rq]).

Section Engine.

Import PyFloat PyStr.
Local Open Scope string_scope.
Local Open Scope Z_scope.
Local Open Scope session_scope.

Variable matching : string -> string -> nat.

(** *** [_search_with_query] *)

(** [video_id = result.get('videoId')] unless [not video_id]. *)
Definition video_id_of (r : result) : option string :=
  match r_videoId r with
  | Some EmptyString | None => None
  | Some video_id => Some video_id
  end.

(** The name of the first artist, [''] without artists. *)
Definition uploader_of (r : result) : string :=
  match r_artists r with
  | Some (a :: _) => default "" (a_name a)
  | _ => ""
  end.

(** The [video_info] built for a result in each of the three loops;
    [view_count] is the literal 0. *)
Definition make_video_info (video_id : string) (r : result) : video_info :=
  let video_url := "https://music.youtube.com/watch?v=" ++ video_id in
  {| vi_id := video_id;
     vi_title := default "" (r_title r);
     vi_duration := default 0 (r_duration_seconds r);
     vi_uploader := uploader_of r;
     vi_view_count := 0;
     vi_url := video_url;
     vi_webpage_url := video_url |}.

(** [any(v['id'] == video_id for v in all_videos)]. *)
Definition seen (all_videos : list video_info) (video_id : string) : bool :=
  existsb (fun v => String.eqb (vi_id v) video_id) all_videos.

(** The loop of the 'songs' filter: no duplicate test. *)
Fixpoint add_songs (all_videos : list video_info) (results : list result)
    : list video_info :=
  match results with
  | [] => all_videos
  | r :: rest =>
      match video_id_of r with
      | None => add_songs all_videos rest
      | Some video_id =>
          add_songs (all_videos ++ [make_video_info video_id r]) rest
      end
  end.

(** The loop of the 'videos' filter and of the search without filter:
    a result whose id is already in [all_videos] is skipped. *)
Fixpoint add_unseen (all_videos : list video_info) (results : list result)
    : list video_info :=
  match results with
  | [] => all_videos
  | r :: rest =>
      match video_id_of r with
      | None => add_unseen all_videos rest
      | Some video_id =>
          if seen all_videos video_id then add_unseen all_videos rest
          else add_unseen (all_videos ++ [make_video_info video_id r]) rest
      end
  end.

(** [try: ... except Exception: logger.warning(...)] around one filter:
    a call that raises leaves [all_videos] as it was. *)
Definition on_response (add : list video_info -> list result -> list video_info)
    (all_videos : list video_info) (resp : outcome (list result))
    : list video_info :=
  match resp with
  | Returned results => add all_videos results
  | Raised _ => all_videos
  end.

(** The first half of [_search_with_query]: the three searches that
    fill [all_videos]. *)
Definition collect (ytmusic : YTMusic) (query : string) (max_results : Z)
    : session (list video_info) :=
  let all_videos := [] in
  let* search_results := yt_search ytmusic query (Some "songs") max_results in
  let all_videos := on_response add_songs all_videos search_results in
  let* video_results := yt_search ytmusic query (Some "videos") max_results in
  let all_videos := on_response add_unseen all_videos video_results in
  let* all_results := yt_search ytmusic query None max_results in
  let all_videos := on_response add_unseen all_videos all_results in
  ret all_videos.

(** [_search_with_query]: the three searches, then the scorer.  Its outer
    handler [except Exception: return None] has nothing to catch here: the
    three calls have their own handlers and the scorer is total on the
    candidates of this type; it catches what the scorer raises on a title,
    an uploader or a duration that is [None] (see [result]), and the pass
    then returns nothing. *)
Definition _search_with_query (ytmusic : YTMusic) (query : string)
    (track_name artist_name : string) (duration_seconds : Z)
    (max_results : Z) : session (option scored_video) :=
  let* all_videos := collect ytmusic query max_results in
  match all_videos with
  | [] => ret None
  | _ => ret (_find_best_match matching all_videos
                track_name artist_name duration_seconds)
  end.

(** *** [search] *)

Definition HIGH_CONFIDENCE : Z := 180.

(** [if not best_overall or best['score'] > best_overall['score']:
    best_overall = best]. *)
Definition update_best (best_overall : option scored_video)
    (best : scored_video) : option scored_video :=
  match best_overall with
  | None => Some best
  | Some overall =>
      if sv_score overall <? sv_score best then Some best else Some overall
  end.

(** The body of [search] once the session exists. *)
Definition search_passes (ytmusic : YTMusic)
    (track_name artist_name : string) (duration_seconds : Z)
    (max_results : Z) : session (option scored_video) :=
  let best_overall := None in
  let query1 := _build_search_query track_name "" in
  let* best_pass1 := _search_with_query ytmusic query1
                       track_name artist_name duration_seconds max_results in
  let best_overall :=
    match best_pass1 with Some b => Some b | None => best_overall end in
  if match best_pass1 with
     | Some b => HIGH_CONFIDENCE <=? sv_score b
     | None => false
     end
  then ret best_pass1
  else
    let query2 := _build_search_query track_name artist_name in
    let* best_pass2 := _search_with_query ytmusic query2
                         track_name artist_name duration_seconds max_results in
    let best_overall :=
      match best_pass2 with
      | Some b => update_best best_overall b
      | None => best_overall
      end in
    if match best_pass2 with
       | Some b => HIGH_CONFIDENCE <=? sv_score b
       | None => false
       end
    then ret best_pass2
    else
      let query3 := _build_search_query artist_name track_name in
      let* best_pass3 := _search_with_query ytmusic query3
                           track_name artist_name duration_seconds max_results in
      let best_overall :=
        match best_pass3 with
        | Some b => update_best best_overall b
        | None => best_overall
        end in
      ret best_overall.

(** [search]: [new_session] is the outcome of [YTMusic()]; the handler
    [except Exception: return None] closes the body. *)
Definition search (new_session : outcome YTMusic)
    (track_name artist_name : string) (duration_seconds : Z)
    (max_results : Z) : session (option scored_video) :=
  match new_session with
  | Returned ytmusic =>
      search_passes ytmusic track_name artist_name duration_seconds max_results
  | Raised _ => ret None
  end.

End Engine.

(** ** Vocabulary of the statements *)

Section Vocabulary.

Import PyFloat PyStr.
Local Open Scope string_scope.
Local Open Scope Z_scope.

Variable matching : string -> string -> nat.

(** The acceptance floor of [_find_best_match]. *)
Definition FLOOR : Z := 100.

(** The number of bad keywords found in a title. *)
Definition denylist_hits (title : string) : Z :=
  Z.of_nat (length (List.filter (fun keyword => contains keyword title)
                                bad_keywords)).

(** What the eight criteria before the keyword penalties add up to. *)
Definition other_criteria (video : video_info)
    (track_name artist_name : string) (expected_duration : Z) : Z :=
  let title := lower (vi_title video) in
  let uploader := lower (vi_uploader video) in
  track_match_score (lower track_name) title
  + artist_presence_score (lower artist_name) title uploader
  + duration_score (vi_duration video) expected_duration
  + view_score (vi_view_count video)
  + good_word_score title
  + official_score title
  + title_score matching (lower track_name) title
  + artist_score matching (lower artist_name) uploader title.

(** The videos of a list that reach the floor. *)
Definition eligible (videos : list video_info)
    (track_name artist_name : string) (expected_duration : Z)
    : list video_info :=
  List.filter
    (fun v => FLOOR <=? score_video matching v track_name artist_name
                          expected_duration)
    videos.

(** The three requests of one pass, in the order they are issued. *)
Definition songs_request (query : string) (max_results : Z) : request :=
  {| rq_query := query; rq_filter := Some "songs"; rq_limit := max_results |}.
Definition videos_request (query : string) (max_results : Z) : request :=
  {| rq_query := query; rq_filter := Some "videos"; rq_limit := max_results |}.
Definition plain_request (query : string) (max_results : Z) : request :=
  {| rq_query := query; rq_filter := None; rq_limit := max_results |}.

Definition pass_requests (query : string) (max_results : Z) : list request :=
  [ songs_request query max_results;
    videos_request query max_results;
    plain_request query max_results ].

(** [all_videos] after the three loops, from the three responses. *)
Definition collected (songs videos unfiltered : outcome (list result))
    : list video_info :=
  on_response add_unseen
    (on_response add_unseen (on_response add_songs [] songs) videos)
    unfiltered.

(** A pass result that ends the search. *)
Definition high_confidence (best : option scored_video) : bool :=
  match best with
  | Some b => HIGH_CONFIDENCE <=? sv_score b
  | None => false
  end.

(** The running best after a pass. *)
Definition merge_best (best_overall best_pass : option scored_video)
    : option scored_video :=
  match best_pass with
  | Some b => update_best best_overall b
  | None => best_overall
  end.

(** [v] is the [video_info] of one of [results]. *)
Definition from_results (results : list result) (v : video_info) : Prop :=
  exists r video_id,
    In r results /\ video_id_of r = Some video_id
    /\ v = make_video_info video_id r.

(** The candidates of a pass: [all_videos] after its three loops, when
    [log] holds the requests issued before the pass. *)
Definition pass_candidates (ytmusic : YTMusic) (query : string)
    (max_results : Z) (log : list request) : list video_info :=
  fst (collect ytmusic query max_results log).

(** The candidates of the three passes of one [search], each pass after
    the requests of the passes before it. *)
Definition search_candidates (ytmusic : YTMusic)
    (track_name artist_name : string) (max_results : Z) (log : list request)
    : list video_info :=
  let query1 := _build_search_query track_name "" in
  let query2 := _build_search_query track_name artist_name in
  let query3 := _build_search_query artist_name track_name in
  let log1 := (log ++ pass_requests query1 max_results)%list in
  let log2 := (log1 ++ pass_requests query2 max_results)%list in
  (pass_candidates ytmusic query1 max_results log
   ++ pass_candidates ytmusic query2 max_results log1
   ++ pass_candidates ytmusic query3 max_results log2)%list.

(** The answers of the session to the three requests of a pass. *)
Definition pass_responses (ytmusic : YTMusic) (query : string)
    (max_results : Z) (log : list request) : list (outcome (list result)) :=
  [ ytmusic log (songs_request query max_results);
    ytmusic (log ++ [songs_request query max_results])%list
            (videos_request query max_results);
    ytmusic (log ++ [songs_request query max_results;
                     videos_request query max_results])%list
            (plain_request query max_results) ].

(** The answers to the nine requests of the three passes of one
    [search]. *)
Definition search_responses (ytmusic : YTMusic)
    (track_name artist_name : string) (max_results : Z) (log : list request)
    : list (outcome (list result)) :=
  let query1 := _build_search_query track_name "" in
  let query2 := _build_search_query track_name artist_name in
  let query3 := _build_search_query artist_name track_name in
  let log1 := (log ++ pass_requests query1 max_results)%list in
  let log2 := (log1 ++ pass_requests query2 max_results)%list in
  (pass_responses ytmusic query1 max_results log
   ++ pass_responses ytmusic query2 max_results log1
   ++ pass_responses ytmusic query3 max_results log2)%list.

(** An answer that is an error or an empty list. *)
Definition answered_with_nothing (response : outcome (list result)) : Prop :=
  match response with
  | Returned results => results = []
  | Raised _ => True
  end.



End Vocabulary.

(** ** Sample inputs *)

Module Samples.

Local Open Scope string_scope.
Local Open Scope Z_scope.

Definition song (video_id title : string) (seconds : Z) (performer : string)
    : result :=
  {| r_videoId := Some video_id;
     r_title := Some title;
     r_duration_seconds := Some seconds;
     r_artists := Some [ {| a_name := Some performer |} ] |}.

(** A session that answers every request with the same results. *)
Definition always (results : list result) : YTMusic :=
  fun _ _ => Returned results.

(** A session whose answer depends on the query only. *)
Definition by_query (answer : string -> list result) : YTMusic :=
  fun _ rq => Returned (answer (rq_query rq)).

(** A session that fails on one filter and answers the others. *)
Definition failing_on (f : option string) (results : list result) : YTMusic :=
  fun _ rq =>
    if decide (rq_filter rq = f) then Raised "timeout" else Returned results.

(** The target of the repository's tests. *)
Definition track : string := "Mr. Brightside".
Definition performer : string := "The Killers".
Definition seconds : Z := 222.

(** A live recording that scores exactly 100, and one that scores 99. *)
Definition live_100 : result :=
  song "live100" "Mr. Brightside (Live)" 215 "Killers Tribute Band Live Archive".
Definition live_99 : result :=
  song "live099" "Mr. Brightside (Live)" 215
       "Killers Tribute Band Live Archive Channel".

(** The official audio, with the exact duration (190) and seven seconds
    off (180). *)
Definition official_190 : result :=
  song "audio190" "The Killers - Mr. Brightside (Official Audio)" 222 "The Killers".
Definition official_180 : result :=
  song "audio180" "The Killers - Mr. Brightside (Official Audio)" 229 "The Killers".

(** The music video: 165. *)
Definition video_165 : result :=
  song "video165" "The Killers - Mr. Brightside (Official Music Video)" 222
       "The Killers".

Definition video_of (r : result) : video_info :=
  make_video_info (default "" (r_videoId r)) r.

(** Two uploads of the music video that differ in their id only. *)
Definition twin_a : result :=
  song "twin-a" "The Killers - Mr. Brightside (Official Music Video)" 222
       "The Killers".
Definition twin_b : result :=
  song "twin-b" "The Killers - Mr. Brightside (Official Music Video)" 222
       "The Killers".

(** Two results of the 'songs' filter with one id and different fields. *)
Definition album_cut : result :=
  song "same-id" "Mr. Brightside" 222 "The Killers".
Definition remaster : result :=
  song "same-id" "Mr. Brightside (Remastered)" 223 "The Killers".

(** The answers of a session to the three queries of the sample target. *)
Definition per_pass (first second third : list result) (query : string)
    : list result :=
  if String.eqb query "Mr. Brightside" then first
  else if String.eqb query "Mr. Brightside The Killers" then second
  else if String.eqb query "The Killers Mr. Brightside" then third
  else [].

(** A second target and a candidate that scores exactly 179 for it. *)
Definition track' : string := "Never Gonna Give You Up".
Definition performer' : string := "Rick Astley".
Definition seconds' : Z := 213.
Definition shuffled_179 : result :=
  song "never179" "Gonna Never Give You Up official audio" 213
       "Rick Astley Official".

(** A karaoke version (one bad keyword) and a karaoke remix (two). *)
Definition karaoke : result :=
  song "kara-1" "Mr. Brightside (Karaoke Version)" 225 "KaraokeFan".
Definition karaoke_remix : result :=
  song "kara-2" "Mr. Brightside (Karaoke Remix)" 225 "KaraokeFan".

(** A candidate that shares one of the three long words of its target. *)
Definition boulevard : string := "Boulevard of Broken Dreams".
Definition green_day : string := "Green Day".
Definition broken : result :=
  song "broken-1" "Green Day - Broken (Official Audio)" 262 "Green Day".

(** Lower-cased titles and performers whose scaled criteria have a
    fractional part. *)
Definition dust_track : string := "another one bites the dust remastered".
Definition dust_title : string := "queen - another one bites the dust".
Definition simon : string := "simon and garfunkel".
Definition simon_uploader : string :=
  "simon garfunkel greatest hits live concert".

(** A session that answers the 'songs' filter only. *)
Definition songs_only (results : list result) : YTMusic :=
  fun _ rq =>
    if decide (rq_filter rq = Some "songs") then Returned results
    else Returned [].

(** A session that raises on every request. *)
Definition unreachable : YTMusic := fun _ _ => Raised "connection refused".

End Samples.

(** ** More sample inputs *)

(** A candidate with every bonus, for the target "Official Audio". *)
Definition perfect_200 : result :=
  Samples.song "top-200" "Official Audio" 222 "The Killers".

(** The address the collector gives to a video id. *)
Definition watch_url (video_id : string) : string :=
  ("https://music.youtube.com/watch?v=" ++ video_id)%string.

(** ** Vocabulary of the query builder *)

(** [c in s]. *)
Fixpoint occurs (c : ascii) (s : string) : bool :=
  match s with
  | EmptyString => false
  | String x r => Ascii.eqb x c || occurs c r
  end.

(** An [opener] with a [closer] somewhere after it. *)
Fixpoint has_pair (opener closer : ascii) (s : string) : bool :=
  match s with
  | EmptyString => false
  | String x r =>
      Ascii.eqb x opener && occurs closer r || has_pair opener closer r
  end.

(** No line feed in [s]. *)
Definition single_line (s : string) : bool := negb (occurs PyRe.newline s).

(** No white space in [s]. *)
Fixpoint space_free (s : string) : bool :=
  match s with
  | EmptyString => true
  | String x r => negb (PyStr.is_space x) && space_free r
  end.

(** The characters of [s] that are not white space. *)
Fixpoint visible (s : string) : string :=
  match s with
  | EmptyString => EmptyString
  | String x r => if PyStr.is_space x then visible r else String x (visible r)
  end.

(** [s] continues a text whose white space is one [" "] between two
    words: [fresh] after a space or at the start, where a word must follow. *)
Fixpoint tidy (fresh : bool) (s : string) : bool :=
  match s with
  | EmptyString => negb fresh
  | String x r =>
      if PyStr.is_space x
      then negb fresh && Ascii.eqb x " " && tidy true r
      else tidy false r
  end.

(** A word of [split]: not empty, without white space. *)
Definition word (w : string) : Prop :=
  w <> EmptyString /\ space_free w = true.

(** [''.join(ws)]. *)
Fixpoint glue (ws : list string) : string :=
  match ws with
  | [] => EmptyString
  | w :: r => (w ++ glue r)%string
  end.

(** * The downloader ([core/downloader.py]) *)

(** ** [_sanitize_filename] *)

(** [s.replace(c, '')] for a one-character [c]. *)
Fixpoint remove_char (c : ascii) (s : string) : string :=
  match s with
  | EmptyString => EmptyString
  | String x r =>
      if Ascii.eqb x c then remove_char c r else String x (remove_char c r)
  end.

(** [s.lstrip(chars)], [s.rstrip(chars)] and [s.strip(chars)]. *)
Fixpoint lstrip_of (chars s : string) : string :=
  match s with
  | String x r => if occurs x chars then lstrip_of chars r else s
  | EmptyString => EmptyString
  end.

Fixpoint rstrip_of (chars s : string) : string :=
  match s with
  | EmptyString => EmptyString
  | String x r =>
      match rstrip_of chars r with
      | EmptyString =>
          if occurs x chars then EmptyString else String x EmptyString
      | r' => String x r'
      end
  end.

Definition strip_of (chars s : string) : string :=
  rstrip_of chars (lstrip_of chars s).

(** The nine characters of [invalid_chars], in the order of the loop:
    less-than, greater-than, colon, double quote, slash, backslash, bar,
    question mark and star. *)
Definition invalid_chars : list ascii :=
  ["<"; ">"; ":"; "034"; "/"; "\"; "|"; "?"; "*"]%char.

Definition _sanitize_filename (filename : string) : string :=
  let filename :=
    fold_left (fun filename char => remove_char char filename)
              invalid_chars filename in
  let filename := strip_of ". " filename in
  if (200 <? PyStr.len filename)%Z then substring 0 200 filename else filename.

(** The first and the last character of a text. *)
Definition first_char (s : string) : option ascii :=
  match s with
  | EmptyString => None
  | String x _ => Some x
  end.

Fixpoint last_char (s : string) : option ascii :=
  match s with
  | EmptyString => None
  | String x EmptyString => Some x
  | String _ r => last_char r
  end.

(** A dot or a space, the characters that [_sanitize_filename] strips. *)
Definition dot_or_space (c : ascii) : bool := occurs c ". ".

(** ** Progress reports *)

(** [str(n)] for an int. *)
Definition str_of_int (n : Z) : string := NilZero.string_of_int (Z.to_int n).

(** The literal [0.4]. *)
Definition lit_0_4 : PyFloat.float := S754_finite false 7205759403792794 (-54).

(** A call [callback(percent, message)]. *)
Definition report : Type := Z * string.

(** [_report_progress]: the call made to the callback, if there is one.
    An exception of the callback is caught and logged, so that the
    callback decides nothing but whether it is there. *)
Definition _report_progress (callback : bool) (percent : Z) (message : string)
    : list report :=
  if callback then [(percent, message)] else [].

(** [int(downloaded / total * 100)], for a [total] that is not zero. *)
Definition download_percent (downloaded total : Z) : Z :=
  PyFloat.to_int (PyFloat.mul_int (PyFloat.truediv downloaded total) 100).

(** [40 + int(percent * 0.4)]. *)
Definition scaled_percent (percent : Z) : Z :=
  40 + PyFloat.to_int
         (SFmul PyFloat.prec PyFloat.emax (PyFloat.of_int percent) lit_0_4).

Definition downloading_message (percent : Z) : string :=
  ("Downloading: " ++ str_of_int percent ++ "%")%string.

(** The dictionary that yt-dlp hands to a progress hook: its status and
    the two byte counts, [None] for a key that is missing. *)
Record hook_status : Type := {
  d_status : string;
  d_downloaded_bytes : option Z;
  d_total_bytes : option Z
}.

(** [progress_hook] of [_download_audio]: the reports it makes, or the
    [ZeroDivisionError] of a total of zero, which nothing catches here.
    The byte counts are ints where their keys are there, with a quotient
    that a float can hold; a count of [None] or a quotient beyond the
    floats makes the code raise. *)
Definition progress_hook (callback : bool) (d : hook_status)
    : outcome (list report) :=
  if String.eqb (d_status d) "downloading" then
    match d_downloaded_bytes d, d_total_bytes d with
    | Some downloaded_bytes, Some total_bytes =>
        if total_bytes =? 0 then Raised "division by zero"
        else
          let percent := download_percent downloaded_bytes total_bytes in
          Returned (_report_progress callback (scaled_percent percent)
                      (downloading_message percent))
    | _, _ => Returned []
    end
  else if String.eqb (d_status d) "finished" then
    Returned (_report_progress callback 80 "Processing audio...")
  else Returned [].

(** [PyTubeDownloader._progress_hook] ([core/pytube_downloader.py]): the
    same computation from the size of the stream and the bytes that
    remain; its handler catches the [ZeroDivisionError] and reports
    nothing. *)
Definition _progress_hook (filesize bytes_remaining : Z) (callback : bool)
    : list report :=
  let total_size := filesize in
  let bytes_downloaded := total_size - bytes_remaining in
  if total_size =? 0 then []
  else
    let percent := download_percent bytes_downloaded total_size in
    if callback
    then [(scaled_percent percent, downloading_message percent)]
    else [].

(** The percents from 0 to 100. *)
Definition percents : list Z := map Z.of_nat (seq 0 101).

(** ** [download_track] *)

(** The dictionary of [SpotifyClient.get_track_metadata]. *)
Record track_metadata : Type := {
  md_id : string;
  md_title : string;
  md_artists : list string;
  md_album : string;
  md_album_artist : string;
  md_duration_ms : Z;
  md_release_date : string;
  md_track_number : Z;
  md_disc_number : Z;
  md_isrc : option string;
  md_album_type : string;
  md_album_art_url : option string;
  md_explicit : bool;
  md_popularity : Z
}.

(** What a call of [download_track] leaves: the path it returns, the
    calls it made to the callback and the requests sent to the catalogue. *)
Record download_run : Type := {
  dl_path : option string;
  dl_reports : list report;
  dl_requests : list request
}.

Section Downloader.

Local Open Scope string_scope.
Local Open Scope list_scope.

Variable matching : string -> string -> nat.

(** The collaborators of the downloader, each with any behaviour:
    [YTMusic()] of the searcher; [self.spotify.get_track_metadata];
    [self._download_audio], with the reports it makes on the way;
    [syncedlyrics.search], import included;
    [self.metadata_writer.write_metadata]; and [self._move_to_output],
    which catches its own exceptions. *)
Variable new_session : outcome YTMusic.
Variable get_track_metadata : string -> outcome (option track_metadata).
Variable _download_audio :
  string -> string -> string -> bool -> list report * outcome (option string).
Variable lyrics_search : string -> outcome (option string).
Variable write_metadata :
  string -> track_metadata -> option string -> outcome bool.
Variable _move_to_output : string -> track_metadata -> option string.

(** The handler [except Exception as e] of [download_track], and its
    [return None] after a failed step. *)
Definition failed (callback : bool) (reports : list report)
    (log : list request) (message : string) : download_run :=
  {| dl_path := None;
     dl_reports := reports ++ _report_progress callback 0 ("Failed: " ++ message)%string;
     dl_requests := log |}.

(** Steps 4 to 6, with the audio file in the cache. *)
Definition finish_download (callback include_lyrics : bool)
    (metadata : track_metadata) (audio_file : string)
    (reports : list report) (log : list request) : download_run :=
  let say := _report_progress callback in
  let reports := reports ++ say 80 "Audio downloaded" in
  let reports :=
    if include_lyrics then reports ++ say 82 "Fetching lyrics..." else reports in
  let lyrics :=
    if include_lyrics then
      match lyrics_search
              (md_title metadata ++ " "
               ++ PyStr.join ", " (md_artists metadata))%string
      with
      | Returned lyrics => lyrics
      | Raised _ => None
      end
    else None in
  let reports := reports ++ say 85 "Writing metadata..." in
  match write_metadata audio_file metadata lyrics with
  | Raised e => failed callback reports log e
  | Returned false => failed callback reports log "Metadata error"
  | Returned true =>
      let reports := reports ++ say 95 "Metadata written" in
      let reports := reports ++ say 97 "Finalizing..." in
      match _move_to_output audio_file metadata with
      | None => failed callback reports log "File move error"
      | Some final_path =>
          {| dl_path := Some final_path;
             dl_reports := reports ++ say 100 "Complete!";
             dl_requests := log |}
      end
  end.

Definition download_track (track_id : string) (callback include_lyrics : bool)
    (log : list request) : download_run :=
  let say := _report_progress callback in
  let reports := say 5 "Fetching Spotify metadata..." in
  match get_track_metadata track_id with
  | Raised e => failed callback reports log e
  | Returned None => failed callback reports log "Could not fetch metadata"
  | Returned (Some metadata) =>
      let reports := reports ++ say 20 ("Found: " ++ md_title metadata)%string in
      let reports := reports ++ say 25 "Searching YouTube Music..." in
      let (youtube_result, log) :=
        search matching new_session
          (md_title metadata)
          (PyStr.join ", " (md_artists metadata))
          (md_duration_ms metadata / 1000)
          10 log in
      match youtube_result with
      | None => failed callback reports log "No YouTube match found"
      | Some youtube_result =>
          let reports :=
            reports ++ say 40 ("Found YouTube match (score: "
                               ++ str_of_int (sv_score youtube_result)
                               ++ ")")%string in
          let reports := reports ++ say 45 "Downloading audio..." in
          match md_artists metadata with
          | [] => failed callback reports log "list index out of range"
          | artist_name :: _ =>
              let (progress, audio_file) :=
                _download_audio (sv_url youtube_result) (md_title metadata)
                  artist_name callback in
              let reports := reports ++ progress in
              match audio_file with
              | Raised e => failed callback reports log e
              | Returned None => failed callback reports log "Download error"
              | Returned (Some audio_file) =>
                  finish_download callback include_lyrics metadata audio_file
                    reports log
              end
          end
      end
  end.

End Downloader.

(** ** Sample collaborators *)

Definition brightside : track_metadata :=
  {| md_id := "003vvx7Niy0yvhvHt4a68B";
     md_title := "Mr. Brightside";
     md_artists := ["The Killers"];
     md_album := "Hot Fuss";
     md_album_artist := "The Killers";
     md_duration_ms := 222973;
     md_release_date := "2004";
     md_track_number := 2;
     md_disc_number := 1;
     md_isrc := None;
     md_album_type := "album";
     md_album_art_url := None;
     md_explicit := false;
     md_popularity := 90 |}.

(** The same track as Spotify gives it when it lists no artist. *)
Definition anonymous : track_metadata :=
  {| md_id := "003vvx7Niy0yvhvHt4a68B";
     md_title := "Mr. Brightside";
     md_artists := [];
     md_album := "Hot Fuss";
     md_album_artist := "Unknown";
     md_duration_ms := 222973;
     md_release_date := "2004";
     md_track_number := 2;
     md_disc_number := 1;
     md_isrc := None;
     md_album_type := "album";
     md_album_art_url := None;
     md_explicit := false;
     md_popularity := 90 |}.

Definition audio_in_cache : string -> string -> string -> bool ->
    list report * outcome (option string) :=
  fun _ _ _ _ =>
    ([(45, "Downloading with PyTube..."); (60, "Downloading: 50%")]%string,
     Returned (Some "cache/The Killers - Mr. Brightside.m4a"%string)).

Definition no_lyrics : string -> outcome (option string) :=
  fun _ => Raised "No module named syncedlyrics".

Definition tags_written : string -> track_metadata -> option string -> outcome bool :=
  fun _ _ _ => Returned true.

Definition moved : string -> track_metadata -> option string :=
  fun _ _ => Some "downloads/The Killers/Hot Fuss/02 - Mr. Brightside.m4a"%string.

(** * The server ([server.py]) *)

(** ** The download cache *)

(** [download_cache] maps a track id to the path of its file and the
    time it was cached.  Times are [datetime] values counted in
    microseconds, the unit in which [datetime] and [timedelta] compute
    exactly. *)

(** [timedelta(hours=24)]. *)
Definition CACHE_DURATION : Z := 24 * 3600 * 1000000.

(** [get_cached_download], at the time [now] of [datetime.now()], with
    [file_exists] for [Path.exists]: the path it returns and the cache it
    leaves. *)
Definition get_cached_download (file_exists : string -> bool) (now : Z)
    (spotify_track_id : string) (download_cache : gmap string (string * Z))
    : option string * gmap string (string * Z) :=
  match download_cache !! spotify_track_id with
  | None => (None, download_cache)
  | Some (file_path, timestamp) =>
      let age := now - timestamp in
      if CACHE_DURATION <? age
      then (None, delete spotify_track_id download_cache)
      else if file_exists file_path
           then (Some file_path, download_cache)
           else (None, delete spotify_track_id download_cache)
  end.

(** [cache_download] at the time [now]. *)
Definition cache_download (now : Z) (spotify_track_id file_path : string)
    (download_cache : gmap string (string * Z)) : gmap string (string * Z) :=
  <[spotify_track_id := (file_path, now)]> download_cache.

(** * The progress tracker ([core/progress_tracker.py]) *)

(** A dictionary put on a queue: [completed], [success] and [error] are
    the keys of the final message only.  The calls of [datetime.now()]
    within one method are taken at one time, [now], in microseconds. *)
Record message : Type := {
  m_progress : Z;
  m_status : string;
  m_completed : option bool;
  m_success : option bool;
  m_error : option string;
  m_timestamp : Z
}.

(** The dictionaries of a [ProgressTracker].  An [asyncio.Queue] is an
    object shared with its subscriber: [_subscribers] holds the names of
    the queues and [queues] what was put on each, oldest first;
    [next_queue] names the queue that [asyncio.Queue()] creates next.
    Each method runs under the lock, as one step. *)
Record ProgressTracker : Type := {
  _progress : gmap string Z;
  _status : gmap string string;
  _subscribers : gmap string (list nat);
  _completed : gmap string bool;
  _errors : gmap string string;
  _start_times : gmap string Z;
  queues : gmap nat (list message);
  next_queue : nat
}.

(** [ProgressTracker()]. *)
Definition new_tracker : ProgressTracker :=
  {| _progress := ∅; _status := ∅; _subscribers := ∅; _completed := ∅;
     _errors := ∅; _start_times := ∅; queues := ∅; next_queue := 0 |}.

(** [await queue.put(m)] on a queue without bound. *)
Definition put (m : message) (qs : gmap nat (list message)) (queue : nat)
    : gmap nat (list message) :=
  <[queue := default [] (qs !! queue) ++ [m]]> qs.

(** [for queue in subscribers: await queue.put(m)]. *)
Definition put_all (subscribers : list nat) (m : message)
    (qs : gmap nat (list message)) : gmap nat (list message) :=
  fold_left (put m) subscribers qs.

Definition start_download (now : Z) (download_id : string)
    (self : ProgressTracker) : ProgressTracker :=
  {| _progress := <[download_id := 0]> (_progress self);
     _status := <[download_id := "Starting download..."%string]> (_status self);
     _subscribers := <[download_id := []]> (_subscribers self);
     _completed := <[download_id := false]> (_completed self);
     _errors := _errors self;
     _start_times := <[download_id := now]> (_start_times self);
     queues := queues self;
     next_queue := next_queue self |}.

(** [if s:] for an optional string. *)
Definition given (s : option string) : bool :=
  match s with
  | Some (String _ _) => true
  | _ => false
  end.

(** [set_progress].  The message is built inside the [try] of each
    subscriber: without a status for the download its [KeyError] is
    caught and nothing is put. *)
Definition set_progress (now : Z) (download_id : string) (progress : Z)
    (status : option string) (self : ProgressTracker) : ProgressTracker :=
  let progress_ := <[download_id := Z.min 100 (Z.max 0 progress)]> (_progress self) in
  let status_ :=
    if given status
    then <[download_id := default EmptyString status]> (_status self)
    else _status self in
  let queues_ :=
    match _subscribers self !! download_id, status_ !! download_id with
    | Some subscribers, Some current =>
        put_all subscribers
          {| m_progress := Z.min 100 (Z.max 0 progress);
             m_status := current;
             m_completed := None; m_success := None; m_error := None;
             m_timestamp := now |}
          (queues self)
    | _, _ => queues self
    end in
  {| _progress := progress_;
     _status := status_;
     _subscribers := _subscribers self;
     _completed := _completed self;
     _errors := _errors self;
     _start_times := _start_times self;
     queues := queues_;
     next_queue := next_queue self |}.

(** [str(error)] in [f"Failed: {error}"]. *)
Definition str_of_error (error : option string) : string :=
  default "None"%string error.

(** [complete_download]: the tracker it leaves, and the [KeyError] of
    the final message for a download that has subscribers and no
    progress. *)
Definition complete_download (now : Z) (download_id : string) (success : bool)
    (error : option string) (self : ProgressTracker)
    : outcome unit * ProgressTracker :=
  let completed_ := <[download_id := true]> (_completed self) in
  let progress_ :=
    if success then <[download_id := 100]> (_progress self)
    else _progress self in
  let status_ :=
    if success
    then <[download_id := "Download complete!"%string]> (_status self)
    else <[download_id := ("Failed: " ++ str_of_error error)%string]>
           (_status self) in
  let errors_ :=
    if success then _errors self
    else <[download_id :=
             if given error then default EmptyString error
             else "Unknown error"%string]> (_errors self) in
  let after queues_ :=
    {| _progress := progress_;
       _status := status_;
       _subscribers := _subscribers self;
       _completed := completed_;
       _errors := errors_;
       _start_times := _start_times self;
       queues := queues_;
       next_queue := next_queue self |} in
  match _subscribers self !! download_id with
  | Some subscribers =>
      match progress_ !! download_id, status_ !! download_id with
      | Some current, Some current_status =>
          let final_message :=
            {| m_progress := current;
               m_status := current_status;
               m_completed := Some true;
               m_success := Some success;
               m_error := if given error then error else None;
               m_timestamp := now |} in
          (Returned tt, after (put_all subscribers final_message (queues self)))
      | _, _ => (Raised "KeyError", after (queues self))
      end
  | None => (Returned tt, after (queues self))
  end.

Definition get_progress (self : ProgressTracker) (download_id : string) : Z :=
  default 0 (_progress self !! download_id).

Definition get_status (self : ProgressTracker) (download_id : string)
    : string :=
  default "Unknown"%string (_status self !! download_id).

Definition is_completed (self : ProgressTracker) (download_id : string)
    : bool :=
  default false (_completed self !! download_id).

Definition get_error (self : ProgressTracker) (download_id : string)
    : option string :=
  _errors self !! download_id.

(** [subscribe]: the new queue and the tracker. *)
Definition subscribe (now : Z) (download_id : string) (self : ProgressTracker)
    : nat * ProgressTracker :=
  let queue := next_queue self in
  let subscribers := default [] (_subscribers self !! download_id) ++ [queue] in
  let queues_ := <[queue := []]> (queues self) in
  let queues_ :=
    match _progress self !! download_id with
    | Some current =>
        put {| m_progress := current;
               m_status := default "In progress..."%string
                             (_status self !! download_id);
               m_completed := None; m_success := None; m_error := None;
               m_timestamp := now |}
            queues_ queue
    | None => queues_
    end in
  (queue,
   {| _progress := _progress self;
      _status := _status self;
      _subscribers := <[download_id := subscribers]> (_subscribers self);
      _completed := _completed self;
      _errors := _errors self;
      _start_times := _start_times self;
      queues := queues_;
      next_queue := S queue |}).

(** [l.remove(x)], with the [ValueError] of a missing [x] passed over. *)
Fixpoint remove_first (x : nat) (l : list nat) : list nat :=
  match l with
  | [] => []
  | y :: r => if Nat.eqb y x then r else y :: remove_first x r
  end.

Definition unsubscribe (download_id : string) (queue : nat)
    (self : ProgressTracker) : ProgressTracker :=
  match _subscribers self !! download_id with
  | Some subscribers =>
      {| _progress := _progress self;
         _status := _status self;
         _subscribers :=
           <[download_id := remove_first queue subscribers]> (_subscribers self);
         _completed := _completed self;
         _errors := _errors self;
         _start_times := _start_times self;
         queues := queues self;
         next_queue := next_queue self |}
  | None => self
  end.

(** [x > n] for a float and an int, which Python compares exactly. *)
Definition gt_int (x : PyFloat.float) (n : Z) : bool :=
  match x with
  | S754_zero _ => n <? 0
  | S754_finite s m (Zneg p) => n * 2 ^ Zpos p <? cond_Zopp s (Zpos m)
  | S754_finite s m e => n <? cond_Zopp s (Zpos m) * 2 ^ e
  | S754_infinity s => negb s
  | S754_nan => false
  end.

(** [(now - start_time).total_seconds() / 3600]. *)
Definition age_hours (now start_time : Z) : PyFloat.float :=
  SFdiv PyFloat.prec PyFloat.emax
    (PyFloat.truediv (now - start_time) 1000000) (PyFloat.of_int 3600).

(** A float that is not above zero. *)
Definition not_positive (x : PyFloat.float) : Prop :=
  match x with
  | S754_zero _ | S754_nan => True
  | S754_finite s _ _ | S754_infinity s => s = true
  end.

(** The test of [cleanup_old_downloads] on one download. *)
Definition to_be_removed (self : ProgressTracker) (now max_age_hours : Z)
    (download_id : string) : bool :=
  match _start_times self !! download_id with
  | Some start_time =>
      gt_int (age_hours now start_time) max_age_hours
      && default false (_completed self !! download_id)
  | None => false
  end.

(** [d.pop(k, None)] for each [k] of [to_remove]. *)
Definition pop_all {A : Type} (to_remove : list string) (d : gmap string A)
    : gmap string A :=
  fold_right delete d to_remove.

(** [cleanup_old_downloads]: the number of downloads removed and the
    tracker. *)
Definition cleanup_old_downloads (now max_age_hours : Z)
    (self : ProgressTracker) : Z * ProgressTracker :=
  let to_remove :=
    List.filter (to_be_removed self now max_age_hours)
                (map fst (map_to_list (_start_times self))) in
  (Z.of_nat (length to_remove),
   {| _progress := pop_all to_remove (_progress self);
      _status := pop_all to_remove (_status self);
      _subscribers := pop_all to_remove (_subscribers self);
      _completed := pop_all to_remove (_completed self);
      _errors := pop_all to_remove (_errors self);
      _start_times := pop_all to_remove (_start_times self);
      queues := queues self;
      next_queue := next_queue self |}).

(** [get_active_downloads], as a set. *)
Definition get_active_downloads (self : ProgressTracker) : gset string :=
  dom (filter (fun entry => snd entry = false) (_completed self)).

(** *** Vocabulary of the statements *)

(** A call of a method that changes the tracker. *)
Inductive call : Type :=
| StartDownload (now : Z) (download_id : string)
| SetProgress (now : Z) (download_id : string) (progress : Z)
    (status : option string)
| CompleteDownload (now : Z) (download_id : string) (success : bool)
    (error : option string)
| Subscribe (now : Z) (download_id : string)
| Unsubscribe (download_id : string) (queue : nat)
| CleanupOldDownloads (now max_age_hours : Z).

(** The tracker after a call, whether the call raised or not. *)
Definition after_call (self : ProgressTracker) (c : call) : ProgressTracker :=
  match c with
  | StartDownload now download_id => start_download now download_id self
  | SetProgress now download_id progress status =>
      set_progress now download_id progress status self
  | CompleteDownload now download_id success error =>
      snd (complete_download now download_id success error self)
  | Subscribe now download_id => snd (subscribe now download_id self)
  | Unsubscribe download_id queue => unsubscribe download_id queue self
  | CleanupOldDownloads now max_age_hours =>
      snd (cleanup_old_downloads now max_age_hours self)
  end.

Definition after_calls (calls : list call) : ProgressTracker :=
  fold_left after_call calls new_tracker.

(** Every progress that is stored or was sent lies between 0 and 100. *)
Definition progress_in_range (self : ProgressTracker) : Prop :=
  (forall download_id current,
      _progress self !! download_id = Some current -> 0 <= current <= 100)
  /\ (forall queue sent m,
        queues self !! queue = Some sent -> In m sent ->
        0 <= m_progress m <= 100).

(** The names of the queues in use are below [next_queue]. *)
Definition names_in_use (self : ProgressTracker) : Prop :=
  forall download_id subscribers queue,
    _subscribers self !! download_id = Some subscribers ->
    queue ∈ subscribers -> (queue < next_queue self)%nat.

(** [queue] was created and is subscribed to no download. *)
Definition unsubscribed (queue : nat) (self : ProgressTracker) : Prop :=
  (queue < next_queue self)%nat
  /\ forall download_id subscribers,
       _subscribers self !! download_id = Some subscribers ->
       queue ∉ subscribers.

(** The message of [subscribe] and of [set_progress]. *)
Definition update (progress : Z) (status : string) (now : Z) : message :=
  {| m_progress := progress; m_status := status;
     m_completed := None; m_success := None; m_error := None;
     m_timestamp := now |}.

(** ** More sample results *)

(** The official audio under a title that calls it a remix. *)
Definition remix_140 : result :=
  Samples.song "remix140" "The Killers - Mr. Brightside (Official Audio) [Remix]"
    222 "The Killers".


(** * Facts *)

(** ** Rounding to nearest of binary64

    The two shifts of [binary_round_aux] never carry a value past a bound
    that is itself a binary64 number, from above or from below: rounding
    is monotone there.  The quotients, products and comparisons of the
    scorer are bounded with it. *)

Module FloatFacts.

Import PyFloat.

Lemma digits2_pos_size p : digits2_pos p = Pos.size p.
Proof. induction p; simpl; congruence. Qed.

Lemma Zdigits2_le m k : 0 <= m -> 0 <= k -> m < 2 ^ k -> Zdigits2 m <= k.
Proof.
  intros Hm Hk Hlt. destruct m as [|p|p]; simpl; try lia.
  rewrite digits2_pos_size.
  pose proof (Pos.size_le p) as H.
  apply Pos2Z.pos_le_pos in H. rewrite Pos2Z.inj_pow in H.
  destruct (Z_lt_le_dec k (Z.pos (Pos.size p))) as [Hlt'|]; [|lia].
  exfalso.
  assert (H0 : 2 ^ (k + 1) <= 2 ^ Z.pos (Pos.size p)) by (apply Z.pow_le_mono_r; lia).
  rewrite Z.pow_add_r in H0 by lia. lia.
Qed.

Lemma shr_1_m mrs : 0 <= shr_m mrs -> shr_m (shr_1 mrs) = shr_m mrs / 2.
Proof.
  destruct mrs as [m r s]; cbn [shr_m]. intros Hm.
  rewrite <- Z.div2_div.
  destruct m as [|[p|p|]|p]; try reflexivity; lia.
Qed.

Lemma pow2_xO p : 2 ^ Z.pos p~0 = 2 ^ Z.pos p * 2 ^ Z.pos p.
Proof.
  replace (Z.pos p~0) with (Z.pos p + Z.pos p) by lia.
  apply Z.pow_add_r; lia.
Qed.

Lemma pow2_xI p : 2 ^ Z.pos p~1 = 2 * (2 ^ Z.pos p * 2 ^ Z.pos p).
Proof.
  replace (Z.pos p~1) with (1 + (Z.pos p + Z.pos p)) by lia.
  rewrite !Z.pow_add_r by lia. reflexivity.
Qed.

Lemma iter_pos_shr_m p : forall mrs,
  0 <= shr_m mrs -> shr_m (SpecFloat.iter_pos shr_1 p mrs) = shr_m mrs / 2 ^ Z.pos p.
Proof.
  induction p as [p IH|p IH|]; intros mrs Hm; cbn [SpecFloat.iter_pos].
  - assert (H1 : 0 <= shr_m (shr_1 mrs)) by (rewrite shr_1_m by lia; apply Z.div_pos; lia).
    assert (H2 : 0 <= shr_m (SpecFloat.iter_pos shr_1 p (shr_1 mrs)))
      by (rewrite IH by lia; apply Z.div_pos; lia).
    rewrite IH, IH, shr_1_m by lia.
    rewrite !Z.div_div by lia.
    rewrite pow2_xI; f_equal; lia.
  - assert (H2 : 0 <= shr_m (SpecFloat.iter_pos shr_1 p mrs))
      by (rewrite IH by lia; apply Z.div_pos; lia).
    rewrite IH, IH by lia.
    rewrite !Z.div_div by lia.
    rewrite pow2_xO. reflexivity.
  - rewrite shr_1_m by lia. reflexivity.
Qed.

Lemma shr_1_exact k : 0 <= k ->
  shr_1 {| shr_m := 2 * k; shr_r := false; shr_s := false |}
  = {| shr_m := k; shr_r := false; shr_s := false |}.
Proof. intros Hk. destruct k as [|p|p]; simpl; try lia; reflexivity. Qed.

Lemma iter_pos_shr_exact p : forall k, 0 <= k ->
  SpecFloat.iter_pos shr_1 p {| shr_m := k * 2 ^ Z.pos p; shr_r := false; shr_s := false |}
  = {| shr_m := k; shr_r := false; shr_s := false |}.
Proof.
  induction p as [p IH|p IH|]; intros k Hk; cbn [SpecFloat.iter_pos].
  - replace (k * 2 ^ Z.pos p~1) with (2 * ((k * 2 ^ Z.pos p) * 2 ^ Z.pos p))
      by (rewrite pow2_xI; lia).
    rewrite shr_1_exact by nia. rewrite IH by nia. apply IH; lia.
  - replace (k * 2 ^ Z.pos p~0) with ((k * 2 ^ Z.pos p) * 2 ^ Z.pos p)
      by (rewrite pow2_xO; lia).
    rewrite IH by nia. apply IH; lia.
  - change (2 ^ 1) with 2. replace (k * 2) with (2 * k) by lia.
    apply shr_1_exact; lia.
Qed.

Lemma round_nearest_even_bounds m l : m <= round_nearest_even m l <= m + 1.
Proof. destruct l as [|[]]; simpl; try lia. destruct (Z.even m); lia. Qed.

Lemma loc_of_shr_record_of_loc m l : loc_of_shr_record (shr_record_of_loc m l) = l.
Proof. destruct l as [|[]]; reflexivity. Qed.

Lemma fexp_le Bk d : 0 <= Bk <= 1074 -> d <= 53 - Bk -> fexp prec emax d <= - Bk.
Proof. unfold fexp, SpecFloat.emin, prec, emax. lia. Qed.

Lemma shr_fexp_round_le Bn Bk mx ex lx :
  0 < Bn < 2 ^ 53 -> 0 <= Bk <= 1074 -> 0 <= mx -> ex <= - Bk ->
  mx < Bn * 2 ^ (- ex - Bk) \/ (mx = Bn * 2 ^ (- ex - Bk) /\ lx = loc_Exact) ->
  forall mrs e, shr_fexp prec emax mx ex lx = (mrs, e) ->
  0 <= shr_m mrs <= round_nearest_even (shr_m mrs) (loc_of_shr_record mrs)
  /\ e <= - Bk
  /\ round_nearest_even (shr_m mrs) (loc_of_shr_record mrs) <= Bn * 2 ^ (- e - Bk).
Proof.
  intros HBn HBk Hmx Hex Hle mrs e.
  assert (Hpow : 0 < 2 ^ (- ex - Bk)) by (apply Z.pow_pos_nonneg; lia).
  assert (Hd : Zdigits2 mx + ex <= 53 - Bk).
  { assert (Zdigits2 mx <= 53 - ex - Bk); [|lia].
    apply Zdigits2_le; try lia.
    replace (53 - ex - Bk) with (53 + (- ex - Bk)) by lia.
    rewrite Z.pow_add_r by lia.
    assert (mx <= Bn * 2 ^ (- ex - Bk)) by (destruct Hle as [?|[? _]]; lia).
    nia. }
  apply fexp_le in Hd; [|lia].
  unfold shr_fexp, shr.
  set (f := fexp prec emax (Zdigits2 mx + ex)) in *.
  destruct (f - ex) as [|p|p] eqn:Hn; intros [= <- <-].
  - rewrite loc_of_shr_record_of_loc.
    assert (Hs : shr_m (shr_record_of_loc mx lx) = mx) by (destruct lx as [|[]]; reflexivity).
    rewrite Hs. pose proof (round_nearest_even_bounds mx lx).
    repeat split; try lia.
    destruct Hle as [Hlt|[Heq ->]]; [lia|]. simpl. lia.
  - assert (He : ex + Z.pos p = f) by lia.
    assert (Hsplit : 2 ^ (- ex - Bk) = 2 ^ (- f - Bk) * 2 ^ Z.pos p).
    { rewrite <- Z.pow_add_r by lia. f_equal. lia. }
    assert (Hs : shr_m (shr_record_of_loc mx lx) = mx) by (destruct lx as [|[]]; reflexivity).
    pose proof (iter_pos_shr_m p (shr_record_of_loc mx lx)) as Hm.
    rewrite Hs in Hm. specialize (Hm Hmx).
    rewrite He.
    assert (H0 : 0 <= mx / 2 ^ Z.pos p) by (apply Z.div_pos; lia).
    destruct Hle as [Hlt|[Heq ->]].
    + pose proof (round_nearest_even_bounds
                    (shr_m (SpecFloat.iter_pos shr_1 p (shr_record_of_loc mx lx)))
                    (loc_of_shr_record (SpecFloat.iter_pos shr_1 p (shr_record_of_loc mx lx)))) as Hr.
      rewrite Hm in *.
      assert (mx / 2 ^ Z.pos p < Bn * 2 ^ (- f - Bk)).
      { apply Z.div_lt_upper_bound; [lia|]. rewrite Hsplit in Hlt. lia. }
      repeat split; lia.
    + simpl shr_record_of_loc.
      assert (Hk : 0 <= Bn * 2 ^ (- f - Bk)).
      { assert (0 < 2 ^ (- f - Bk)) by (apply Z.pow_pos_nonneg; lia). nia. }
      replace mx with ((Bn * 2 ^ (- f - Bk)) * 2 ^ Z.pos p) by (rewrite Heq, Hsplit; lia).
      rewrite iter_pos_shr_exact by lia. simpl. lia.
  - rewrite loc_of_shr_record_of_loc.
    assert (Hs : shr_m (shr_record_of_loc mx lx) = mx) by (destruct lx as [|[]]; reflexivity).
    rewrite Hs. pose proof (round_nearest_even_bounds mx lx).
    repeat split; try lia.
    destruct Hle as [Hlt|[Heq ->]]; [lia|]. simpl. lia.
Qed.

Lemma binary_round_aux_le Bn Bk mx ex lx :
  0 < Bn < 2 ^ 53 -> 0 <= Bk <= 1074 -> 0 <= mx -> ex <= - Bk ->
  mx < Bn * 2 ^ (- ex - Bk) \/ (mx = Bn * 2 ^ (- ex - Bk) /\ lx = loc_Exact) ->
  le_dyadic (binary_round_aux prec emax false mx ex lx) Bn Bk.
Proof.
  intros HBn HBk Hmx Hex Hle. unfold binary_round_aux.
  destruct (shr_fexp prec emax mx ex lx) as [mrs' e'] eqn:E1.
  destruct (shr_fexp_round_le Bn Bk mx ex lx HBn HBk Hmx Hex Hle _ _ E1) as (Hm1 & He1 & Hb1).
  set (m1 := round_nearest_even (shr_m mrs') (loc_of_shr_record mrs')) in *.
  destruct (shr_fexp prec emax m1 e' loc_Exact) as [mrs'' e''] eqn:E2.
  assert (Hle1 : m1 < Bn * 2 ^ (- e' - Bk) \/ (m1 = Bn * 2 ^ (- e' - Bk) /\ loc_Exact = loc_Exact)).
  { destruct (Z.eq_dec m1 (Bn * 2 ^ (- e' - Bk))); [right; split; trivial|left; lia]. }
  assert (Hm1' : 0 <= m1) by lia.
  destruct (shr_fexp_round_le Bn Bk m1 e' loc_Exact HBn HBk Hm1' He1 Hle1 _ _ E2) as (Hm2 & He2 & Hb2).
  destruct (shr_m mrs'') as [|m|m] eqn:Hm; [exact I| |lia].
  replace (e'' <=? emax - prec) with true
    by (symmetry; apply Z.leb_le; unfold emax, prec; lia).
  simpl. lia.
Qed.

Lemma Zdigits2_gt m : 0 <= m -> m < 2 ^ Zdigits2 m.
Proof.
  intros Hm. destruct m as [|p|p]; simpl Zdigits2; try lia.
  rewrite digits2_pos_size.
  pose proof (Pos.size_gt p) as H.
  apply Pos2Z.pos_lt_pos in H. rewrite Pos2Z.inj_pow in H. exact H.
Qed.

Lemma new_location_0 u : new_location u 0 = loc_Exact.
Proof. unfold new_location. destruct (Z.even u); reflexivity. Qed.

Lemma truediv_le i u Bn Bk :
  0 <= i -> 0 < u -> 0 < Bn < 2 ^ 53 -> 0 <= Bk <= 1074 ->
  i * 2 ^ Bk <= Bn * u ->
  le_dyadic (truediv i u) Bn Bk.
Proof.
  intros Hi Hu HBn HBk Hle.
  destruct u as [|u|u]; try lia.
  destruct i as [|i|i]; [exact I| |lia].
  unfold truediv, Z2SF, SFdiv, SFdiv_core_binary. cbn [xorb].
  set (d1 := Zdigits2 (Z.pos i)). set (d2 := Zdigits2 (Z.pos u)).
  assert (Hd2 : Z.pos u < 2 ^ d2) by (apply Zdigits2_gt; lia).
  assert (Hd2' : 0 <= d2) by (unfold d2; simpl; lia).
  assert (HpBk : 0 < 2 ^ Bk) by (apply Z.pow_pos_nonneg; lia).
  assert (Hd1 : d1 <= 53 + d2 - Bk).
  { assert (Hlt : Z.pos i * 2 ^ Bk < 2 ^ 53 * 2 ^ d2) by nia.
    rewrite <- Z.pow_add_r in Hlt by lia.
    destruct (Z_lt_le_dec (53 + d2 - Bk) 0) as [Hneg|Hpos].
    - exfalso.
      assert (2 ^ (53 + d2) <= 2 ^ Bk) by (apply Z.pow_le_mono_r; lia). nia.
    - apply Zdigits2_le; try lia.
      replace (53 + d2) with ((53 + d2 - Bk) + Bk) in Hlt by lia.
      rewrite Z.pow_add_r in Hlt by lia. nia. }
  assert (Hf : fexp prec emax (d1 + 0 - (d2 + 0)) <= - Bk) by (apply fexp_le; lia).
  set (e' := Z.min (fexp prec emax (d1 + 0 - (d2 + 0))) (0 - 0)) in *.
  assert (He' : e' <= - Bk) by (unfold e'; lia).
  assert (He0 : e' <= 0) by (unfold e'; lia).
  set (m' := match 0 - 0 - e' with
             | 0 => Z.pos i
             | Z.pos _ => Z.shiftl (Z.pos i) (0 - 0 - e')
             | Z.neg _ => 0
             end).
  assert (Hm' : m' = Z.pos i * 2 ^ (- e')).
  { unfold m'. replace (0 - 0 - e') with (- e') by lia.
    destruct (- e') as [|s|s] eqn:Hs; try lia.
    rewrite Z.shiftl_mul_pow2 by lia. reflexivity. }
  pose proof (Z.div_mod m' (Z.pos u) ltac:(lia)) as Hdm.
  pose proof (Z.mod_pos_bound m' (Z.pos u) ltac:(lia)) as Hmb.
  unfold Z.div, Z.modulo in Hdm, Hmb.
  destruct (Z.div_eucl m' (Z.pos u)) as [q r]. cbn [fst snd] in Hdm, Hmb.
  assert (Hsplit : 2 ^ (- e') = 2 ^ Bk * 2 ^ (- e' - Bk)).
  { rewrite <- Z.pow_add_r by lia. f_equal. lia. }
  assert (Hp : 0 < 2 ^ (- e' - Bk)) by (apply Z.pow_pos_nonneg; lia).
  assert (HT : m' <= Z.pos u * (Bn * 2 ^ (- e' - Bk))).
  { rewrite Hm', Hsplit. nia. }
  assert (Hq0 : 0 <= q) by nia.
  apply binary_round_aux_le; try lia.
  destruct (Z_lt_le_dec q (Bn * 2 ^ (- e' - Bk))) as [Hlt|Hge]; [left; exact Hlt|right].
  assert (Hqe : q = Bn * 2 ^ (- e' - Bk)) by nia.
  split; [exact Hqe|].
  assert (r = 0) by nia. subst r. apply new_location_0.
Qed.

Lemma SFmul_le x my ey c Bn Bk :
  le_dyadic x Bn Bk -> ey <= 0 -> Z.pos my = c * 2 ^ (- ey) ->
  0 < Bn * c < 2 ^ 53 -> 0 < Bn -> 0 <= Bk <= 1074 ->
  le_dyadic (SFmul prec emax x (S754_finite false my ey)) (Bn * c) Bk.
Proof.
  intros Hx Hey Hmy HBc HBn HBk.
  destruct x as [s| | |[|] m e]; simpl in Hx; try contradiction; [exact I|].
  destruct Hx as [He Hm]. unfold SFmul. cbn [xorb].
  assert (H1 : 0 < 2 ^ (- e - Bk)) by (apply Z.pow_pos_nonneg; lia).
  assert (H2 : 0 < 2 ^ (- ey)) by (apply Z.pow_pos_nonneg; lia).
  apply binary_round_aux_le; try lia.
  rewrite Pos2Z.inj_mul, Hmy.
  replace (- (e + ey) - Bk) with ((- e - Bk) + - ey) by lia.
  rewrite Z.pow_add_r by lia.
  destruct (Z.eq_dec (Z.pos m) (Bn * 2 ^ (- e - Bk))) as [Heq|Hne].
  - right. split; [rewrite Heq; ring|reflexivity].
  - left. assert (0 < c) by nia. nia.
Qed.

Lemma of_int_50 : of_int 50 = S754_finite false 7036874417766400 (-47).
Proof. reflexivity. Qed.

Lemma of_int_30 : of_int 30 = S754_finite false 8444249301319680 (-48).
Proof. reflexivity. Qed.

Lemma mul_int_50_le x : le_dyadic x 1 0 -> le_dyadic (mul_int x 50) 50 0.
Proof.
  intros Hx. unfold mul_int. rewrite of_int_50.
  apply (SFmul_le x _ _ 50 1 0 Hx); try lia; reflexivity.
Qed.

Lemma mul_int_30_le x : le_dyadic x 1 0 -> le_dyadic (mul_int x 30) 30 0.
Proof.
  intros Hx. unfold mul_int. rewrite of_int_30.
  apply (SFmul_le x _ _ 30 1 0 Hx); try lia; reflexivity.
Qed.

Lemma to_int_le x Bn : 0 <= Bn -> le_dyadic x Bn 0 -> 0 <= to_int x <= Bn.
Proof.
  intros HBn. destruct x as [s| | |[|] m e]; simpl; intros Hx; try contradiction; try lia.
  destruct Hx as [He Hm]. destruct e as [|p|p]; try lia.
  - simpl in Hm. rewrite Z.shiftl_0_r. lia.
  - rewrite Z.shiftr_div_pow2 by lia.
    replace (- Z.neg p - 0) with (Z.pos p) in Hm by lia.
    assert (0 < 2 ^ Z.pos p) by (apply Z.pow_pos_nonneg; lia).
    split; [apply Z.div_pos; lia|].
    apply Z.div_le_upper_bound; lia.
Qed.

Lemma fmax_le a b Bn Bk : le_dyadic a Bn Bk -> le_dyadic b Bn Bk -> le_dyadic (fmax a b) Bn Bk.
Proof. unfold fmax. destruct (ltb a b); trivial. Qed.

Lemma ltb_half x : le_dyadic x (2 ^ 53 - 1) 54 -> ltb x half = true.
Proof.
  destruct x as [s| | |[|] m e]; simpl; intros Hx; try contradiction;
    try reflexivity.
  destruct Hx as [He _]. unfold ltb, SFltb, SFcompare, half.
  replace (e ?= -53) with Lt by (symmetry; apply Z.compare_lt_iff; lia).
  reflexivity.
Qed.

Lemma truediv_lt_half i u :
  0 <= i -> 2 * i < u -> u < 2 ^ 53 -> ltb (truediv i u) half = true.
Proof.
  intros Hi Hlt Hu. apply ltb_half. apply truediv_le; lia.
Qed.

Lemma to_Q_range x : le_dyadic x 1 0 -> (0 <= to_Q x <= 1)%Q.
Proof.
  destruct x as [s| | |[|] m e]; simpl; intros Hx; try contradiction;
    try (split; discriminate).
  destruct Hx as [He Hm]. destruct e as [|p|p]; try lia.
  - simpl in Hm. unfold Qle; simpl. lia.
  - replace (- Z.neg p - 0) with (Z.pos p) in Hm by lia.
    rewrite <- Pos2Z.inj_pow in Hm.
    unfold Qle; simpl. lia.
Qed.

(** *** Lower bounds *)

Lemma shr_fexp_mantissa mx ex lx mrs e :
  0 <= mx -> shr_fexp prec emax mx ex lx = (mrs, e) -> shr_m mrs < 2 ^ 53.
Proof.
  intros Hmx. unfold shr_fexp, shr.
  pose proof (Zdigits2_gt mx Hmx) as Hd.
  assert (Hd0 : 0 <= Zdigits2 mx) by (destruct mx; simpl; lia).
  assert (Hf : Zdigits2 mx + ex - 53 <= fexp prec emax (Zdigits2 mx + ex))
    by (unfold fexp, prec; lia).
  set (f := fexp prec emax (Zdigits2 mx + ex)) in *.
  assert (Hs : shr_m (shr_record_of_loc mx lx) = mx) by (destruct lx as [|[]]; reflexivity).
  destruct (f - ex) as [|p|p] eqn:Hn; intros [= <- <-].
  - rewrite Hs. assert (2 ^ Zdigits2 mx <= 2 ^ 53) by (apply Z.pow_le_mono_r; lia). lia.
  - rewrite iter_pos_shr_m by (rewrite Hs; exact Hmx). rewrite Hs.
    apply Z.div_lt_upper_bound; [apply Z.pow_pos_nonneg; lia|].
    rewrite <- Z.pow_add_r by lia.
    assert (2 ^ Zdigits2 mx <= 2 ^ (Z.pos p + 53)) by (apply Z.pow_le_mono_r; lia).
    lia.
  - rewrite Hs. assert (2 ^ Zdigits2 mx <= 2 ^ 53) by (apply Z.pow_le_mono_r; lia). lia.
Qed.

Lemma shr_fexp_ge Ln Lk mx ex lx mrs e :
  0 <= Ln -> 0 <= mx -> e <= - Lk ->
  Ln * 2 ^ (- ex - Lk) <= mx ->
  shr_fexp prec emax mx ex lx = (mrs, e) ->
  Ln * 2 ^ (- e - Lk) <= shr_m mrs.
Proof.
  intros HLn Hmx He Hle. unfold shr_fexp, shr.
  set (f := fexp prec emax (Zdigits2 mx + ex)) in *.
  assert (Hs : shr_m (shr_record_of_loc mx lx) = mx) by (destruct lx as [|[]]; reflexivity).
  destruct (f - ex) as [|p|p] eqn:Hn; intros [= <- Hee]; subst e.
  - rewrite Hs. exact Hle.
  - rewrite iter_pos_shr_m by (rewrite Hs; exact Hmx). rewrite Hs.
    apply Z.div_le_lower_bound; [apply Z.pow_pos_nonneg; lia|].
    replace (- ex - Lk) with (Z.pos p + (- (ex + Z.pos p) - Lk)) in Hle by lia.
    rewrite Z.pow_add_r in Hle by lia. lia.
  - rewrite Hs. exact Hle.
Qed.

Lemma binary_round_aux_ge Bn Bk Ln Lk mx ex lx :
  0 < Bn < 2 ^ 53 -> 0 <= Bk <= 1074 -> 0 <= mx -> ex <= - Bk ->
  mx < Bn * 2 ^ (- ex - Bk) \/ (mx = Bn * 2 ^ (- ex - Bk) /\ lx = loc_Exact) ->
  0 < Ln -> 0 <= Lk <= Bk -> Ln * 2 ^ (- ex - Lk) <= mx ->
  ge_dyadic (binary_round_aux prec emax false mx ex lx) Ln Lk.
Proof.
  intros HBn HBk Hmx Hex Hle HLn HLk Hge. unfold binary_round_aux.
  destruct (shr_fexp prec emax mx ex lx) as [mrs' e'] eqn:E1.
  destruct (shr_fexp_round_le Bn Bk mx ex lx HBn HBk Hmx Hex Hle _ _ E1) as (Hm1 & He1 & Hb1).
  pose proof (shr_fexp_ge Ln Lk mx ex lx mrs' e' ltac:(lia) Hmx ltac:(lia) Hge E1) as Hg1.
  set (m1 := round_nearest_even (shr_m mrs') (loc_of_shr_record mrs')) in *.
  destruct (shr_fexp prec emax m1 e' loc_Exact) as [mrs'' e''] eqn:E2.
  assert (Hle1 : m1 < Bn * 2 ^ (- e' - Bk) \/ (m1 = Bn * 2 ^ (- e' - Bk) /\ loc_Exact = loc_Exact)).
  { destruct (Z.eq_dec m1 (Bn * 2 ^ (- e' - Bk))); [right; split; trivial|left; lia]. }
  assert (Hm1' : 0 <= m1) by lia.
  destruct (shr_fexp_round_le Bn Bk m1 e' loc_Exact HBn HBk Hm1' He1 Hle1 _ _ E2) as (Hm2 & He2 & Hb2).
  assert (Hg1' : Ln * 2 ^ (- e' - Lk) <= m1) by lia.
  pose proof (shr_fexp_ge Ln Lk m1 e' loc_Exact mrs'' e'' ltac:(lia) Hm1' ltac:(lia) Hg1' E2) as Hg2.
  pose proof (shr_fexp_mantissa m1 e' loc_Exact mrs'' e'' Hm1' E2) as Hlt.
  assert (Hp : 0 < 2 ^ (- e'' - Lk)) by (apply Z.pow_pos_nonneg; lia).
  destruct (shr_m mrs'') as [|m|m] eqn:Hm; [nia| |lia].
  replace (e'' <=? emax - prec) with true
    by (symmetry; apply Z.leb_le; unfold emax, prec; lia).
  simpl. lia.
Qed.

Lemma truediv_ge i u Ln Lk :
  0 < i -> 0 < u -> i <= u -> 0 < Ln -> 0 <= Lk <= 52 ->
  Ln * u <= i * 2 ^ Lk ->
  ge_dyadic (truediv i u) Ln Lk.
Proof.
  intros Hi Hu Hiu HLn HLk Hge.
  destruct u as [|u|u]; try lia. destruct i as [|i|i]; try lia.
  unfold truediv, Z2SF, SFdiv, SFdiv_core_binary. cbn [xorb].
  set (d1 := Zdigits2 (Z.pos i)). set (d2 := Zdigits2 (Z.pos u)).
  assert (Hd2 : Z.pos u < 2 ^ d2) by (apply Zdigits2_gt; lia).
  assert (Hd2' : 0 <= d2) by (unfold d2; simpl; lia).
  assert (Hd1 : d1 <= 1 + d2).
  { apply Zdigits2_le; try lia. rewrite Z.pow_add_r by lia. lia. }
  assert (Hf : fexp prec emax (d1 + 0 - (d2 + 0)) <= - 52)
    by (apply (fexp_le 52); lia).
  set (e' := Z.min (fexp prec emax (d1 + 0 - (d2 + 0))) (0 - 0)) in *.
  assert (He' : e' <= - 52) by (unfold e'; lia).
  set (m' := match 0 - 0 - e' with
             | 0 => Z.pos i
             | Z.pos _ => Z.shiftl (Z.pos i) (0 - 0 - e')
             | Z.neg _ => 0
             end).
  assert (Hm' : m' = Z.pos i * 2 ^ (- e')).
  { unfold m'. replace (0 - 0 - e') with (- e') by lia.
    destruct (- e') as [|s|s] eqn:Hs; try lia.
    rewrite Z.shiftl_mul_pow2 by lia. reflexivity. }
  pose proof (Z.div_mod m' (Z.pos u) ltac:(lia)) as Hdm.
  pose proof (Z.mod_pos_bound m' (Z.pos u) ltac:(lia)) as Hmb.
  unfold Z.div, Z.modulo in Hdm, Hmb.
  destruct (Z.div_eucl m' (Z.pos u)) as [q r]. cbn [fst snd] in Hdm, Hmb.
  assert (Hsplit : 2 ^ (- e') = 2 ^ 52 * 2 ^ (- e' - 52)).
  { rewrite <- Z.pow_add_r by lia. f_equal. lia. }
  assert (Hsplit' : 2 ^ (- e') = 2 ^ Lk * 2 ^ (- e' - Lk)).
  { rewrite <- Z.pow_add_r by lia. f_equal. lia. }
  assert (Hp : 0 < 2 ^ (- e' - 52)) by (apply Z.pow_pos_nonneg; lia).
  assert (Hp' : 0 < 2 ^ (- e' - Lk)) by (apply Z.pow_pos_nonneg; lia).
  assert (HpL : 0 < 2 ^ Lk) by (apply Z.pow_pos_nonneg; lia).
  assert (HT : m' <= Z.pos u * (2 ^ 52 * 2 ^ (- e' - 52))).
  { rewrite Hm', Hsplit. nia. }
  assert (Hq0 : 0 <= q) by nia.
  assert (HL : Z.pos u * (Ln * 2 ^ (- e' - Lk)) <= m').
  { rewrite Hm', Hsplit'. nia. }
  apply (binary_round_aux_ge (2 ^ 52) 52); try lia.
  - destruct (Z_lt_le_dec q (2 ^ 52 * 2 ^ (- e' - 52))) as [Hlt|Hge'];
      [left; exact Hlt|right].
    assert (Hqe : q = 2 ^ 52 * 2 ^ (- e' - 52)) by nia.
    split; [exact Hqe|].
    assert (r = 0) by nia. subst r. apply new_location_0.
  - replace (- e' - Lk) with (- e' - Lk) by lia.
    assert (Ln * 2 ^ (- e' - Lk) * Z.pos u <= q * Z.pos u + r) by lia.
    destruct (Z_lt_le_dec q (Ln * 2 ^ (- e' - Lk))); [|lia]. nia.
Qed.

Lemma ltb_half_false x : ge_dyadic x 1 1 -> ltb x half = false.
Proof.
  destruct x as [s| | |[|] m e]; simpl; intros Hx; try contradiction.
  destruct Hx as (He & Hge & Hlt). unfold ltb, SFltb, SFcompare, half.
  destruct (Z.compare_spec e (-53)) as [->|Hlt'|Hgt]; [| |reflexivity].
  - change (- -53 - 1) with 52 in Hge.
    rewrite Pos.compare_cont_spec. simpl.
    destruct (Pos.compare_spec m 4503599627370496) as [|Hc|]; try reflexivity.
    exfalso. apply Pos2Z.pos_lt_pos in Hc. change (2 ^ 52) with 4503599627370496 in Hge. lia.
  - exfalso.
    assert (2 ^ 53 <= 2 ^ (- e - 1)) by (apply Z.pow_le_mono_r; lia). lia.
Qed.

Lemma truediv_ge_half i u :
  0 < u -> i <= u -> u <= 2 * i -> ltb (truediv i u) half = false.
Proof.
  intros Hu Hiu Hhalf. apply ltb_half_false, truediv_ge; lia.
Qed.

End FloatFacts.

(** ** The scorer's selection: [_find_best_match] *)

Section BestMatchFacts.

Variable matching : string -> string -> nat.
Variables (track_name artist_name : string) (expected_duration : Z).

Local Abbreviation score v := (score_video matching v track_name artist_name expected_duration).
Local Abbreviation scored vs := (scored_videos matching vs track_name artist_name expected_duration).
Local Abbreviation best vs := (_find_best_match matching vs track_name artist_name expected_duration).

Lemma scored_videos_app l1 l2 : scored (l1 ++ l2) = scored l1 ++ scored l2.
Proof.
  induction l1 as [|v l1 IH]; simpl; [reflexivity|].
  rewrite IH, app_assoc. reflexivity.
Qed.

Lemma scored_videos_eligible vs :
  scored vs = map (fun v => scored_entry v (score v))
                  (eligible matching vs track_name artist_name expected_duration).
Proof.
  induction vs as [|v vs IH]; simpl; [reflexivity|].
  unfold FLOOR. destruct (100 <=? score v); simpl; rewrite IH; reflexivity.
Qed.

Lemma eligible_idem vs :
  eligible matching (eligible matching vs track_name artist_name expected_duration)
    track_name artist_name expected_duration
  = eligible matching vs track_name artist_name expected_duration.
Proof.
  unfold eligible. induction vs as [|v vs IH]; simpl; [reflexivity|].
  destruct (FLOOR <=? score v) eqn:E; simpl; rewrite ?E, IH; reflexivity.
Qed.

Lemma max_by_score_In b l : In (max_by_score b l) (b :: l).
Proof.
  revert b. induction l as [|x l IH]; intros b; simpl; [auto|].
  destruct (IH (if sv_score b <? sv_score x then x else b)) as [H|H]; [|auto].
  destruct (sv_score b <? sv_score x); rewrite <- H; auto.
Qed.

Lemma max_by_score_ge b l : sv_score b <= sv_score (max_by_score b l).
Proof.
  revert b. induction l as [|x l IH]; intros b; simpl; [lia|].
  specialize (IH (if sv_score b <? sv_score x then x else b)).
  destruct (Z.ltb_spec (sv_score b) (sv_score x)); lia.
Qed.

Lemma max_by_score_max b l x : In x (b :: l) -> sv_score x <= sv_score (max_by_score b l).
Proof.
  revert b. induction l as [|y l IH]; intros b Hin; simpl.
  - destruct Hin as [->|[]]. lia.
  - destruct Hin as [->|[->|Hin]].
    + pose proof (max_by_score_ge (if sv_score x <? sv_score y then y else x) l).
      destruct (Z.ltb_spec (sv_score x) (sv_score y)); lia.
    + pose proof (max_by_score_ge (if sv_score b <? sv_score x then x else b) l).
      destruct (Z.ltb_spec (sv_score b) (sv_score x)); lia.
    + apply IH. right. exact Hin.
Qed.

(** The maximum is the first of the maximal elements: everything before
    it is strictly smaller. *)
Lemma max_by_score_first b l :
  exists l1 l2, b :: l = l1 ++ max_by_score b l :: l2
    /\ (forall x, In x l1 -> sv_score x < sv_score (max_by_score b l))
    /\ (forall x, In x l2 -> sv_score x <= sv_score (max_by_score b l)).
Proof.
  revert b. induction l as [|y l IH]; intros b; simpl.
  - exists [], []. simpl. repeat split; intros x [].
  - destruct (Z.ltb_spec (sv_score b) (sv_score y)) as [Hlt|Hge].
    + destruct (IH y) as (l1 & l2 & Heq & H1 & H2).
      exists (b :: l1), l2. rewrite Heq at 1. repeat split; auto.
      intros x [<-|Hx]; [|auto].
      pose proof (max_by_score_ge y l). lia.
    + destruct (IH b) as (l1 & l2 & Heq & H1 & H2).
      destruct l1 as [|b' l1]; simpl in Heq.
      * injection Heq as Hb Hl. exists [], (y :: l2). simpl.
        repeat split; [congruence|intros x []|].
        intros x [<-|Hx]; [|auto]. rewrite <- Hb. lia.
      * injection Heq as Hb Hl. subst b'. exists (b :: y :: l1), l2. simpl.
        repeat split; [congruence| |auto].
        intros x [<-|[<-|Hx]]; [apply H1; left; reflexivity| |apply H1; right; exact Hx].
        pose proof (H1 b (or_introl eq_refl)). lia.
Qed.

Lemma In_scored b vs :
  In b (scored vs) <->
  exists v, In v vs /\ 100 <= score v /\ b = scored_entry v (score v).
Proof.
  induction vs as [|v vs IH]; simpl.
  - split; [intros []|intros (v & [] & _)].
  - rewrite in_app_iff, IH. split.
    + intros [H|(w & Hw & Hs & ->)].
      * destruct (Z.leb_spec 100 (score v)); [|destruct H].
        destruct H as [<-|[]]. exists v. auto.
      * exists w. auto.
    + intros (w & [<-|Hw] & Hs & ->).
      * left. destruct (Z.leb_spec 100 (score v)); [left; reflexivity|lia].
      * right. exists w. auto.
Qed.

Lemma find_best_match_Some vs b :
  best vs = Some b ->
  exists v, In v vs /\ 100 <= score v /\ b = scored_entry v (score v).
Proof.
  unfold _find_best_match. intros H.
  destruct (scored vs) as [|x r] eqn:E; [discriminate|].
  injection H as <-. apply In_scored. rewrite E. apply max_by_score_In.
Qed.

Lemma find_best_match_None vs :
  best vs = None <-> (forall v, In v vs -> score v < 100).
Proof.
  unfold _find_best_match. split.
  - intros H v Hv. destruct (scored vs) as [|x r] eqn:E; [|discriminate].
    destruct (Z_lt_le_dec (score v) 100) as [|Hge]; [assumption|exfalso].
    assert (Hin : In (scored_entry v (score v)) (scored vs))
      by (apply In_scored; exists v; auto).
    rewrite E in Hin. destruct Hin.
  - intros H. destruct (scored vs) as [|x r] eqn:E; [reflexivity|exfalso].
    assert (Hin : In x (scored vs)) by (rewrite E; left; reflexivity).
    apply In_scored in Hin. destruct Hin as (v & Hv & Hs & _).
    specialize (H v Hv). lia.
Qed.

End BestMatchFacts.

(** ** The collector and the passes *)

Section EngineFacts.

Variable matching : string -> string -> nat.
Variables (track_name artist_name : string) (duration_seconds max_results : Z).

Local Abbreviation pass yt q :=
  (_search_with_query matching yt q track_name artist_name duration_seconds
     max_results).
Local Abbreviation score v :=
  (score_video matching v track_name artist_name duration_seconds).

Lemma collect_eq (yt : YTMusic) q log :
  collect yt q max_results log =
  (collected
     (yt log (songs_request q max_results))
     (yt (log ++ [songs_request q max_results]) (videos_request q max_results))
     (yt (log ++ [songs_request q max_results; videos_request q max_results])
         (plain_request q max_results)),
   log ++ pass_requests q max_results).
Proof.
  unfold collect, bind, yt_search, ret, collected, pass_requests. cbn.
  rewrite <- !app_assoc. reflexivity.
Qed.

Lemma find_best_match_nil :
  _find_best_match matching [] track_name artist_name duration_seconds = None.
Proof. reflexivity. Qed.

Lemma search_with_query_eq (yt : YTMusic) q log :
  pass yt q log =
  (_find_best_match matching (fst (collect yt q max_results log))
     track_name artist_name duration_seconds,
   log ++ pass_requests q max_results).
Proof.
  unfold _search_with_query, bind. rewrite collect_eq. cbn [fst].
  destruct (collected _ _ _); reflexivity.
Qed.

Lemma search_passes_eq (yt : YTMusic) log :
  search_passes matching yt track_name artist_name duration_seconds max_results log =
  let (r1, l1) := pass yt (_build_search_query track_name "") log in
  if high_confidence r1 then (r1, l1)
  else
    let (r2, l2) := pass yt (_build_search_query track_name artist_name) l1 in
    if high_confidence r2 then (r2, l2)
    else
      let (r3, l3) := pass yt (_build_search_query artist_name track_name) l2 in
      (merge_best (merge_best r1 r2) r3, l3).
Proof.
  unfold search_passes, bind, ret.
  destruct (pass yt (_build_search_query track_name "") log) as [r1 l1].
  destruct r1 as [b1|]; cbn [high_confidence merge_best];
    try destruct (HIGH_CONFIDENCE <=? sv_score b1); try reflexivity;
    destruct (pass yt (_build_search_query track_name artist_name) l1) as [r2 l2];
    destruct r2 as [b2|]; cbn [high_confidence merge_best];
    try destruct (HIGH_CONFIDENCE <=? sv_score b2); try reflexivity;
    destruct (pass yt (_build_search_query artist_name track_name) l2) as [r3 l3];
    destruct r3 as [b3|]; reflexivity.
Qed.

(** *** Where the collected videos come from *)

Lemma from_results_cons_here r rest video_id :
  video_id_of r = Some video_id ->
  from_results (r :: rest) (make_video_info video_id r).
Proof. intros H. exists r, video_id. simpl. auto. Qed.

Lemma from_results_cons_later r rest v :
  from_results rest v -> from_results (r :: rest) v.
Proof. intros (r' & i & Hr & Hi & ->). exists r', i. simpl. auto. Qed.

Lemma add_songs_In results : forall acc v,
  In v (add_songs acc results) -> In v acc \/ from_results results v.
Proof.
  induction results as [|r rest IH]; intros acc v; simpl; [auto|].
  destruct (video_id_of r) as [i|] eqn:E; intros H;
    destruct (IH _ _ H) as [Hin|Hfrom];
    auto using from_results_cons_later.
  apply in_app_iff in Hin. destruct Hin as [Hin|[<-|[]]]; [auto|].
  right. apply from_results_cons_here. exact E.
Qed.

Lemma add_unseen_In results : forall acc v,
  In v (add_unseen acc results) -> In v acc \/ from_results results v.
Proof.
  induction results as [|r rest IH]; intros acc v; simpl; [auto|].
  destruct (video_id_of r) as [i|] eqn:E; [destruct (seen acc i)|]; intros H;
    destruct (IH _ _ H) as [Hin|Hfrom];
    auto using from_results_cons_later.
  apply in_app_iff in Hin. destruct Hin as [Hin|[<-|[]]]; [auto|].
  right. apply from_results_cons_here. exact E.
Qed.

Lemma collected_In s1 s2 s3 v :
  In v (collected s1 s2 s3) ->
  exists results, (s1 = Returned results \/ s2 = Returned results
                   \/ s3 = Returned results)
                  /\ from_results results v.
Proof.
  unfold collected, on_response. intros H.
  destruct s3 as [r3|].
  - apply add_unseen_In in H. destruct H as [H|H]; [|exists r3; auto].
    destruct s2 as [r2|].
    + apply add_unseen_In in H. destruct H as [H|H]; [|exists r2; auto].
      destruct s1 as [r1|]; [|destruct H].
      apply add_songs_In in H. destruct H as [[]|H]. exists r1; auto.
    + destruct s1 as [r1|]; [|destruct H].
      apply add_songs_In in H. destruct H as [[]|H]. exists r1; auto.
  - destruct s2 as [r2|].
    + apply add_unseen_In in H. destruct H as [H|H]; [|exists r2; auto].
      destruct s1 as [r1|]; [|destruct H].
      apply add_songs_In in H. destruct H as [[]|H]. exists r1; auto.
    + destruct s1 as [r1|]; [|destruct H].
      apply add_songs_In in H. destruct H as [[]|H]. exists r1; auto.
Qed.

(** The loops only append: the videos of a response come after those of
    the responses before it. *)
Lemma add_unseen_new results : forall acc,
  exists new,
    add_unseen acc results = acc ++ new
    /\ (forall v, In v new -> from_results results v).
Proof.
  induction results as [|r rest IH]; intros acc; simpl.
  - exists []. rewrite app_nil_r. split; [reflexivity|intros v []].
  - destruct (video_id_of r) as [i|] eqn:E; [destruct (seen acc i)|].
    + destruct (IH acc) as (new & Heq & Hnew). exists new.
      split; [exact Heq|]. auto using from_results_cons_later.
    + destruct (IH (acc ++ [make_video_info i r])) as (new & Heq & Hnew).
      exists (make_video_info i r :: new). rewrite Heq, <- app_assoc.
      split; [reflexivity|]. intros v [<-|Hv].
      * apply from_results_cons_here, E.
      * auto using from_results_cons_later.
    + destruct (IH acc) as (new & Heq & Hnew). exists new.
      split; [exact Heq|]. auto using from_results_cons_later.
Qed.

Lemma on_response_add_unseen_new resp acc :
  exists new,
    on_response add_unseen acc resp = acc ++ new
    /\ (forall v, In v new ->
          exists results, resp = Returned results /\ from_results results v).
Proof.
  destruct resp as [results|e]; simpl.
  - destruct (add_unseen_new results acc) as (new & Heq & Hnew).
    exists new. split; [exact Heq|]. intros v Hv. exists results. auto.
  - exists []. rewrite app_nil_r. split; [reflexivity|intros v []].
Qed.

(** [all_videos] holds the songs, then the videos, then the unfiltered
    results. *)
Lemma collected_order songs videos unfiltered :
  exists from_videos from_unfiltered,
    collected songs videos unfiltered
    = on_response add_songs [] songs ++ from_videos ++ from_unfiltered
    /\ (forall v, In v from_videos ->
          exists results, videos = Returned results /\ from_results results v)
    /\ (forall v, In v from_unfiltered ->
          exists results,
            unfiltered = Returned results /\ from_results results v).
Proof.
  unfold collected.
  destruct (on_response_add_unseen_new videos (on_response add_songs [] songs))
    as (n1 & -> & H1).
  destruct (on_response_add_unseen_new unfiltered
              (on_response add_songs [] songs ++ n1)) as (n2 & -> & H2).
  exists n1, n2. rewrite <- app_assoc. auto.
Qed.

Lemma collect_In (yt : YTMusic) q log v :
  In v (fst (collect yt q max_results log)) ->
  exists log' rq results,
    yt log' rq = Returned results /\ from_results results v.
Proof.
  rewrite collect_eq. cbn [fst]. intros H.
  apply collected_In in H. destruct H as (results & [H|[H|H]] & Hv); eauto.
Qed.

End EngineFacts.

(** ** The search as a whole *)

Section SearchFacts.

Variable matching : string -> string -> nat.
Variables (track_name artist_name : string) (duration_seconds max_results : Z).

Local Abbreviation pass yt q :=
  (_search_with_query matching yt q track_name artist_name duration_seconds
     max_results).
Local Abbreviation score v :=
  (score_video matching v track_name artist_name duration_seconds).
Local Abbreviation best vs :=
  (_find_best_match matching vs track_name artist_name duration_seconds).
Local Abbreviation run new_session :=
  (search matching new_session track_name artist_name duration_seconds
     max_results).

Lemma pass_floor yt q log b :
  fst (pass yt q log) = Some b -> FLOOR <= sv_score b.
Proof.
  rewrite search_with_query_eq. cbn [fst]. intros H.
  apply find_best_match_Some in H. destruct H as (v & _ & Hs & ->).
  exact Hs.
Qed.

Lemma merge_best_inv (P : scored_video -> Prop) r1 r2 b :
  (forall x, r1 = Some x -> P x) ->
  (forall x, r2 = Some x -> P x) ->
  merge_best r1 r2 = Some b -> P b.
Proof.
  intros H1 H2. destruct r2 as [b2|]; simpl; [|auto].
  destruct r1 as [b1|]; simpl.
  - destruct (sv_score b1 <? sv_score b2); intros [= <-]; auto.
  - intros [= <-]; auto.
Qed.

(** What holds of every pass result holds of the result of [search]. *)
Lemma search_inv (P : scored_video -> Prop) :
  (forall yt q log x, fst (pass yt q log) = Some x -> P x) ->
  forall new_session log b, fst (run new_session log) = Some b -> P b.
Proof.
  intros Hpass new_session log b.
  destruct new_session as [yt|e]; cbn [search]; [|discriminate].
  rewrite search_passes_eq.
  destruct (pass yt (_build_search_query track_name "") log) as [r1 l1] eqn:E1.
  destruct (pass yt (_build_search_query track_name artist_name) l1) as [r2 l2] eqn:E2.
  destruct (pass yt (_build_search_query artist_name track_name) l2) as [r3 l3] eqn:E3.
  assert (H1 : forall x, r1 = Some x -> P x)
    by (intros x ->; eapply Hpass; rewrite E1; reflexivity).
  assert (H2 : forall x, r2 = Some x -> P x)
    by (intros x ->; eapply Hpass; rewrite E2; reflexivity).
  assert (H3 : forall x, r3 = Some x -> P x)
    by (intros x ->; eapply Hpass; rewrite E3; reflexivity).
  destruct (high_confidence r1); cbn [fst]; [auto|].
  destruct (high_confidence r2); cbn [fst]; [auto|].
  apply merge_best_inv; [|exact H3].
  intros x. apply merge_best_inv; assumption.
Qed.

Lemma search_floor new_session log b :
  fst (run new_session log) = Some b -> FLOOR <= sv_score b.
Proof. apply (search_inv (fun b => FLOOR <= sv_score b)), pass_floor. Qed.

Lemma pass_below_floor yt q log :
  (forall v, In v (pass_candidates yt q max_results log) -> score v < FLOOR) ->
  pass yt q log = (None, log ++ pass_requests q max_results).
Proof.
  intros Hall. rewrite search_with_query_eq. f_equal.
  apply find_best_match_None. exact Hall.
Qed.

(** Without a candidate at the floor in any of its three passes, [search]
    returns nothing after its nine requests. *)
Lemma search_below_floor yt log :
  (forall v,
      In v (search_candidates yt track_name artist_name max_results log) ->
      score v < FLOOR) ->
  run (Returned yt) log =
  (None, log ++ pass_requests (_build_search_query track_name "") max_results
             ++ pass_requests (_build_search_query track_name artist_name) max_results
             ++ pass_requests (_build_search_query artist_name track_name) max_results).
Proof.
  unfold search_candidates. cbv zeta. intros Hall.
  cbn [search]. rewrite search_passes_eq.
  rewrite pass_below_floor
    by (intros v Hv; apply Hall, in_or_app; left; exact Hv).
  cbn [high_confidence merge_best].
  rewrite pass_below_floor
    by (intros v Hv; apply Hall, in_or_app; right;
        apply in_or_app; left; exact Hv).
  cbn [high_confidence merge_best].
  rewrite pass_below_floor
    by (intros v Hv; apply Hall, in_or_app; right;
        apply in_or_app; right; exact Hv).
  cbn [high_confidence merge_best].
  rewrite <- !app_assoc. reflexivity.
Qed.

Lemma collected_nothing songs videos unfiltered :
  answered_with_nothing songs -> answered_with_nothing videos ->
  answered_with_nothing unfiltered ->
  collected songs videos unfiltered = [].
Proof.
  unfold collected, answered_with_nothing.
  destruct songs, videos, unfiltered; intros; subst; reflexivity.
Qed.

Lemma pass_candidates_nothing yt q log :
  Forall answered_with_nothing (pass_responses yt q max_results log) ->
  pass_candidates yt q max_results log = [].
Proof.
  unfold pass_candidates, pass_responses. rewrite collect_eq. cbn [fst].
  intros H. apply Forall_cons in H. destruct H as [H1 H].
  apply Forall_cons in H. destruct H as [H2 H].
  apply Forall_cons in H. destruct H as [H3 _].
  apply collected_nothing; assumption.
Qed.

(** Where the nine requests are answered with nothing, the passes have
    no candidate. *)
Lemma search_candidates_nothing yt log :
  Forall answered_with_nothing
    (search_responses yt track_name artist_name max_results log) ->
  search_candidates yt track_name artist_name max_results log = [].
Proof.
  unfold search_responses, search_candidates. cbv zeta. intros H.
  apply Forall_app in H. destruct H as [H1 H].
  apply Forall_app in H. destruct H as [H2 H3].
  rewrite !pass_candidates_nothing by assumption. reflexivity.
Qed.

(** C1. A candidate is returned only with a total score of at least 100:
    what [_find_best_match] returns has reached the floor, the candidates
    below it have no influence on the result whatever they score, a lone
    candidate scoring exactly 100 is returned and one scoring 99 or less
    is not, [search] returns nothing below the floor, and it returns
    [None] when no candidate of any of its three passes reaches 100. *)
Theorem acceptance_floor (new_session : outcome YTMusic) (log : list request) :
  (forall videos b, best videos = Some b -> 100 <= sv_score b)
  /\ (forall videos,
        best videos
        = best (eligible matching videos track_name artist_name duration_seconds))
  /\ (forall video,
        score video = 100 -> best [video] = Some (scored_entry video 100))
  /\ (forall video, score video <= 99 -> best [video] = None)
  /\ (forall b, fst (run new_session log) = Some b -> 100 <= sv_score b)
  /\ (forall ytmusic,
        new_session = Returned ytmusic ->
        (forall v,
            In v (search_candidates ytmusic track_name artist_name
                    max_results log) ->
            score v < 100) ->
        fst (run new_session log) = None).
Proof.
  repeat split.
  - intros videos b H. apply find_best_match_Some in H.
    destruct H as (v & _ & Hs & ->). exact Hs.
  - intros videos. unfold _find_best_match.
    rewrite !scored_videos_eligible, eligible_idem. reflexivity.
  - intros video H. unfold _find_best_match. simpl. rewrite H. reflexivity.
  - intros video H. apply find_best_match_None.
    intros v [<-|[]]. lia.
  - intros b. apply search_floor.
  - intros yt -> Hall. rewrite search_below_floor by exact Hall. reflexivity.
Qed.

Lemma pass_log yt q log :
  snd (pass yt q log) = log ++ pass_requests q max_results.
Proof. rewrite search_with_query_eq. reflexivity. Qed.

Lemma merge_best_keep b b' :
  sv_score b' <= sv_score b -> merge_best (Some b) (Some b') = Some b.
Proof.
  intros H. simpl. destruct (Z.ltb_spec (sv_score b) (sv_score b')); [lia|reflexivity].
Qed.

Lemma merge_best_replace b b' :
  sv_score b < sv_score b' -> merge_best (Some b) (Some b') = Some b'.
Proof.
  intros H. simpl. destruct (Z.ltb_spec (sv_score b) (sv_score b')); [reflexivity|lia].
Qed.

Lemma high_confidence_true b :
  180 <= sv_score b -> high_confidence (Some b) = true.
Proof. intros H. apply Z.leb_le. exact H. Qed.

Lemma high_confidence_false b :
  sv_score b < 180 -> high_confidence (Some b) = false.
Proof. intros H. apply Z.leb_gt. exact H. Qed.

(** The three outcomes of [search] once the session exists. *)
Lemma search_cases yt log :
  let q1 := _build_search_query track_name "" in
  let q2 := _build_search_query track_name artist_name in
  let q3 := _build_search_query artist_name track_name in
  let l1 := log ++ pass_requests q1 max_results in
  let l2 := l1 ++ pass_requests q2 max_results in
  let l3 := l2 ++ pass_requests q3 max_results in
  let r1 := fst (pass yt q1 log) in
  let r2 := fst (pass yt q2 l1) in
  let r3 := fst (pass yt q3 l2) in
  run (Returned yt) log =
  if high_confidence r1 then (r1, l1)
  else if high_confidence r2 then (r2, l2)
  else (merge_best (merge_best r1 r2) r3, l3).
Proof.
  intros q1 q2 q3 l1 l2 l3 r1 r2 r3. cbn [search]. rewrite search_passes_eq.
  fold q1 q2 q3.
  rewrite (surjective_pairing (pass yt q1 log)), pass_log. fold r1 l1.
  destruct (high_confidence r1); [reflexivity|].
  rewrite (surjective_pairing (pass yt q2 l1)), pass_log. fold r2 l2.
  destruct (high_confidence r2); [reflexivity|].
  rewrite (surjective_pairing (pass yt q3 l2)), pass_log. reflexivity.
Qed.

(** C2. A pass 1 or pass 2 best of at least 180 is returned at once and
    no later pass issues a request; a best of exactly 179 does not stop
    the search; pass 3 never stops it, and its best replaces the running
    best only when it is strictly greater. *)
Theorem high_confidence_stops_search (ytmusic : YTMusic) (log : list request) :
  let q1 := _build_search_query track_name "" in
  let q2 := _build_search_query track_name artist_name in
  let q3 := _build_search_query artist_name track_name in
  let l1 := log ++ pass_requests q1 max_results in
  let l2 := l1 ++ pass_requests q2 max_results in
  let l3 := l2 ++ pass_requests q3 max_results in
  let r1 := fst (pass ytmusic q1 log) in
  let r2 := fst (pass ytmusic q2 l1) in
  let r3 := fst (pass ytmusic q3 l2) in
  let result := run (Returned ytmusic) log in
  (forall b, r1 = Some b -> 180 <= sv_score b -> result = (Some b, l1))
  /\ (forall b, high_confidence r1 = false ->
        r2 = Some b -> 180 <= sv_score b -> result = (Some b, l2))
  /\ (forall b, r1 = Some b -> sv_score b = 179 ->
        exists rest, snd result = l2 ++ rest)
  /\ (forall b, high_confidence r1 = false ->
        r2 = Some b -> sv_score b = 179 -> snd result = l3)
  /\ (high_confidence r1 = false -> high_confidence r2 = false ->
        result = (merge_best (merge_best r1 r2) r3, l3))
  /\ (forall prior b3,
        merge_best prior (Some b3)
        = match prior with
          | Some b => if sv_score b <? sv_score b3 then Some b3 else Some b
          | None => Some b3
          end).
Proof.
  intros q1 q2 q3 l1 l2 l3 r1 r2 r3 result.
  pose proof (search_cases ytmusic log) as Hrun. cbv zeta in Hrun.
  fold q1 q2 q3 l1 l2 l3 r1 r2 r3 result in Hrun.
  split; [|split; [|split; [|split; [|split; [|intros [b|] b3; reflexivity]]]]].
  - intros b Hb Hs. rewrite Hrun, Hb, high_confidence_true by exact Hs.
    reflexivity.
  - intros b H1 Hb Hs. rewrite Hrun, H1, Hb, high_confidence_true by exact Hs.
    reflexivity.
  - intros b Hb Hs. rewrite Hrun, Hb, high_confidence_false by lia.
    destruct (high_confidence r2); cbn [snd].
    + exists []. rewrite app_nil_r. reflexivity.
    + exists (pass_requests q3 max_results). reflexivity.
  - intros b H1 Hb Hs. rewrite Hrun, H1, Hb, high_confidence_false by lia.
    reflexivity.
  - intros H1 H2. rewrite Hrun, H1, H2. reflexivity.
Qed.

End SearchFacts.

Import Samples.

Lemma live_99_below_floor v :
  In v (search_candidates (always [live_99]) track performer 10 []) ->
  score_video Difflib.matching v track performer seconds < 100.
Proof.
  assert (H : forallb
            (fun v => score_video Difflib.matching v track performer seconds
                      <? 100)
            (search_candidates (always [live_99]) track performer 10 [])
          = true) by (vm_compute; reflexivity).
  rewrite forallb_forall in H. intros Hv. apply Z.ltb_lt, H, Hv.
Qed.

Lemma acceptance_floor_witness :
  _find_best_match Difflib.matching [video_of live_100] track performer seconds
  = Some (scored_entry (video_of live_100) 100)
  /\ _find_best_match Difflib.matching [video_of live_99] track performer seconds
     = None
  /\ fst (search Difflib.matching (Returned (always [live_99]))
            track performer seconds 10 []) = None.
Proof.
  pose proof (acceptance_floor Difflib.matching track performer seconds 10
                (Returned (always [live_99])) []) as (_ & _ & H100 & H99 & _ & Hnone).
  split; [|split].
  - apply H100. vm_compute. reflexivity.
  - apply H99. vm_compute. discriminate.
  - apply (Hnone (always [live_99])); [reflexivity|exact live_99_below_floor].
Defined.

Lemma high_confidence_stops_search_witness :
  search Difflib.matching (Returned (by_query (per_pass [video_165; official_190] [] [])))
    track performer seconds 10 []
  = (Some (scored_entry (video_of official_190) 190),
     pass_requests "Mr. Brightside" 10)
  /\ search Difflib.matching
       (Returned (by_query (per_pass [video_165] [official_180] [official_190])))
       track performer seconds 10 []
     = (Some (scored_entry (video_of official_180) 180),
        pass_requests "Mr. Brightside" 10
        ++ pass_requests "Mr. Brightside The Killers" 10)
  /\ exists rest,
       snd (search Difflib.matching (Returned (always [shuffled_179]))
              track' performer' seconds' 10 [])
       = (pass_requests "Never Gonna Give You Up" 10
          ++ pass_requests "Never Gonna Give You Up Rick Astley" 10) ++ rest.
Proof.
  split; [|split].
  - apply (high_confidence_stops_search Difflib.matching track performer seconds 10
             (by_query (per_pass [video_165; official_190] [] [])) []).
    + vm_compute. reflexivity.
    + vm_compute. discriminate.
  - apply (high_confidence_stops_search Difflib.matching track performer seconds 10
             (by_query (per_pass [video_165] [official_180] [official_190])) []).
    + vm_compute. reflexivity.
    + vm_compute. reflexivity.
    + vm_compute. discriminate.
  - pose proof (high_confidence_stops_search Difflib.matching track' performer'
                  seconds' 10 (always [shuffled_179]) []) as (_ & _ & H179 & _).
    apply (H179 (scored_entry (video_of shuffled_179) 179)).
    + vm_compute. reflexivity.
    + reflexivity.
Defined.

(** ** Ties, failures and view counts *)

Section OutcomeFacts.

Variable matching : string -> string -> nat.
Variables (track_name artist_name : string) (duration_seconds max_results : Z).

Local Abbreviation pass yt q :=
  (_search_with_query matching yt q track_name artist_name duration_seconds
     max_results).
Local Abbreviation score v :=
  (score_video matching v track_name artist_name duration_seconds).
Local Abbreviation best vs :=
  (_find_best_match matching vs track_name artist_name duration_seconds).
Local Abbreviation run new_session :=
  (search matching new_session track_name artist_name duration_seconds
     max_results).
Local Abbreviation keep vs :=
  (eligible matching vs track_name artist_name duration_seconds).

Lemma find_best_match_first vs b :
  best vs = Some b ->
  exists l1 v l2,
    keep vs = l1 ++ v :: l2
    /\ b = scored_entry v (score v)
    /\ (forall x, In x l1 -> score x < score v)
    /\ (forall x, In x l2 -> score x <= score v).
Proof.
  unfold _find_best_match. rewrite scored_videos_eligible.
  destruct (map _ (keep vs)) as [|x r] eqn:E; [discriminate|].
  intros [= <-].
  destruct (max_by_score_first x r) as (l1' & l2' & Heq & H1 & H2).
  rewrite <- E in Heq.
  apply map_eq_app in Heq. destruct Heq as (l1 & t & Hk & Hl1 & Ht).
  apply map_eq_cons in Ht. destruct Ht as (v & l2 & -> & Hv & Hl2).
  exists l1, v, l2. split; [exact Hk|]. split; [symmetry; exact Hv|].
  rewrite <- Hv in H1, H2. simpl in H1, H2. split.
  - intros y Hy. apply (H1 (scored_entry y (score y))).
    rewrite <- Hl1. apply (in_map (fun v => scored_entry v (score v))), Hy.
  - intros y Hy. apply (H2 (scored_entry y (score y))).
    rewrite <- Hl2. apply (in_map (fun v => scored_entry v (score v))), Hy.
Qed.

(** C10. Ties keep the first seen.  Within a pass the result is the
    first candidate of maximal score among the eligible ones, in the
    order songs, videos, unfiltered of the collector; across passes the
    best of a later pass replaces the running best only when it is
    strictly greater, so an equal score keeps the earlier candidate. *)
Theorem ties_keep_first_seen (ytmusic : YTMusic) (query : string)
    (log : list request) :
  (forall b,
      fst (pass ytmusic query log) = Some b ->
      exists before v after,
        keep (collected
                (ytmusic log (songs_request query max_results))
                (ytmusic (log ++ [songs_request query max_results])
                   (videos_request query max_results))
                (ytmusic (log ++ [songs_request query max_results;
                                  videos_request query max_results])
                   (plain_request query max_results)))
        = before ++ v :: after
        /\ b = scored_entry v (score v)
        /\ (forall x, In x before -> score x < score v)
        /\ (forall x, In x after -> score x <= score v))
  /\ (forall songs videos unfiltered,
        exists from_videos from_unfiltered,
          collected songs videos unfiltered
          = on_response add_songs [] songs ++ from_videos ++ from_unfiltered
          /\ (forall v, In v from_videos ->
                exists results,
                  videos = Returned results /\ from_results results v)
          /\ (forall v, In v from_unfiltered ->
                exists results,
                  unfiltered = Returned results /\ from_results results v))
  /\ (forall b b',
        sv_score b' <= sv_score b -> merge_best (Some b) (Some b') = Some b)
  /\ (forall b b',
        sv_score b < sv_score b' -> merge_best (Some b) (Some b') = Some b')
  /\ (let q1 := _build_search_query track_name "" in
      let q2 := _build_search_query track_name artist_name in
      let q3 := _build_search_query artist_name track_name in
      let l1 := log ++ pass_requests q1 max_results in
      let l2 := l1 ++ pass_requests q2 max_results in
      let r1 := fst (pass ytmusic q1 log) in
      let r2 := fst (pass ytmusic q2 l1) in
      let r3 := fst (pass ytmusic q3 l2) in
      high_confidence r1 = false -> high_confidence r2 = false ->
      fst (run (Returned ytmusic) log) = merge_best (merge_best r1 r2) r3).
Proof.
  split; [|split; [|split; [|split]]].
  - intros b. rewrite search_with_query_eq, collect_eq. cbn [fst].
    apply find_best_match_first.
  - apply collected_order.
  - intros b b'. apply merge_best_keep.
  - intros b b'. apply merge_best_replace.
  - intros q1 q2 q3 l1 l2 r1 r2 r3 H1 H2.
    pose proof (search_cases matching track_name artist_name duration_seconds
                  max_results ytmusic log) as Hrun.
    cbv zeta in Hrun. fold q1 q2 q3 l1 l2 r1 r2 r3 in Hrun.
    rewrite Hrun, H1, H2. reflexivity.
Qed.

(** C9. When every candidate of its three passes scores below 100, or
    each of its nine requests is answered with nothing, [search] returns
    [None] after the nine requests; a session that cannot be created also
    gives [None]; the result type has no exception.  A filter whose call
    raises adds no candidate, and the two other filters and the later
    passes are still requested. *)
Theorem no_match_is_absent (new_session : outcome YTMusic) (log : list request) :
  let all_requests :=
    pass_requests (_build_search_query track_name "") max_results
    ++ pass_requests (_build_search_query track_name artist_name) max_results
    ++ pass_requests (_build_search_query artist_name track_name) max_results in
  (forall ytmusic,
      new_session = Returned ytmusic ->
      (forall v,
          In v (search_candidates ytmusic track_name artist_name
                  max_results log) ->
          score v < 100) ->
      run new_session log = (None, log ++ all_requests))
  /\ (forall ytmusic,
        new_session = Returned ytmusic ->
        Forall answered_with_nothing
          (search_responses ytmusic track_name artist_name max_results log) ->
        run new_session log = (None, log ++ all_requests))
  /\ (forall e, new_session = Raised e -> run new_session log = (None, log))
  /\ (forall e videos unfiltered,
        collected (Raised e) videos unfiltered
        = collected (Returned []) videos unfiltered)
  /\ (forall e songs unfiltered,
        collected songs (Raised e) unfiltered
        = collected songs (Returned []) unfiltered)
  /\ (forall e songs videos,
        collected songs videos (Raised e)
        = collected songs videos (Returned []))
  /\ (forall ytmusic query,
        snd (collect ytmusic query max_results log)
        = log ++ pass_requests query max_results)
  /\ (forall ytmusic,
        new_session = Returned ytmusic ->
        high_confidence (fst (run new_session log)) = false ->
        snd (run new_session log) = log ++ all_requests).
Proof.
  intros all_requests. repeat apply conj.
  - intros yt -> Hall. apply search_below_floor, Hall.
  - intros yt -> Hn. apply search_below_floor.
    rewrite (search_candidates_nothing _ _ _ yt log Hn). intros v [].
  - intros e ->. reflexivity.
  - reflexivity.
  - reflexivity.
  - reflexivity.
  - intros yt q. rewrite collect_eq. reflexivity.
  - intros yt -> Hlow.
    pose proof (search_cases matching track_name artist_name duration_seconds
                  max_results yt log) as Hrun.
    cbv zeta in Hrun. rewrite Hrun in Hlow |- *.
    destruct (high_confidence (fst (pass yt (_build_search_query track_name "") log)))
      eqn:E1; cbn [fst snd] in *; [congruence|].
    destruct (high_confidence
                (fst (pass yt (_build_search_query track_name artist_name)
                        (log ++ pass_requests (_build_search_query track_name "")
                                  max_results))))
      eqn:E2; cbn [fst snd] in *; [congruence|].
    unfold all_requests. rewrite <- !app_assoc. reflexivity.
Qed.

Lemma from_results_view_count results v :
  from_results results v -> vi_view_count v = 0.
Proof. intros (r & i & _ & _ & ->). reflexivity. Qed.

Lemma pass_view_count yt q log b :
  fst (pass yt q log) = Some b -> sv_view_count b = 0.
Proof.
  rewrite search_with_query_eq. cbn [fst]. intros H.
  apply find_best_match_Some in H. destruct H as (v & Hv & _ & ->).
  apply collect_In in Hv. destruct Hv as (log' & rq & results & _ & Hv).
  simpl. exact (from_results_view_count _ _ Hv).
Qed.

(** C5. Every candidate the collector builds has [view_count] 0, so the
    view criterion gives it exactly -5, the tiers from 0 upward start at
    1000 views and are never met, and every result of a pass and of
    [search] carries [view_count] 0. *)
Theorem collector_view_count_is_zero (ytmusic : YTMusic) (query : string)
    (log : list request) :
  (forall v,
      In v (fst (collect ytmusic query max_results log)) ->
      vi_view_count v = 0 /\ view_score (vi_view_count v) = -5)
  /\ (forall n, view_score n <> -5 -> 1000 <= n)
  /\ (forall v,
        In v (fst (collect ytmusic query max_results log)) ->
        view_score (vi_view_count v) <> 15
        /\ view_score (vi_view_count v) <> 10
        /\ view_score (vi_view_count v) <> 5
        /\ view_score (vi_view_count v) <> 0)
  /\ (forall b, fst (pass ytmusic query log) = Some b -> sv_view_count b = 0)
  /\ (forall new_session b,
        fst (run new_session log) = Some b -> sv_view_count b = 0).
Proof.
  assert (Hzero : forall v, In v (fst (collect ytmusic query max_results log)) ->
                            vi_view_count v = 0).
  { intros v Hv. apply collect_In in Hv.
    destruct Hv as (log' & rq & results & _ & Hv).
    exact (from_results_view_count _ _ Hv). }
  repeat apply conj.
  - intros v Hv. rewrite (Hzero v Hv). split; reflexivity.
  - intros n. unfold view_score.
    destruct (Z.leb_spec 1000000 n); [lia|].
    destruct (Z.leb_spec 100000 n); [lia|].
    destruct (Z.leb_spec 10000 n); [lia|].
    destruct (Z.leb_spec 1000 n); [lia|]. congruence.
  - intros v Hv. rewrite (Hzero v Hv). repeat split; discriminate.
  - intros b. apply pass_view_count.
  - intros new_session b.
    apply (search_inv matching track_name artist_name duration_seconds
             max_results (fun b => sv_view_count b = 0)).
    intros yt q l x. apply pass_view_count.
Qed.

End OutcomeFacts.


Lemma ties_keep_first_seen_witness :
  (exists before v after,
      eligible Difflib.matching
        (collected (Returned [twin_a; twin_b]) (Returned [twin_a; twin_b])
                   (Returned [twin_a; twin_b]))
        track performer seconds
      = before ++ v :: after
      /\ scored_entry (video_of twin_a) 165
         = scored_entry v (score_video Difflib.matching v track performer seconds)
      /\ (forall x, In x before ->
            score_video Difflib.matching x track performer seconds
            < score_video Difflib.matching v track performer seconds)
      /\ (forall x, In x after ->
            score_video Difflib.matching x track performer seconds
            <= score_video Difflib.matching v track performer seconds))
  /\ merge_best (Some (scored_entry (video_of twin_a) 165))
                (Some (scored_entry (video_of twin_b) 165))
     = Some (scored_entry (video_of twin_a) 165)
  /\ fst (search Difflib.matching
            (Returned (by_query (per_pass [twin_a] [twin_b] [twin_b])))
            track performer seconds 10 [])
     = Some (scored_entry (video_of twin_a) 165).
Proof.
  split; [|split].
  - apply (ties_keep_first_seen Difflib.matching track performer seconds 10
             (always [twin_a; twin_b]) "Mr. Brightside" []).
    vm_compute. reflexivity.
  - apply (ties_keep_first_seen Difflib.matching track performer seconds 10
             (always []) "" []).
    vm_compute. discriminate.
  - pose proof (ties_keep_first_seen Difflib.matching track performer seconds 10
                  (by_query (per_pass [twin_a] [twin_b] [twin_b])) "" [])
      as (_ & _ & _ & _ & H).
    rewrite H; vm_compute; reflexivity.
Defined.

Lemma no_match_is_absent_witness :
  search Difflib.matching (Returned (always [])) track performer seconds 10 []
  = (None,
     pass_requests "Mr. Brightside" 10
     ++ pass_requests "Mr. Brightside The Killers" 10
     ++ pass_requests "The Killers Mr. Brightside" 10)
  /\ search Difflib.matching (Returned unreachable) track performer seconds 10 []
     = (None,
        pass_requests "Mr. Brightside" 10
        ++ pass_requests "Mr. Brightside The Killers" 10
        ++ pass_requests "The Killers Mr. Brightside" 10)
  /\ search Difflib.matching (Returned (always [live_99])) track performer
       seconds 10 []
     = (None,
        pass_requests "Mr. Brightside" 10
        ++ pass_requests "Mr. Brightside The Killers" 10
        ++ pass_requests "The Killers Mr. Brightside" 10)
  /\ search Difflib.matching (Raised "no network") track performer seconds 10 []
     = (None, []).
Proof.
  split; [|split; [|split]].
  - pose proof (no_match_is_absent Difflib.matching track performer seconds 10
                  (Returned (always [])) []) as (_ & Hnothing & _).
    apply (Hnothing (always [])); [reflexivity|].
    repeat constructor.
  - pose proof (no_match_is_absent Difflib.matching track performer seconds 10
                  (Returned unreachable) []) as (_ & Hnothing & _).
    apply (Hnothing unreachable); [reflexivity|].
    repeat constructor.
  - pose proof (no_match_is_absent Difflib.matching track performer seconds 10
                  (Returned (always [live_99])) []) as (Hbelow & _).
    apply (Hbelow (always [live_99])); [reflexivity|].
    exact live_99_below_floor.
  - pose proof (no_match_is_absent Difflib.matching track performer seconds 10
                  (Raised "no network") []) as (_ & _ & Hraised & _).
    apply (Hraised "no network"%string). reflexivity.
Defined.

Lemma collector_view_count_is_zero_witness :
  vi_view_count (video_of video_165) = 0
  /\ view_score (vi_view_count (video_of video_165)) = -5
  /\ sv_view_count (scored_entry (video_of video_165) 165) = 0.
Proof.
  pose proof (collector_view_count_is_zero Difflib.matching track performer
                seconds 10 (always [video_165]) "Mr. Brightside" [])
    as (Hview & _ & _ & Hpass & _).
  split; [|split].
  - apply Hview. vm_compute. left. reflexivity.
  - apply Hview. vm_compute. left. reflexivity.
  - apply Hpass. vm_compute. reflexivity.
Defined.

(** ** Duplicates in the collector *)

Lemma seen_In acc video_id :
  seen acc video_id = true <-> In video_id (map vi_id acc).
Proof.
  unfold seen. rewrite existsb_exists, in_map_iff. split.
  - intros (v & Hv & He). apply String.eqb_eq in He. exists v. auto.
  - intros (v & He & Hv). exists v. split; [exact Hv|]. apply String.eqb_eq, He.
Qed.

(** The loops with the duplicate test keep the ids distinct and only
    append. *)
Lemma add_unseen_NoDup results : forall acc,
  NoDup (map vi_id acc) -> NoDup (map vi_id (add_unseen acc results)).
Proof.
  induction results as [|r rest IH]; intros acc Hacc; simpl; [exact Hacc|].
  destruct (video_id_of r) as [i|]; [|auto].
  destruct (seen acc i) eqn:E; [auto|].
  apply IH. rewrite map_app. simpl.
  apply NoDup_app. split; [exact Hacc|]. split.
  - intros x Hx [->|[]]%list_elem_of_In. apply list_elem_of_In in Hx.
    apply seen_In in Hx. congruence.
  - apply NoDup_singleton.
Qed.

Lemma add_unseen_prefix results : forall acc,
  exists new, add_unseen acc results = acc ++ new.
Proof.
  induction results as [|r rest IH]; intros acc; simpl.
  - exists []. rewrite app_nil_r. reflexivity.
  - destruct (video_id_of r) as [i|]; [|auto].
    destruct (seen acc i); [auto|].
    destruct (IH (acc ++ [make_video_info i r])) as (new & ->).
    exists (make_video_info i r :: new). rewrite <- app_assoc. reflexivity.
Qed.

(** The songs loop keeps one candidate per result that has an id. *)
Lemma add_songs_ids results : forall acc,
  map vi_id (add_songs acc results)
  = map vi_id acc ++ omap video_id_of results.
Proof.
  induction results as [|r rest IH]; intros acc; simpl.
  - rewrite app_nil_r. reflexivity.
  - destruct (video_id_of r) as [i|]; [|auto].
    rewrite IH, map_app, <- app_assoc. reflexivity.
Qed.

(** Without a repeated id among the songs, the collector returns each
    id once, songs first. *)
Lemma collected_NoDup songs videos unfiltered :
  NoDup (omap video_id_of songs) ->
  NoDup (map vi_id (collected (Returned songs) videos unfiltered))
  /\ exists later,
       collected (Returned songs) videos unfiltered = add_songs [] songs ++ later.
Proof.
  intros Hs. unfold collected. split.
  - assert (H0 : NoDup (map vi_id (add_songs [] songs)))
      by (rewrite add_songs_ids; exact Hs).
    destruct videos as [v|], unfiltered as [u|]; simpl;
      auto using add_unseen_NoDup.
  - destruct videos as [v|], unfiltered as [u|]; simpl.
    + destruct (add_unseen_prefix v (add_songs [] songs)) as (n1 & ->).
      destruct (add_unseen_prefix u (add_songs [] songs ++ n1)) as (n2 & ->).
      exists (n1 ++ n2). rewrite app_assoc. reflexivity.
    + apply add_unseen_prefix.
    + apply add_unseen_prefix.
    + exists []. rewrite app_nil_r. reflexivity.
Qed.


(** C4. The collector does not remove duplicates within the 'songs'
    filter: its loop has no duplicate test, so two songs with one id and
    different fields are both collected. *)
Theorem songs_duplicates_are_kept :
  fst (collect (songs_only [album_cut; remaster]) "Mr. Brightside" 10 [])
  = [video_of album_cut; video_of remaster]
  /\ vi_id (video_of album_cut) = vi_id (video_of remaster)
  /\ vi_title (video_of album_cut) <> vi_title (video_of remaster)
  /\ fst (collect (always [album_cut; remaster]) "Mr. Brightside" 10 [])
     = [video_of album_cut; video_of remaster].
Proof. repeat split; try reflexivity. discriminate. Qed.

(** ** The keyword penalties *)

Lemma penalty_fold title keywords : forall score,
  fold_left (fun score keyword =>
               if PyStr.contains keyword title then score - 50 else score)
            keywords score
  = score - 50 * Z.of_nat (length (List.filter
                                     (fun keyword => PyStr.contains keyword title)
                                     keywords)).
Proof.
  induction keywords as [|k ks IH]; intros score; simpl; [lia|].
  rewrite IH. destruct (PyStr.contains k title); simpl length; lia.
Qed.

Lemma keyword_penalty_hits title :
  keyword_penalty title = -50 * denylist_hits title.
Proof. unfold keyword_penalty, denylist_hits. rewrite penalty_fold. lia. Qed.

Lemma score_video_split matching video track_name artist_name expected_duration :
  score_video matching video track_name artist_name expected_duration
  = other_criteria matching video track_name artist_name expected_duration
    + keyword_penalty (PyStr.lower (vi_title video)).
Proof. reflexivity. Qed.

(** C6. The keyword penalty is 50 for every bad keyword found in the
    title: it is -50 times their number, the score is the sum of the other
    criteria and of this penalty, and of two scorings whose other criteria
    add up to the same, the one with two bad keywords is exactly 50 below
    the one with one. *)
Theorem denylist_penalty_is_additive (matching : string -> string -> nat) :
  (forall title, keyword_penalty title = -50 * denylist_hits title)
  /\ (forall video track_name artist_name expected_duration,
        score_video matching video track_name artist_name expected_duration
        = other_criteria matching video track_name artist_name expected_duration
          - 50 * denylist_hits (PyStr.lower (vi_title video)))
  /\ (forall video1 track1 artist1 duration1 video2 track2 artist2 duration2,
        other_criteria matching video1 track1 artist1 duration1
        = other_criteria matching video2 track2 artist2 duration2 ->
        denylist_hits (PyStr.lower (vi_title video1)) = 1 ->
        denylist_hits (PyStr.lower (vi_title video2)) = 2 ->
        score_video matching video2 track2 artist2 duration2
        = score_video matching video1 track1 artist1 duration1 - 50).
Proof.
  split; [exact keyword_penalty_hits|]. split.
  - intros. rewrite score_video_split, keyword_penalty_hits. lia.
  - intros v1 t1 a1 d1 v2 t2 a2 d2 Hother H1 H2.
    rewrite !score_video_split, !keyword_penalty_hits, Hother, H1, H2. lia.
Qed.

Lemma denylist_penalty_is_additive_witness :
  score_video Difflib.matching (video_of karaoke_remix) track performer seconds
  = score_video Difflib.matching (video_of karaoke) track performer seconds - 50.
Proof.
  apply denylist_penalty_is_additive; vm_compute; reflexivity.
Defined.

(** ** The similarity and the scaled criteria *)

Section SimilarityFacts.

Import PyFloat PyStr FloatFacts.

Variable matching : string -> string -> nat.
Hypothesis matching_bound :
  forall a b, (2 * matching a b <= String.length a + String.length b)%nat.

Local Abbreviation similarity := (_calculate_similarity matching).

Lemma one_le : le_dyadic one 1 0.
Proof. split; [lia|]. vm_compute. discriminate. Qed.

Lemma lit_0_8_le : le_dyadic lit_0_8 1 0.
Proof. split; [lia|]. vm_compute. discriminate. Qed.

Lemma ratio_le a b : le_dyadic (ratio matching a b) 1 0.
Proof.
  unfold ratio, Difflib._calculate_ratio, len.
  destruct (Z.eqb_spec (Z.of_nat (String.length a) + Z.of_nat (String.length b)) 0);
    [apply one_le|].
  pose proof (matching_bound a b).
  apply truediv_le; lia.
Qed.

Lemma jaccard_le (X Y : gset string) :
  0 < Z.of_nat (size (X ∪ Y)) ->
  le_dyadic (truediv (Z.of_nat (size (X ∩ Y))) (Z.of_nat (size (X ∪ Y)))) 1 0.
Proof.
  intros Hu.
  assert (Hsub : (size (X ∩ Y) <= size (X ∪ Y))%nat).
  { apply subseteq_size. intros w Hw. apply elem_of_intersection in Hw.
    apply elem_of_union. left. apply Hw. }
  apply truediv_le; lia.
Qed.

Lemma similarity_le a b : le_dyadic (similarity a b) 1 0.
Proof.
  unfold _calculate_similarity.
  destruct (String.eqb a b); [apply one_le|].
  destruct (contains a b || contains b a); [apply lit_0_8_le|].
  destruct (truthy (word_set a) && truthy (word_set b)); [|apply ratio_le].
  destruct (Z.ltb_spec 0 (Z.of_nat (size (word_set a ∪ word_set b))));
    [apply jaccard_le; assumption|apply ratio_le].
Qed.

Lemma le_dyadic_finite x Bn Bk : le_dyadic x Bn Bk -> is_finite x = true.
Proof. destruct x as [| | |[|] m e]; simpl; intros H; try contradiction; reflexivity. Qed.

Lemma title_score_range track_lower title :
  0 <= title_score matching track_lower title <= 50.
Proof.
  unfold title_score. apply to_int_le; [lia|].
  apply mul_int_50_le, similarity_le.
Qed.

Lemma artist_score_range artist_lower uploader title :
  0 <= artist_score matching artist_lower uploader title <= 30.
Proof.
  unfold artist_score, artist_similarity. apply to_int_le; [lia|].
  apply mul_int_30_le, fmax_le; apply similarity_le.
Qed.

Lemma truthy_spec (X : gset string) : truthy X = true <-> X <> ∅.
Proof. unfold truthy. apply bool_decide_eq_true. Qed.

Lemma union_size_pos (X Y : gset string) :
  X <> ∅ -> 0 < Z.of_nat (size (X ∪ Y)).
Proof.
  intros HX.
  assert (Hne : size (X ∪ Y) <> 0%nat).
  { intros H0. apply size_empty_iff in H0. apply HX.
    apply leibniz_equiv. intros w. split; [|intros Hw; inversion Hw].
    intros Hw. apply (H0 w), elem_of_union. left. exact Hw. }
  lia.
Qed.

(** C8. The similarity is a finite float between 0 and 1, given by the
    first rule that applies: equal strings give 1.0; otherwise one string
    contained in the other gives 0.8; otherwise, when both word sets are
    non-empty, the quotient of the sizes of their intersection and union;
    otherwise the sequence-matcher ratio of the lower-cased strings. *)
Theorem similarity_rules (a b : string) :
  (0 <= to_Q (similarity a b) <= 1)%Q
  /\ is_finite (similarity a b) = true
  /\ (a = b -> similarity a b = one)
  /\ (a <> b -> contains a b || contains b a = true ->
        similarity a b = lit_0_8)
  /\ (a <> b -> contains a b || contains b a = false ->
        word_set a <> ∅ -> word_set b <> ∅ ->
        similarity a b
        = truediv (Z.of_nat (size (word_set a ∩ word_set b)))
                  (Z.of_nat (size (word_set a ∪ word_set b))))
  /\ (a <> b -> contains a b || contains b a = false ->
        word_set a = ∅ \/ word_set b = ∅ ->
        similarity a b = ratio matching (lower a) (lower b))
  /\ to_Q one == 1
  /\ lit_0_8 = truediv 4 5.
Proof.
  pose proof (similarity_le a b) as Hle.
  split; [apply to_Q_range, Hle|].
  split; [apply (le_dyadic_finite _ _ _ Hle)|].
  unfold _calculate_similarity.
  split; [intros ->; rewrite String.eqb_refl; reflexivity|].
  split.
  { intros Hne Hc. apply String.eqb_neq in Hne. rewrite Hne, Hc. reflexivity. }
  split.
  { intros Hne Hc Ha Hb. apply String.eqb_neq in Hne. rewrite Hne, Hc.
    apply truthy_spec in Ha as Ha', Hb as Hb'. rewrite Ha', Hb'. cbn [andb].
    pose proof (union_size_pos (word_set a) (word_set b) Ha) as Hu.
    apply Z.ltb_lt in Hu. rewrite Hu. reflexivity. }
  split.
  { intros Hne Hc Hab. apply String.eqb_neq in Hne. rewrite Hne, Hc.
    assert (Ht : truthy (word_set a) && truthy (word_set b) = false).
    { apply andb_false_iff. unfold truthy.
      destruct Hab as [->| ->]; [left|right]; apply bool_decide_eq_false; auto. }
    rewrite Ht. reflexivity. }
  split; reflexivity.
Qed.

Lemma to_int_floor x Bn :
  le_dyadic x Bn 0 ->
  (inject_Z (to_int x) <= to_Q x < inject_Z (to_int x) + 1)%Q.
Proof.
  destruct x as [s| | |[|] m e]; simpl; intros Hx; try contradiction;
    try (split; [discriminate|reflexivity]).
  destruct Hx as [He _]. destruct e as [|p|p]; try lia.
  - rewrite Z.shiftl_0_r. unfold Qle, Qlt; simpl. lia.
  - rewrite Z.shiftr_div_pow2 by lia.
    assert (Hp : 0 < 2 ^ Z.pos p) by (apply Z.pow_pos_nonneg; lia).
    pose proof (Z.mul_div_le (Z.pos m) (2 ^ Z.pos p) Hp).
    pose proof (Z.mul_succ_div_gt (Z.pos m) (2 ^ Z.pos p) Hp).
    unfold Qle, Qlt; simpl. rewrite Pos2Z.inj_pow. lia.
Qed.

Lemma matched_words_le ws title :
  0 <= matched_words ws title <= Z.of_nat (length ws).
Proof.
  unfold matched_words.
  pose proof (List.filter_length_le (fun word => contains word title) ws). lia.
Qed.

Lemma coverage_le ws title :
  ws <> [] ->
  le_dyadic (truediv (matched_words ws title) (Z.of_nat (length ws))) 1 0.
Proof.
  intros Hne. pose proof (matched_words_le ws title).
  assert (0 < Z.of_nat (length ws)) by (destruct ws; [congruence|simpl; lia]).
  apply truediv_le; lia.
Qed.

Lemma track_match_score_low track_lower title :
  let ws := track_words track_lower in
  ws <> [] ->
  2 * matched_words ws title < Z.of_nat (length ws) ->
  Z.of_nat (length ws) < 2 ^ 53 ->
  track_match_score track_lower title = -100.
Proof.
  intros ws Hne Hlow Hsize. unfold track_match_score. fold ws.
  pose proof (matched_words_le ws title).
  rewrite truediv_lt_half by lia.
  destruct ws; [congruence|reflexivity].
Qed.

(** At half of the words and above, the criterion is not the penalty. *)
Lemma track_match_score_covered track_lower title :
  let ws := track_words track_lower in
  ws <> [] ->
  Z.of_nat (length ws) <= 2 * matched_words ws title ->
  0 <= track_match_score track_lower title <= 50.
Proof.
  intros ws Hne Hcover. unfold track_match_score. fold ws.
  pose proof (matched_words_le ws title).
  assert (0 < Z.of_nat (length ws)) by (destruct ws; [congruence|simpl; lia]).
  rewrite truediv_ge_half by lia.
  destruct ws; [congruence|].
  apply to_int_le; [lia|]. apply mul_int_50_le, coverage_le. discriminate.
Qed.

Lemma keyword_penalty_nonpos title : keyword_penalty title <= 0.
Proof. rewrite keyword_penalty_hits. unfold denylist_hits. lia. Qed.

(** C3. When the target title has words longer than two characters and
    fewer than half of them occur in the candidate title, the track word
    criterion is -100 and the total cannot exceed 70, below the floor of
    100, whatever the other criteria add; without such words the
    criterion adds nothing.  The number of words is below [2^53], as
    for every string that fits in memory. *)
Theorem low_coverage_is_disqualifying (video : video_info)
    (track_name artist_name : string) (expected_duration : Z) :
  let title := lower (vi_title video) in
  let ws := track_words (lower track_name) in
  (ws <> [] ->
   2 * matched_words ws title < Z.of_nat (length ws) ->
   Z.of_nat (length ws) < 2 ^ 53 ->
   track_match_score (lower track_name) title = -100
   /\ score_video matching video track_name artist_name expected_duration <= 70
   /\ score_video matching video track_name artist_name expected_duration < FLOOR
   /\ _find_best_match matching [video] track_name artist_name expected_duration
      = None)
  /\ (ws = [] -> track_match_score (lower track_name) title = 0).
Proof.
  intros title ws. split.
  - intros Hne Hlow Hsize.
    pose proof (track_match_score_low (lower track_name) title Hne Hlow Hsize)
      as Htrack.
    assert (Hscore : score_video matching video track_name artist_name
                       expected_duration <= 70).
    { unfold score_video. fold title. rewrite Htrack.
      pose proof (title_score_range (lower track_name) title).
      pose proof (artist_score_range (lower artist_name)
                    (lower (vi_uploader video)) title).
      pose proof (keyword_penalty_nonpos title).
      assert (artist_presence_score (lower artist_name) title
                (lower (vi_uploader video)) <= 20)
        by (unfold artist_presence_score; destruct (_ || _); lia).
      assert (duration_score (vi_duration video) expected_duration <= 30).
      { unfold duration_score. destruct (_ && _); [|lia].
        repeat (destruct (_ <=? _); [lia|]). lia. }
      assert (view_score (vi_view_count video) <= 15).
      { unfold view_score. repeat (destruct (_ <=? _); [lia|]). lia. }
      assert (good_word_score title <= 15)
        by (unfold good_word_score; destruct (existsb _ _); lia).
      assert (official_score title <= 10)
        by (unfold official_score; destruct (_ && _); lia).
      lia. }
    split; [exact Htrack|]. split; [exact Hscore|].
    split; [unfold FLOOR; lia|].
    apply find_best_match_None. intros v [<-|[]]. lia.
  - intros Hnil. unfold track_match_score. fold ws. rewrite Hnil. reflexivity.
Qed.

(** C7, as the code has it.  The scaled criteria are the float products
    cut to an integer by [int()], not rounded: each is the integer part
    of its product, at most the product and more than the product
    minus one.  The track word criterion is the cut product when at least
    half of the words occur in the title. *)
Theorem scaled_deltas_are_truncated
    (track_lower title artist_lower uploader : string) :
  let ws := track_words track_lower in
  let f := truediv (matched_words ws title) (Z.of_nat (length ws)) in
  let sim_title := similarity track_lower title in
  let sim_artist :=
    fmax (similarity artist_lower uploader) (similarity artist_lower title) in
  (ws <> [] -> Z.of_nat (length ws) <= 2 * matched_words ws title ->
   track_match_score track_lower title = to_int (mul_int f 50)
   /\ (inject_Z (track_match_score track_lower title) <= to_Q (mul_int f 50)
       < inject_Z (track_match_score track_lower title) + 1)%Q)
  /\ title_score matching track_lower title = to_int (mul_int sim_title 50)
  /\ (inject_Z (title_score matching track_lower title)
      <= to_Q (mul_int sim_title 50)
      < inject_Z (title_score matching track_lower title) + 1)%Q
  /\ artist_score matching artist_lower uploader title
     = to_int (mul_int sim_artist 30)
  /\ (inject_Z (artist_score matching artist_lower uploader title)
      <= to_Q (mul_int sim_artist 30)
      < inject_Z (artist_score matching artist_lower uploader title) + 1)%Q.
Proof.
  intros ws f sim_title sim_artist. split; [|split; [|split; [|split]]].
  - intros Hne Hcover.
    assert (Hhalf : ltb f half = false).
    { pose proof (matched_words_le ws title).
      apply truediv_ge_half; [destruct ws; [congruence|simpl; lia]|lia|lia]. }
    assert (Heq : track_match_score track_lower title = to_int (mul_int f 50)).
    { unfold track_match_score. fold ws. fold f. rewrite Hhalf.
      destruct ws; [congruence|reflexivity]. }
    split; [exact Heq|]. rewrite Heq.
    apply (to_int_floor _ 50), mul_int_50_le, coverage_le, Hne.
  - reflexivity.
  - apply (to_int_floor _ 50), mul_int_50_le, similarity_le.
  - reflexivity.
  - apply (to_int_floor _ 30), mul_int_30_le, fmax_le; apply similarity_le.
Qed.

End SimilarityFacts.

(** ** The block matching *)

Module DifflibFacts.

Import Difflib.
Local Open Scope nat_scope.

Lemma common_prefix_le a : forall b,
  common_prefix a b <= length a /\ common_prefix a b <= length b.
Proof.
  induction a as [|x a IH]; intros [|y b]; simpl; try lia.
  destruct (Ascii.eqb x y); [|lia]. specialize (IH b). lia.
Qed.

(** A block found by a scan lies inside both sequences. *)
Lemma scan_b_inside a b : forall j best,
  snd best <= length a ->
  fst best + snd best <= j + length b ->
  snd (scan_b a b j best) <= length a
  /\ fst (scan_b a b j best) + snd (scan_b a b j best) <= j + length b.
Proof.
  induction b as [|y b IH]; intros j best Ha Hb; simpl in *; [lia|].
  pose proof (common_prefix_le a (y :: b)) as [Hk1 Hk2]. simpl in Hk2.
  specialize (IH (S j)
                (if snd best <? common_prefix a (y :: b)
                 then (j, common_prefix a (y :: b)) else best)).
  destruct (snd best <? common_prefix a (y :: b)); simpl in IH;
    destruct IH as [H1 H2]; lia.
Qed.

Lemma scan_a_inside b a : forall i best,
  fst (fst best) + snd best <= i + length a ->
  snd (fst best) + snd best <= length b ->
  fst (fst (scan_a a b i best)) + snd (scan_a a b i best) <= i + length a
  /\ snd (fst (scan_a a b i best)) + snd (scan_a a b i best) <= length b.
Proof.
  induction a as [|x a IH]; intros i best Ha Hb; simpl in *; [lia|].
  pose proof (scan_b_inside (x :: a) b 0 (0, 0)) as Hs. simpl in Hs.
  destruct (scan_b (x :: a) b 0 (0, 0)) as [j k]. simpl in Hs.
  destruct Hs as [Hk Hj]; try lia.
  specialize (IH (S i) (if snd best <? k then (i, j, k) else best)).
  destruct (snd best <? k); simpl in IH; destruct IH as [H1 H2]; lia.
Qed.

Lemma find_longest_match_inside a b i j k :
  find_longest_match a b = (i, j, k) ->
  i + k <= length a /\ j + k <= length b.
Proof.
  unfold find_longest_match. intros H.
  pose proof (scan_a_inside b a 0 (0, 0, 0)) as Hs. simpl in Hs.
  rewrite H in Hs. simpl in Hs. apply Hs; lia.
Qed.

Lemma matching_blocks_le fuel : forall a b,
  matching_blocks fuel a b <= length a /\ matching_blocks fuel a b <= length b.
Proof.
  induction fuel as [|fuel IH]; intros a b; simpl; [lia|].
  destruct (find_longest_match a b) as [[i j] k] eqn:E.
  apply find_longest_match_inside in E. destruct E as [Hi Hj].
  destruct k as [|k]; [lia|].
  pose proof (IH (firstn i a) (firstn j b)) as [L1 L2].
  pose proof (IH (skipn (i + S k) a) (skipn (j + S k) b)) as [R1 R2].
  rewrite length_firstn in L1, L2. rewrite length_skipn in R1, R2. lia.
Qed.

Lemma length_list_ascii_of_string s :
  length (list_ascii_of_string s) = String.length s.
Proof. induction s as [|c s IH]; simpl; [reflexivity|]. rewrite IH. reflexivity. Qed.

(** The matching blocks are disjoint in both strings. *)
Lemma matching_bound a b :
  2 * matching a b <= String.length a + String.length b.
Proof.
  unfold matching.
  pose proof (matching_blocks_le (S (String.length a))
                (list_ascii_of_string a) (list_ascii_of_string b)) as [H1 H2].
  rewrite length_list_ascii_of_string in H1, H2. lia.
Qed.

End DifflibFacts.

(** ** The scaled criteria on the sample inputs *)

Lemma similarity_rules_witness :
  (0 <= PyFloat.to_Q (_calculate_similarity Difflib.matching
                        "mr. brightside" "mr. sandman") <= 1)%Q
  /\ _calculate_similarity Difflib.matching "mr. brightside" "mr. sandman"
     = PyFloat.truediv 1 3
  /\ _calculate_similarity Difflib.matching "the killers" "the killers"
     = PyFloat.one
  /\ _calculate_similarity Difflib.matching "mr. brightside"
       "the killers - mr. brightside"
     = PyFloat.lit_0_8
  /\ _calculate_similarity Difflib.matching " " "brightside"
     = ratio Difflib.matching " " "brightside".
Proof.
  split; [|split; [|split; [|split]]].
  - apply (similarity_rules Difflib.matching DifflibFacts.matching_bound).
  - pose proof (similarity_rules Difflib.matching DifflibFacts.matching_bound
                  "mr. brightside" "mr. sandman") as (_ & _ & _ & _ & H & _).
    rewrite H.
    + vm_compute. reflexivity.
    + discriminate.
    + vm_compute. reflexivity.
    + apply (bool_decide_eq_true_1 _). vm_compute. reflexivity.
    + apply (bool_decide_eq_true_1 _). vm_compute. reflexivity.
  - pose proof (similarity_rules Difflib.matching DifflibFacts.matching_bound
                  "the killers" "the killers") as (_ & _ & H & _).
    apply H. reflexivity.
  - pose proof (similarity_rules Difflib.matching DifflibFacts.matching_bound
                  "mr. brightside" "the killers - mr. brightside")
      as (_ & _ & _ & H & _).
    apply H; [discriminate|vm_compute; reflexivity].
  - pose proof (similarity_rules Difflib.matching DifflibFacts.matching_bound
                  " " "brightside") as (_ & _ & _ & _ & _ & H & _).
    apply H; [discriminate|vm_compute; reflexivity|].
    left. apply (bool_decide_eq_true_1 _). vm_compute. reflexivity.
Defined.

Lemma low_coverage_is_disqualifying_witness :
  track_match_score (PyStr.lower boulevard)
    (PyStr.lower (vi_title (video_of broken))) = -100
  /\ score_video Difflib.matching (video_of broken) boulevard green_day 262 <= 70
  /\ score_video Difflib.matching (video_of broken) boulevard green_day 262 < FLOOR
  /\ _find_best_match Difflib.matching [video_of broken] boulevard green_day 262
     = None.
Proof.
  apply (low_coverage_is_disqualifying Difflib.matching DifflibFacts.matching_bound
           (video_of broken) boulevard green_day 262).
  - vm_compute. discriminate.
  - vm_compute. reflexivity.
  - vm_compute. reflexivity.
Defined.

(** The scaled criteria of three sample inputs, and what rounding their
    products would give. *)
Example scaled_deltas_samples :
  title_score Difflib.matching "mr. brightside" "mr. sandman" = 16
  /\ PyFloat.round_half_even
       (PyFloat.mul_int
          (_calculate_similarity Difflib.matching "mr. brightside" "mr. sandman")
          50) = 17
  /\ track_match_score dust_track dust_title = 41
  /\ PyFloat.round_half_even
       (PyFloat.mul_int
          (PyFloat.truediv (matched_words (track_words dust_track) dust_title)
             (Z.of_nat (length (track_words dust_track))))
          50) = 42
  /\ artist_score Difflib.matching simon simon_uploader "mrs. robinson" = 8
  /\ PyFloat.round_half_even
       (PyFloat.mul_int
          (artist_similarity Difflib.matching simon simon_uploader "mrs. robinson")
          30) = 9.
Proof. vm_compute. repeat split; reflexivity. Qed.

(** C7, as stated, fails on these inputs: none of the three criteria is
    the rounded product.  The code cuts 16.67 to 16, 41.67 to 41 and 8.57
    to 8, where rounding gives 17, 42 and 9. *)
Lemma rounded_deltas_counterexample :
  title_score Difflib.matching "mr. brightside" "mr. sandman"
  <> PyFloat.round_half_even
       (PyFloat.mul_int
          (_calculate_similarity Difflib.matching "mr. brightside" "mr. sandman")
          50)
  /\ track_match_score dust_track dust_title
     <> PyFloat.round_half_even
          (PyFloat.mul_int
             (PyFloat.truediv (matched_words (track_words dust_track) dust_title)
                (Z.of_nat (length (track_words dust_track))))
             50)
  /\ artist_score Difflib.matching simon simon_uploader "mrs. robinson"
     <> PyFloat.round_half_even
          (PyFloat.mul_int
             (artist_similarity Difflib.matching simon simon_uploader
                "mrs. robinson")
             30).
Proof. vm_compute. repeat split; discriminate. Qed.

Lemma scaled_deltas_are_truncated_witness :
  track_match_score dust_track dust_title = 41
  /\ (inject_Z 41
      <= PyFloat.to_Q
           (PyFloat.mul_int
              (PyFloat.truediv (matched_words (track_words dust_track) dust_title)
                 (Z.of_nat (length (track_words dust_track))))
              50)
      < inject_Z 41 + 1)%Q.
Proof.
  pose proof (scaled_deltas_are_truncated Difflib.matching
                DifflibFacts.matching_bound dust_track dust_title simon
                simon_uploader) as (H & _).
  destruct H as [Heq Hfloor].
  - vm_compute. discriminate.
  - vm_compute. discriminate.
  - split; [exact Heq|]. rewrite Heq in Hfloor. exact Hfloor.
Defined.

(** ** The scenarios of the specification on the model *)

(** Scenario A: with 500,000,000 views the music video scores 185; as the
    collector builds it, with [view_count] 0, it scores 165. *)
Example scenario_A_score :
  score_video Difflib.matching
    {| vi_id := "video165";
       vi_title := "The Killers - Mr. Brightside (Official Music Video)";
       vi_duration := 222;
       vi_uploader := "The Killers";
       vi_view_count := 500000000;
       vi_url := "https://music.youtube.com/watch?v=video165";
       vi_webpage_url := "https://music.youtube.com/watch?v=video165" |}
    track performer seconds = 185
  /\ score_video Difflib.matching (video_of video_165) track performer seconds
     = 165.
Proof. vm_compute. split; reflexivity. Qed.

(** Scenario B: the karaoke version scores 55 and is rejected. *)
Example scenario_B_score :
  score_video Difflib.matching (video_of karaoke) track performer seconds = 55
  /\ _find_best_match Difflib.matching [video_of karaoke] track performer seconds
     = None.
Proof. vm_compute. split; reflexivity. Qed.

(** A filter that raises leaves the two others at work. *)
Example failed_filter_does_not_abort :
  search Difflib.matching (Returned (failing_on (Some "songs") [official_190]))
    track performer seconds 10 []
  = (Some (scored_entry (video_of official_190) 190),
     pass_requests "Mr. Brightside" 10).
Proof. vm_compute. reflexivity. Qed.

(** The three queries of the sample target, and a title with annotations. *)
Example build_search_query_samples :
  _build_search_query track "" = "Mr. Brightside"
  /\ _build_search_query track performer = "Mr. Brightside The Killers"
  /\ _build_search_query performer track = "The Killers Mr. Brightside"
  /\ _build_search_query "Stay (feat. Justin Bieber) [Official Video]"
       "The Kid LAROI" = "Stay The Kid LAROI".
Proof. vm_compute. repeat split; reflexivity. Qed.

(** The test [match_percent < 0.5] on quotients that binary64 cannot tell
    from one half: why the word count is bounded in the statement on low
    coverage. *)
Example half_threshold_at_large_sizes :
  PyFloat.ltb (PyFloat.truediv (2 ^ 55 - 1) (2 ^ 56)) PyFloat.half = false
  /\ PyFloat.ltb (PyFloat.truediv (2 ^ 52 - 1) (2 ^ 53 - 1)) PyFloat.half = true.
Proof. vm_compute. split; reflexivity. Qed.

(** Binary64 on the model: [29/50 * 50] is just below 29. *)
Example float_product_sample :
  PyFloat.to_int (PyFloat.mul_int (PyFloat.truediv 29 50) 50) = 28
  /\ PyFloat.truediv 1 3 = S754_finite false 6004799503160661 (-54)
  /\ Difflib.matching "abcd" "bcde" = 3%nat
  /\ ratio Difflib.matching "abcd" "bcde" = PyFloat.truediv 3 4.
Proof. vm_compute. repeat split; reflexivity. Qed.

(** ** The range of the score *)

Section ScoreRange.

Import PyFloat PyStr FloatFacts.

Variable matching : string -> string -> nat.
Hypothesis matching_bound :
  forall a b, (2 * matching a b <= String.length a + String.length b)%nat.

Lemma track_match_score_range track_lower title :
  -100 <= track_match_score track_lower title <= 50.
Proof.
  unfold track_match_score.
  destruct (track_words track_lower) as [|w ws] eqn:E; [lia|].
  destruct (ltb _ half); [lia|].
  assert (0 <= to_int (mul_int (truediv (matched_words (w :: ws) title)
                                  (Z.of_nat (length (w :: ws)))) 50) <= 50); [|lia].
  apply to_int_le; [lia|]. apply mul_int_50_le, coverage_le. discriminate.
Qed.

Lemma denylist_hits_range title : 0 <= denylist_hits title <= 13.
Proof.
  unfold denylist_hits.
  pose proof (List.filter_length_le (fun keyword => contains keyword title)
                bad_keywords) as H.
  change (length bad_keywords) with 13%nat in H. lia.
Qed.

Lemma other_criteria_range video track_name artist_name expected_duration :
  -125 <= other_criteria matching video track_name artist_name expected_duration
  <= 205 + view_score (vi_view_count video).
Proof.
  unfold other_criteria.
  pose proof (track_match_score_range (lower track_name) (lower (vi_title video))).
  pose proof (title_score_range matching matching_bound (lower track_name)
                (lower (vi_title video))).
  pose proof (artist_score_range matching matching_bound (lower artist_name)
                (lower (vi_uploader video)) (lower (vi_title video))).
  assert (-10 <= artist_presence_score (lower artist_name) (lower (vi_title video))
                   (lower (vi_uploader video)) <= 20)
    by (unfold artist_presence_score; destruct (_ || _); lia).
  assert (-10 <= duration_score (vi_duration video) expected_duration <= 30).
  { unfold duration_score. destruct (_ && _); [|lia].
    repeat (destruct (_ <=? _); [lia|]). lia. }
  assert (-5 <= view_score (vi_view_count video) <= 15).
  { unfold view_score. repeat (destruct (_ <=? _); [lia|]). lia. }
  assert (0 <= good_word_score (lower (vi_title video)) <= 15)
    by (unfold good_word_score; destruct (existsb _ _); lia).
  assert (0 <= official_score (lower (vi_title video)) <= 10)
    by (unfold official_score; destruct (_ && _); lia).
  lia.
Qed.

Lemma score_video_range video track_name artist_name expected_duration :
  -775 <= score_video matching video track_name artist_name expected_duration
  <= 205 + view_score (vi_view_count video).
Proof.
  rewrite score_video_split, keyword_penalty_hits.
  pose proof (other_criteria_range video track_name artist_name expected_duration).
  pose proof (denylist_hits_range (lower (vi_title video))). lia.
Qed.

Lemma collected_score_le yt q mr log v track_name artist_name expected_duration :
  In v (fst (collect yt q mr log)) ->
  score_video matching v track_name artist_name expected_duration <= 200.
Proof.
  intros Hv. apply collect_In in Hv.
  destruct Hv as (log' & rq & results & _ & Hv).
  pose proof (score_video_range v track_name artist_name expected_duration) as H.
  rewrite (from_results_view_count _ _ Hv) in H.
  change (view_score 0) with (-5) in H. lia.
Qed.

(** X1. The score of any candidate lies between -775 and 220; a
    candidate built by the collector scores at most 200, and every result
    of [search] has a score between 100 and 200. *)
Theorem score_is_bounded :
  (forall video track_name artist_name expected_duration,
      -775 <= score_video matching video track_name artist_name expected_duration
      <= 220)
  /\ (forall ytmusic query max_results log v track_name artist_name
              expected_duration,
        In v (fst (collect ytmusic query max_results log)) ->
        score_video matching v track_name artist_name expected_duration <= 200)
  /\ (forall new_session track_name artist_name duration_seconds max_results
              log b,
        fst (search matching new_session track_name artist_name duration_seconds
               max_results log) = Some b ->
        100 <= sv_score b <= 200).
Proof.
  split; [|split].
  - intros video t a d. pose proof (score_video_range video t a d) as H.
    assert (view_score (vi_view_count video) <= 15).
    { unfold view_score. repeat (destruct (_ <=? _); [lia|]). lia. }
    lia.
  - intros. eapply collected_score_le. eassumption.
  - intros new_session t a d mr log b.
    apply (search_inv matching t a d mr (fun b => 100 <= sv_score b <= 200)).
    intros yt q l x. rewrite search_with_query_eq. cbn [fst]. intros H.
    apply find_best_match_Some in H. destruct H as (v & Hv & Hs & ->).
    cbn [sv_score scored_entry]. split; [exact Hs|].
    eapply collected_score_le. exact Hv.
Qed.

End ScoreRange.

Lemma score_is_bounded_witness :
  fst (search Difflib.matching (Returned (always [perfect_200]))
         "Official Audio" performer seconds 10 [])
  = Some (scored_entry (video_of perfect_200) 200)
  /\ 100 <= sv_score (scored_entry (video_of perfect_200) 200) <= 200.
Proof.
  assert (H : fst (search Difflib.matching (Returned (always [perfect_200]))
                     "Official Audio" performer seconds 10 [])
              = Some (scored_entry (video_of perfect_200) 200))
    by (vm_compute; reflexivity).
  split; [exact H|].
  exact (proj2 (proj2 (score_is_bounded Difflib.matching
                         DifflibFacts.matching_bound)) _ _ _ _ _ _ _ H).
Defined.

(** ** What [search] returns and what it requests *)

Section ResultFacts.

Variable matching : string -> string -> nat.
Variables (track_name artist_name : string) (duration_seconds max_results : Z).

Local Abbreviation pass yt q :=
  (_search_with_query matching yt q track_name artist_name duration_seconds
     max_results).
Local Abbreviation score v :=
  (score_video matching v track_name artist_name duration_seconds).
Local Abbreviation best vs :=
  (_find_best_match matching vs track_name artist_name duration_seconds).
Local Abbreviation run new_session :=
  (search matching new_session track_name artist_name duration_seconds
     max_results).

(** What holds of every pass result of a session holds of what [search]
    returns with it. *)
Lemma search_returned_inv (yt : YTMusic) (P : scored_video -> Prop) :
  (forall q log x, fst (pass yt q log) = Some x -> P x) ->
  forall log b, fst (run (Returned yt) log) = Some b -> P b.
Proof.
  intros Hpass log b. cbn [search]. rewrite search_passes_eq.
  destruct (pass yt (_build_search_query track_name "") log) as [r1 l1] eqn:E1.
  destruct (pass yt (_build_search_query track_name artist_name) l1) as [r2 l2] eqn:E2.
  destruct (pass yt (_build_search_query artist_name track_name) l2) as [r3 l3] eqn:E3.
  assert (H1 : forall x, r1 = Some x -> P x)
    by (intros x ->; eapply Hpass; rewrite E1; reflexivity).
  assert (H2 : forall x, r2 = Some x -> P x)
    by (intros x ->; eapply Hpass; rewrite E2; reflexivity).
  assert (H3 : forall x, r3 = Some x -> P x)
    by (intros x ->; eapply Hpass; rewrite E3; reflexivity).
  destruct (high_confidence r1); cbn [fst]; [auto|].
  destruct (high_confidence r2); cbn [fst]; [auto|].
  apply merge_best_inv; [|exact H3].
  intros x. apply merge_best_inv; assumption.
Qed.

Lemma video_id_of_Some r i :
  video_id_of r = Some i -> r_videoId r = Some i /\ i <> EmptyString.
Proof.
  unfold video_id_of. destruct (r_videoId r) as [[|c s]|]; intros [= <-].
  split; [reflexivity|discriminate].
Qed.

(** X2. A result of [search] is one of the entries the session
    delivered: its id is the non-empty [videoId] of an entry, its title,
    duration and uploader are read from that entry, and its url is the
    YouTube Music watch address of that id. *)
Theorem result_comes_from_session (new_session : outcome YTMusic)
    (log : list request) (b : scored_video) :
  fst (run new_session log) = Some b ->
  exists ytmusic log' rq results r,
    new_session = Returned ytmusic
    /\ ytmusic log' rq = Returned results
    /\ In r results
    /\ r_videoId r = Some (sv_video_id b)
    /\ sv_video_id b <> EmptyString
    /\ sv_url b = watch_url (sv_video_id b)
    /\ sv_title b = default EmptyString (r_title r)
    /\ sv_duration b = default 0 (r_duration_seconds r)
    /\ sv_uploader b = uploader_of r.
Proof.
  destruct new_session as [yt|e]; [|discriminate].
  intros H. exists yt. revert log b H.
  apply (search_returned_inv yt
           (fun b => exists log' rq results r,
                Returned yt = Returned yt
                /\ yt log' rq = Returned results
                /\ In r results
                /\ r_videoId r = Some (sv_video_id b)
                /\ sv_video_id b <> EmptyString
                /\ sv_url b = watch_url (sv_video_id b)
                /\ sv_title b = default EmptyString (r_title r)
                /\ sv_duration b = default 0 (r_duration_seconds r)
                /\ sv_uploader b = uploader_of r)).
  intros q log x. rewrite search_with_query_eq. cbn [fst]. intros H.
  apply find_best_match_Some in H. destruct H as (v & Hv & _ & ->).
  apply collect_In in Hv.
  destruct Hv as (log' & rq & results & Hr & r & i & Hin & Hi & ->).
  apply video_id_of_Some in Hi. destruct Hi as [Hi Hne].
  exists log', rq, results, r. repeat split; auto.
Qed.

(** X3. [search] issues the three requests of pass 1, then possibly those
    of pass 2, then possibly those of pass 3, and nothing else: three, six
    or nine requests, each with the limit it was given; none when the
    session cannot be created. *)
Theorem search_request_budget (new_session : outcome YTMusic)
    (log : list request) :
  let p1 := pass_requests (_build_search_query track_name "") max_results in
  let p2 := pass_requests (_build_search_query track_name artist_name)
              max_results in
  let p3 := pass_requests (_build_search_query artist_name track_name)
              max_results in
  exists issued,
    snd (run new_session log) = log ++ issued
    /\ match new_session with
       | Raised _ => issued = []
       | Returned _ =>
           issued = p1 \/ issued = p1 ++ p2 \/ issued = p1 ++ p2 ++ p3
       end
    /\ (length issued <= 9)%nat
    /\ Forall (fun rq => rq_limit rq = max_results) issued.
Proof.
  intros p1 p2 p3.
  assert (Hlimit : forall q, Forall (fun rq => rq_limit rq = max_results)
                               (pass_requests q max_results))
    by (intros q; repeat constructor).
  destruct new_session as [yt|e].
  - pose proof (search_cases matching track_name artist_name duration_seconds
                  max_results yt log) as Hrun.
    cbv zeta in Hrun. fold p1 p2 p3 in Hrun. rewrite Hrun.
    destruct (high_confidence _); [|destruct (high_confidence _)]; cbn [snd].
    + exists p1. split; [reflexivity|]. split; [auto|].
      split; [cbn; lia|apply Hlimit].
    + exists (p1 ++ p2). rewrite app_assoc. split; [reflexivity|].
      split; [auto|]. split; [cbn; lia|].
      apply Forall_app; split; apply Hlimit.
    + exists (p1 ++ p2 ++ p3). rewrite !app_assoc. split; [reflexivity|].
      split; [auto|]. split; [cbn; lia|].
      apply Forall_app; split; [apply Forall_app; split|]; apply Hlimit.
  - exists []. cbn. rewrite app_nil_r. split; [reflexivity|].
    split; [reflexivity|]. split; [lia|constructor].
Qed.

Lemma find_best_match_upper vs b v :
  best vs = Some b -> In v vs -> score v <= sv_score b.
Proof.
  unfold _find_best_match. intros H Hv.
  destruct (scored_videos matching vs track_name artist_name duration_seconds)
    as [|x r] eqn:E; [discriminate|]. injection H as <-.
  destruct (Z_lt_le_dec (score v) 100) as [Hlow|Hhigh].
  - assert (Hx : In x (x :: r)) by (left; reflexivity).
    rewrite <- E in Hx. apply In_scored in Hx. destruct Hx as (w & _ & Hw & ->).
    pose proof (max_by_score_ge (scored_entry w (score w)) r) as Hge.
    cbn [sv_score scored_entry] in Hge. lia.
  - assert (Hin : In (scored_entry v (score v)) (x :: r)).
    { rewrite <- E. apply In_scored. exists v. auto. }
    apply (max_by_score_max x r) in Hin. exact Hin.
Qed.

(** X4. Whether a list of candidates has a match, and the score of the
    match, do not depend on the order of the candidates. *)
Theorem best_score_is_order_independent (videos videos' : list video_info) :
  Permutation videos videos' ->
  option_map sv_score (best videos) = option_map sv_score (best videos').
Proof.
  intros Hp.
  destruct (best videos) as [b|] eqn:E, (best videos') as [b'|] eqn:E'; simpl.
  - f_equal.
    destruct (find_best_match_Some _ _ _ _ _ _ E) as (v & Hv & _ & ->).
    destruct (find_best_match_Some _ _ _ _ _ _ E') as (v' & Hv' & _ & ->).
    cbn [sv_score scored_entry].
    pose proof (find_best_match_upper videos' _ v E'
                  (Permutation_in _ Hp Hv)) as H1.
    pose proof (find_best_match_upper videos _ v' E
                  (Permutation_in _ (Permutation_sym Hp) Hv')) as H2.
    cbn [sv_score scored_entry] in H1, H2. lia.
  - exfalso. destruct (find_best_match_Some _ _ _ _ _ _ E) as (v & Hv & Hs & _).
    pose proof (proj1 (find_best_match_None _ _ _ _ _) E' v
                  (Permutation_in _ Hp Hv)). lia.
  - exfalso. destruct (find_best_match_Some _ _ _ _ _ _ E') as (v & Hv & Hs & _).
    pose proof (proj1 (find_best_match_None _ _ _ _ _) E v
                  (Permutation_in _ (Permutation_sym Hp) Hv)). lia.
  - reflexivity.
Qed.

End ResultFacts.

Lemma result_comes_from_session_witness :
  fst (search Difflib.matching (Returned (always [perfect_200]))
         "Official Audio" performer seconds 10 [])
  = Some (scored_entry (video_of perfect_200) 200)
  /\ exists ytmusic log' rq results r,
       Returned (always [perfect_200]) = Returned ytmusic
       /\ ytmusic log' rq = Returned results
       /\ In r results
       /\ r_videoId r = Some "top-200"
       /\ "top-200" <> EmptyString
       /\ sv_url (scored_entry (video_of perfect_200) 200) = watch_url "top-200"
       /\ "Official Audio" = default EmptyString (r_title r)
       /\ 222 = default 0 (r_duration_seconds r)
       /\ "The Killers" = uploader_of r.
Proof.
  assert (H : fst (search Difflib.matching (Returned (always [perfect_200]))
                     "Official Audio" performer seconds 10 [])
              = Some (scored_entry (video_of perfect_200) 200))
    by (vm_compute; reflexivity).
  split; [exact H|].
  exact (result_comes_from_session Difflib.matching _ _ _ _ _ _ _ H).
Defined.

Lemma best_score_is_order_independent_witness :
  Permutation [video_of live_100; video_of official_190]
              [video_of official_190; video_of live_100]
  /\ option_map sv_score
       (_find_best_match Difflib.matching
          [video_of live_100; video_of official_190] track performer seconds)
     = option_map sv_score
         (_find_best_match Difflib.matching
            [video_of official_190; video_of live_100] track performer seconds).
Proof.
  split; [apply perm_swap|].
  apply (best_score_is_order_independent Difflib.matching).
  apply perm_swap.
Defined.

(** ** Symmetry of the similarity *)

Section SymmetryFacts.

Import PyStr.

Variable matching : string -> string -> nat.

Local Abbreviation similarity := (_calculate_similarity matching).

(** X5. The similarity of two strings does not depend on their order
    when each of them has at least one word. *)
Theorem similarity_is_symmetric (a b : string) :
  word_set a <> ∅ -> word_set b <> ∅ ->
  similarity a b = similarity b a.
Proof.
  intros Ha Hb. unfold _calculate_similarity.
  rewrite (String.eqb_sym b a), (orb_comm (contains b a)).
  destruct (String.eqb a b); [reflexivity|].
  destruct (contains a b || contains b a); [reflexivity|].
  cbv zeta.
  rewrite (proj2 (truthy_spec _) Ha), (proj2 (truthy_spec _) Hb). cbn [andb].
  assert (Hi : word_set b ∩ word_set a = word_set a ∩ word_set b)
    by (apply leibniz_equiv; intros w; rewrite !elem_of_intersection; tauto).
  assert (Hu : word_set b ∪ word_set a = word_set a ∪ word_set b)
    by (apply leibniz_equiv; intros w; rewrite !elem_of_union; tauto).
  rewrite Hi, Hu.
  pose proof (union_size_pos (word_set a) (word_set b) Ha) as Hpos.
  apply Z.ltb_lt in Hpos. rewrite Hpos. reflexivity.
Qed.

End SymmetryFacts.

Lemma similarity_is_symmetric_witness :
  word_set "Mr. Brightside" <> ∅ /\ word_set "brightside live" <> ∅
  /\ _calculate_similarity Difflib.matching "Mr. Brightside" "brightside live"
     = _calculate_similarity Difflib.matching "brightside live" "Mr. Brightside".
Proof.
  assert (Ha : word_set "Mr. Brightside" <> ∅)
    by (apply truthy_spec; vm_compute; reflexivity).
  assert (Hb : word_set "brightside live" <> ∅)
    by (apply truthy_spec; vm_compute; reflexivity).
  split; [exact Ha|]. split; [exact Hb|].
  exact (similarity_is_symmetric Difflib.matching _ _ Ha Hb).
Defined.

(** ** The candidates of one pass *)

Lemma add_songs_nonempty_ids results : forall acc,
  Forall (fun v => vi_id v <> EmptyString) acc ->
  Forall (fun v => vi_id v <> EmptyString) (add_songs acc results).
Proof.
  induction results as [|r rest IH]; intros acc Hacc; simpl; [exact Hacc|].
  destruct (video_id_of r) as [i|] eqn:E; [|auto].
  apply IH, Forall_app. split; [exact Hacc|].
  constructor; [|constructor]. apply video_id_of_Some in E. apply E.
Qed.

Lemma add_unseen_nonempty_ids results : forall acc,
  Forall (fun v => vi_id v <> EmptyString) acc ->
  Forall (fun v => vi_id v <> EmptyString) (add_unseen acc results).
Proof.
  induction results as [|r rest IH]; intros acc Hacc; simpl; [exact Hacc|].
  destruct (video_id_of r) as [i|] eqn:E; [|auto].
  destruct (seen acc i); [auto|].
  apply IH, Forall_app. split; [exact Hacc|].
  constructor; [|constructor]. apply video_id_of_Some in E. apply E.
Qed.

(** X6. No candidate of a pass has an empty id, whatever the session
    answers.  When the 'songs' request fails, or returns entries with
    distinct ids, no two candidates of the pass share an id: an entry of
    the 'videos' or of the unfiltered response whose id was already
    collected is dropped. *)
Theorem pass_candidates_have_distinct_ids (ytmusic : YTMusic) (query : string)
    (max_results : Z) (log : list request) :
  Forall (fun v => vi_id v <> EmptyString)
         (fst (collect ytmusic query max_results log))
  /\ ((forall songs,
          ytmusic log (songs_request query max_results) = Returned songs ->
          NoDup (omap video_id_of songs)) ->
      NoDup (map vi_id (fst (collect ytmusic query max_results log)))).
Proof.
  rewrite collect_eq. cbn [fst]. unfold collected. split; [|intros Hsongs].
  - destruct (ytmusic log _) as [s|], (ytmusic (log ++ [_]) _) as [v|],
      (ytmusic (log ++ [_; _]) _) as [u|]; cbn [on_response];
      repeat first [apply add_unseen_nonempty_ids | apply add_songs_nonempty_ids];
      constructor.
  - assert (H0 : NoDup (map vi_id (on_response add_songs []
                   (ytmusic log (songs_request query max_results))))).
    { destruct (ytmusic log _) as [s|]; cbn [on_response].
      - rewrite add_songs_ids. apply Hsongs. reflexivity.
      - constructor. }
    destruct (ytmusic (log ++ [_]) _) as [v|],
      (ytmusic (log ++ [_; _]) _) as [u|]; cbn [on_response];
      auto using add_unseen_NoDup.
Qed.

Lemma pass_candidates_have_distinct_ids_witness :
  (forall songs,
      always [twin_a; official_190] [] (songs_request "q" 10) = Returned songs ->
      NoDup (omap video_id_of songs))
  /\ map vi_id (fst (collect (always [twin_a; official_190]) "q" 10 []))
     = map vi_id [video_of twin_a; video_of official_190]
  /\ NoDup (map vi_id (fst (collect (always [twin_a; official_190]) "q" 10 [])))
  /\ map vi_id (fst (collect (always [album_cut; remaster]) "q" 10 []))
     = ["same-id"; "same-id"]%string
  /\ Forall (fun v => vi_id v <> EmptyString)
            (fst (collect (always [album_cut; remaster]) "q" 10 [])).
Proof.
  assert (H : forall songs,
             always [twin_a; official_190] [] (songs_request "q" 10)
             = Returned songs ->
             NoDup (omap video_id_of songs)).
  { intros songs [= <-]. apply (bool_decide_unpack _). vm_compute. reflexivity. }
  split; [exact H|]. split; [vm_compute; reflexivity|].
  split; [exact (proj2 (pass_candidates_have_distinct_ids _ _ _ _) H)|].
  split; [vm_compute; reflexivity|].
  exact (proj1 (pass_candidates_have_distinct_ids
                  (always [album_cut; remaster]) "q" 10 [])).
Defined.

(** ** The query builder *)

Section QueryFacts.

Import PyStr PyRe.
Local Open Scope string_scope.

Lemma append_cons x r t : String x r ++ t = String x (r ++ t).
Proof. reflexivity. Qed.

Lemma append_nil t : "" ++ t = t.
Proof. reflexivity. Qed.

Lemma append_empty_r s : s ++ "" = s.
Proof.
  induction s as [|x r IH]; [reflexivity|].
  rewrite append_cons, IH. reflexivity.
Qed.

Lemma append_assoc s t u : (s ++ t) ++ u = s ++ (t ++ u).
Proof.
  induction s as [|x r IH]; [reflexivity|].
  rewrite !append_cons, IH. reflexivity.
Qed.

Lemma occurs_app c s t : occurs c (s ++ t) = occurs c s || occurs c t.
Proof.
  induction s as [|x r IH]; [reflexivity|].
  rewrite append_cons. simpl. rewrite IH, orb_assoc. reflexivity.
Qed.

Lemma has_pair_app o c s t :
  has_pair o c (s ++ t)
  = has_pair o c s || occurs o s && occurs c t || has_pair o c t.
Proof.
  induction s as [|x r IH]; [reflexivity|].
  rewrite append_cons. simpl. rewrite IH, occurs_app.
  destruct (Ascii.eqb x o), (occurs c r), (occurs c t), (has_pair o c r),
    (occurs o r), (has_pair o c t); reflexivity.
Qed.

(** *** What [strip], [re.sub] and [split] keep *)

Lemma occurs_lstrip c s : occurs c (lstrip s) = true -> occurs c s = true.
Proof.
  induction s as [|x r IH]; simpl; [auto|].
  destruct (is_space x); [|auto].
  intros H. rewrite (IH H). apply orb_true_r.
Qed.

Lemma has_pair_lstrip o c s :
  has_pair o c (lstrip s) = true -> has_pair o c s = true.
Proof.
  induction s as [|x r IH]; simpl; [auto|].
  destruct (is_space x); [|auto].
  intros H. rewrite (IH H). apply orb_true_r.
Qed.

Lemma occurs_rstrip c s : occurs c (rstrip s) = true -> occurs c s = true.
Proof.
  induction s as [|x r IH]; simpl; [auto|].
  destruct (rstrip r) as [|y r'] eqn:E.
  - destruct (is_space x); simpl; [discriminate|].
    rewrite orb_false_r. intros ->. reflexivity.
  - cbn [occurs]. fold (occurs c (String y r')).
    destruct (Ascii.eqb x c); [reflexivity|]. simpl.
    intros H. apply IH. exact H.
Qed.

Lemma has_pair_rstrip o c s :
  has_pair o c (rstrip s) = true -> has_pair o c s = true.
Proof.
  induction s as [|x r IH]; simpl; [auto|].
  pose proof (occurs_rstrip c r) as Ho.
  destruct (rstrip r) as [|y r'] eqn:E.
  - destruct (is_space x); simpl; [discriminate|].
    rewrite andb_false_r. discriminate.
  - change (has_pair o c (String x (String y r')))
      with (Ascii.eqb x o && occurs c (String y r')
            || has_pair o c (String y r')).
    intros H. apply orb_true_iff in H. destruct H as [H|H].
    + apply andb_true_iff in H. destruct H as [-> H].
      rewrite (Ho H). reflexivity.
    + rewrite (IH H). apply orb_true_r.
Qed.

Lemma occurs_sub_from opener closer ignore_case c s : forall skip,
  occurs c (sub_from opener closer ignore_case skip s) = true ->
  occurs c s = true.
Proof.
  induction s as [|x r IH]; intros skip; cbn [sub_from]; [auto|].
  destruct skip as [|k].
  - destruct (match_len opener closer ignore_case (String x r)) as [n|].
    + intros H. cbn [occurs]. rewrite (IH _ H). apply orb_true_r.
    + cbn [occurs]. destruct (Ascii.eqb x c); [reflexivity|]. simpl. apply IH.
  - intros H. cbn [occurs]. rewrite (IH _ H). apply orb_true_r.
Qed.

Lemma has_pair_sub_from opener closer ignore_case o c s : forall skip,
  has_pair o c (sub_from opener closer ignore_case skip s) = true ->
  has_pair o c s = true.
Proof.
  induction s as [|x r IH]; intros skip; cbn [sub_from]; [auto|].
  destruct skip as [|k].
  - destruct (match_len opener closer ignore_case (String x r)) as [n|].
    + intros H. cbn [has_pair]. rewrite (IH _ H). apply orb_true_r.
    + cbn [has_pair]. intros H. apply orb_true_iff in H. destruct H as [H|H].
      * apply andb_true_iff in H. destruct H as [-> H].
        rewrite (occurs_sub_from _ _ _ _ _ _ H). reflexivity.
      * rewrite (IH _ H). apply orb_true_r.
  - intros H. cbn [has_pair]. rewrite (IH _ H). apply orb_true_r.
Qed.

Lemma visible_app s t : visible (s ++ t) = visible s ++ visible t.
Proof.
  induction s as [|x r IH]; [reflexivity|].
  rewrite append_cons. simpl.
  destruct (is_space x); [exact IH|]. rewrite append_cons, IH. reflexivity.
Qed.

Lemma occurs_visible c s :
  is_space c = false -> occurs c (visible s) = occurs c s.
Proof.
  intros Hc. induction s as [|x r IH]; simpl; [reflexivity|].
  destruct (is_space x) eqn:Ex; simpl; rewrite IH; [|reflexivity].
  destruct (Ascii.eqb_spec x c) as [->|_]; [congruence|reflexivity].
Qed.

Lemma has_pair_visible o c s :
  is_space o = false -> is_space c = false ->
  has_pair o c (visible s) = has_pair o c s.
Proof.
  intros Ho Hc. induction s as [|x r IH]; simpl; [reflexivity|].
  destruct (is_space x) eqn:Ex; simpl; rewrite IH.
  - destruct (Ascii.eqb_spec x o) as [->|_]; [congruence|reflexivity].
  - rewrite (occurs_visible c r Hc). reflexivity.
Qed.

Lemma glue_app l1 l2 : glue (l1 ++ l2)%list = glue l1 ++ glue l2.
Proof.
  induction l1 as [|w r IH]; [reflexivity|].
  simpl. rewrite IH, append_assoc. reflexivity.
Qed.

Lemma visible_join ws : visible (join " " ws) = glue (map visible ws).
Proof.
  induction ws as [|w r IH]; [reflexivity|].
  destruct r as [|w' r'].
  - simpl. rewrite append_empty_r. reflexivity.
  - change (join " " (w :: w' :: r')) with (w ++ " " ++ join " " (w' :: r')).
    rewrite !visible_app, IH. reflexivity.
Qed.

Lemma glue_flush cur : glue (map visible (flush cur)) = visible cur.
Proof. destruct cur; simpl; [reflexivity|]. apply append_empty_r. Qed.

Lemma glue_split_from s : forall cur,
  glue (map visible (split_from cur s)) = visible cur ++ visible s.
Proof.
  induction s as [|x r IH]; intros cur; cbn [split_from].
  - rewrite glue_flush. simpl. rewrite append_empty_r. reflexivity.
  - cbn [visible]. destruct (is_space x) eqn:Ex.
    + rewrite map_app, glue_app, glue_flush, IH. reflexivity.
    + rewrite IH, visible_app. cbn [visible]. rewrite Ex, append_assoc.
      reflexivity.
Qed.

(** Cleaning the white space keeps the other characters, in order. *)
Lemma visible_join_split s : visible (join " " (split s)) = visible s.
Proof. unfold split. rewrite visible_join, glue_split_from. reflexivity. Qed.

(** *** The words of [split] *)

Lemma space_free_app s t :
  space_free (s ++ t) = space_free s && space_free t.
Proof.
  induction s as [|x r IH]; [reflexivity|].
  rewrite append_cons. simpl. rewrite IH, andb_assoc. reflexivity.
Qed.

Lemma flush_words cur : space_free cur = true -> Forall word (flush cur).
Proof.
  destruct cur as [|x r]; intros H; simpl; constructor; [|constructor].
  split; [discriminate|exact H].
Qed.

Lemma split_from_words s : forall cur,
  space_free cur = true -> Forall word (split_from cur s).
Proof.
  induction s as [|x r IH]; intros cur Hcur; cbn [split_from].
  - apply flush_words, Hcur.
  - destruct (is_space x) eqn:Ex.
    + apply Forall_app. split; [apply flush_words, Hcur|]. apply IH. reflexivity.
    + apply IH. rewrite space_free_app, Hcur. simpl. rewrite Ex. reflexivity.
Qed.

Lemma tidy_word w rest fresh :
  word w -> tidy fresh (w ++ rest) = tidy false rest.
Proof.
  intros [Hne Hw]. revert fresh. induction w as [|x r IH]; intros fresh;
    [contradiction|].
  simpl in Hw. apply andb_true_iff in Hw. destruct Hw as [Hx Hr].
  apply negb_true_iff in Hx. simpl. rewrite Hx.
  destruct r as [|y r']; [reflexivity|]. apply IH; [discriminate|exact Hr].
Qed.

Lemma tidy_join ws :
  ws <> [] -> Forall word ws -> tidy true (join " " ws) = true.
Proof.
  induction ws as [|w r IH]; intros Hne Hws; [contradiction|].
  apply Forall_cons in Hws. destruct Hws as [Hw Hr].
  destruct r as [|w' r'].
  - simpl. rewrite <- (append_empty_r w), (tidy_word w "" true Hw). reflexivity.
  - change (join " " (w :: w' :: r')) with (w ++ " " ++ join " " (w' :: r')).
    rewrite (tidy_word w _ true Hw).
    change (tidy false (" " ++ join " " (w' :: r')))
      with (tidy true (join " " (w' :: r'))).
    apply IH; [discriminate|exact Hr].
Qed.

Lemma tidy_spaces fresh s c :
  tidy fresh s = true -> occurs c s = true -> is_space c = true ->
  c = " "%char.
Proof.
  revert fresh. induction s as [|x r IH]; intros fresh; simpl; [discriminate|].
  destruct (is_space x) eqn:Ex.
  - intros H Hc Hs. apply andb_true_iff in H. destruct H as [H Hr].
    apply andb_true_iff in H. destruct H as [_ Hx]. apply Ascii.eqb_eq in Hx.
    destruct (Ascii.eqb_spec x c) as [<-|_]; [exact Hx|]. eauto.
  - intros H Hc Hs.
    destruct (Ascii.eqb_spec x c) as [<-|_]; [congruence|]. eauto.
Qed.

Lemma tidy_no_double_space s : forall fresh,
  tidy fresh s = true -> contains "  " s = false.
Proof.
  induction s as [|x r IH]; intros fresh H; [reflexivity|].
  cbn [contains]. apply orb_false_iff. split.
  - destruct r as [|y r']; cbn [String.prefix].
    + destruct (ascii_dec " " x); reflexivity.
    + destruct (ascii_dec " " x) as [<-|]; [|reflexivity].
      destruct (ascii_dec " " y) as [<-|]; [|reflexivity].
      exfalso. revert H. simpl. rewrite !andb_false_r. discriminate.
  - simpl in H. destruct (is_space x).
    + apply andb_true_iff in H. destruct H as [_ H]. exact (IH _ H).
    + exact (IH _ H).
Qed.

Lemma tidy_rstrip s : forall fresh, tidy fresh s = true -> rstrip s = s.
Proof.
  induction s as [|x r IH]; intros fresh H; [reflexivity|].
  simpl in H. cbn [rstrip]. destruct (is_space x) eqn:Ex.
  - apply andb_true_iff in H. destruct H as [_ H]. rewrite (IH _ H).
    destruct r; [discriminate|reflexivity].
  - rewrite (IH _ H). destruct r; reflexivity.
Qed.

Lemma tidy_lstrip s : tidy true s = true -> lstrip s = s.
Proof.
  destruct s as [|x r]; simpl; [reflexivity|].
  destruct (is_space x); [discriminate|reflexivity].
Qed.

(** X7. The white space of a query is one space between two words:
    the query neither starts nor ends with white space, has no two
    spaces in a row and no white space character but the space. *)
Theorem query_whitespace_is_normalised (track artist : string) :
  strip (_build_search_query track artist) = _build_search_query track artist
  /\ contains "  " (_build_search_query track artist) = false
  /\ (forall c, occurs c (_build_search_query track artist) = true ->
                is_space c = true -> c = " "%char).
Proof.
  unfold _build_search_query. cbv zeta.
  set (s := sub_group "(" ")" false _).
  assert (Hw : Forall word (split s)) by (apply split_from_words; reflexivity).
  destruct (split s) as [|w r] eqn:E.
  - split; [reflexivity|]. split; [reflexivity|]. intros c [=].
  - assert (Ht : tidy true (join " " (w :: r)) = true)
      by (apply tidy_join; [discriminate|exact Hw]).
    split; [|split].
    + unfold strip. rewrite (tidy_lstrip _ Ht). exact (tidy_rstrip _ _ Ht).
    + exact (tidy_no_double_space _ _ Ht).
    + intros c. exact (tidy_spaces _ _ c Ht).
Qed.

(** *** Bracketed groups *)

Lemma close_at_None closer s :
  close_at closer s = None -> occurs newline s = false ->
  occurs closer s = false.
Proof.
  induction s as [|x r IH]; simpl; [reflexivity|].
  destruct (Ascii.eqb x closer); [discriminate|].
  destruct (Ascii.eqb x newline); [discriminate|]. simpl.
  destruct (close_at closer r); [discriminate|]. auto.
Qed.

Lemma close_at_Some closer s k :
  close_at closer s = Some k -> occurs closer s = true.
Proof.
  revert k. induction s as [|x r IH]; intros k; simpl; [discriminate|].
  destruct (Ascii.eqb x closer); [reflexivity|].
  destruct (Ascii.eqb x newline); [discriminate|]. simpl.
  destruct (close_at closer r) as [j|]; [|discriminate]. eauto.
Qed.

(** After [re.sub] of [o .*? c] a single line has no [o] before a [c]. *)
Lemma sub_from_no_pair o c s : forall skip,
  occurs newline s = false ->
  has_pair o c (sub_from (String o "") c false skip s) = false.
Proof.
  induction s as [|x r IH]; intros skip Hnl; cbn [sub_from]; [reflexivity|].
  simpl in Hnl. apply orb_false_iff in Hnl. destruct Hnl as [_ Hnl].
  destruct skip as [|k]; [|auto].
  unfold match_len. cbn [String.prefix String.length drop].
  destruct (ascii_dec o x) as [<-|Hox].
  - replace (String.prefix "" r) with true by (destruct r; reflexivity).
    destruct (close_at c r) as [j|] eqn:Ec; cbn [option_map]; [auto|].
    cbn [has_pair]. rewrite (IH _ Hnl), orb_false_r.
    apply andb_false_iff. right.
    destruct (occurs c (sub_from (String o "") c false 0 r)) eqn:Eo;
      [|reflexivity].
    apply occurs_sub_from in Eo.
    rewrite (close_at_None _ _ Ec Hnl) in Eo. discriminate.
  - cbn [has_pair]. rewrite (IH _ Hnl), orb_false_r.
    destruct (Ascii.eqb_spec x o) as [->|_]; [contradiction|reflexivity].
Qed.

Lemma not_true_false b : (b = true -> False) -> b = false.
Proof. destruct b; [intros H; exfalso; auto|reflexivity]. Qed.

Lemma strip_single_line s :
  occurs newline s = false -> occurs newline (strip s) = false.
Proof.
  intros H. apply not_true_false. intros Hs.
  apply occurs_rstrip, occurs_lstrip in Hs. congruence.
Qed.

Lemma sub_group_single_line opener closer ignore_case s :
  occurs newline s = false ->
  occurs newline (sub_group opener closer ignore_case s) = false.
Proof.
  intros H. apply not_true_false. intros Hs.
  apply occurs_sub_from in Hs. congruence.
Qed.

Lemma sub_group_keeps_no_pair opener closer ignore_case o c s :
  has_pair o c s = false ->
  has_pair o c (sub_group opener closer ignore_case s) = false.
Proof.
  intros H. apply not_true_false. intros Hs.
  apply has_pair_sub_from in Hs. congruence.
Qed.

Lemma join_split_no_pair o c s :
  is_space o = false -> is_space c = false ->
  has_pair o c s = false -> has_pair o c (join " " (split s)) = false.
Proof.
  intros Ho Hc H.
  rewrite <- (has_pair_visible o c _ Ho Hc), visible_join_split,
    (has_pair_visible o c _ Ho Hc). exact H.
Qed.

(** X8. The query of a track and an artist without line feed has no
    bracketed group left: no "(" with a ")" after it and no "[" with a
    "]" after it. *)
Theorem query_has_no_bracket_group (track artist : string) :
  single_line track = true -> single_line artist = true ->
  has_pair "(" ")" (_build_search_query track artist) = false
  /\ has_pair "[" "]" (_build_search_query track artist) = false.
Proof.
  unfold single_line. intros Ht Ha.
  apply negb_true_iff in Ht. apply negb_true_iff in Ha.
  assert (H0 : occurs newline (strip (track ++ " " ++ artist)) = false).
  { apply strip_single_line. rewrite !occurs_app, Ht, Ha. reflexivity. }
  unfold _build_search_query. cbv zeta.
  split; apply join_split_no_pair; try reflexivity.
  - apply sub_from_no_pair. do 4 apply sub_group_single_line. exact H0.
  - apply sub_group_keeps_no_pair. apply sub_from_no_pair.
    do 3 apply sub_group_single_line. exact H0.
Qed.

(** *** Text without a bracketed group *)

Lemma occurs_drop c s : forall n,
  occurs c (drop n s) = true -> occurs c s = true.
Proof.
  induction s as [|x r IH]; intros [|n]; simpl; auto.
  intros H. rewrite (IH _ H). apply orb_true_r.
Qed.

Lemma lower_char_paren x : lower_char x = "("%char -> x = "("%char.
Proof.
  destruct x as [[] [] [] [] [] [] [] []]; vm_compute; intros H;
    congruence.
Qed.

(** [re.sub] changes nothing where the first character of the pattern
    has no [closer] after it. *)
Lemma sub_from_id o rest closer ignore_case s :
  (ignore_case = true -> forall x, lower_char x = o -> x = o) ->
  has_pair o closer s = false ->
  sub_from (String o rest) closer ignore_case 0 s = s.
Proof.
  intros Hlow. induction s as [|x r IH]; intros H; [reflexivity|].
  cbn [has_pair] in H. apply orb_false_iff in H. destruct H as [Hx Hr].
  cbn [sub_from].
  assert (Hm : match_len (String o rest) closer ignore_case (String x r) = None).
  { unfold match_len. cbn [String.length drop].
    assert (Hp : String.prefix (String o rest)
                   (if ignore_case then lower (String x r) else String x r)
                 = true -> x = o).
    { destruct ignore_case; cbn [lower String.prefix].
      - destruct (ascii_dec o (lower_char x)) as [->|]; [|discriminate].
        intros _. apply Hlow; reflexivity.
      - destruct (ascii_dec o x) as [->|]; [|discriminate]. reflexivity. }
    destruct (String.prefix _ _); [|reflexivity].
    destruct (close_at closer (drop (String.length rest) r)) as [k|] eqn:Ek;
      [|reflexivity].
    exfalso. apply close_at_Some, occurs_drop in Ek.
    rewrite (Hp eq_refl), Ascii.eqb_refl, Ek in Hx. discriminate. }
  rewrite Hm, (IH Hr). reflexivity.
Qed.

Lemma split_from_lstrip s : split_from "" (lstrip s) = split_from "" s.
Proof.
  induction s as [|x r IH]; [reflexivity|]. cbn [lstrip split_from].
  destruct (is_space x) eqn:Ex; [exact IH|].
  cbn [split_from]. rewrite Ex. reflexivity.
Qed.

Lemma split_from_rstrip s : forall cur,
  split_from cur (rstrip s) = split_from cur s.
Proof.
  induction s as [|x r IH]; intros cur; [reflexivity|].
  cbn [rstrip]. destruct (rstrip r) as [|y r'] eqn:E.
  - cbn [split_from]. destruct (is_space x) eqn:Ex.
    + rewrite <- IH. cbn [split_from flush]. rewrite app_nil_r. reflexivity.
    + cbn [split_from]. rewrite Ex, <- IH. reflexivity.
  - cbn [split_from]. destruct (is_space x); rewrite <- IH; reflexivity.
Qed.

Lemma split_strip s : split (strip s) = split s.
Proof. unfold split, strip. rewrite split_from_rstrip. apply split_from_lstrip. Qed.

(** The builder on text where no bracket is closed. *)
Lemma build_plain s :
  has_pair "(" ")" s = false -> has_pair "[" "]" s = false ->
  join " " (split
    (sub_group "(" ")" false
       (sub_group "[" "]" false
          (sub_group "(featuring" ")" true
             (sub_group "(ft." ")" true
                (sub_group "(feat." ")" true (strip s)))))))
  = join " " (split s).
Proof.
  intros Hp Hb.
  assert (Hp' : has_pair "(" ")" (strip s) = false).
  { apply not_true_false. intros H.
    apply has_pair_rstrip, has_pair_lstrip in H. congruence. }
  assert (Hb' : has_pair "[" "]" (strip s) = false).
  { apply not_true_false. intros H.
    apply has_pair_rstrip, has_pair_lstrip in H. congruence. }
  unfold sub_group.
  rewrite (sub_from_id "(" "feat." ")" true (strip s));
    [|intros _; exact lower_char_paren|exact Hp'].
  rewrite (sub_from_id "(" "ft." ")" true (strip s));
    [|intros _; exact lower_char_paren|exact Hp'].
  rewrite (sub_from_id "(" "featuring" ")" true (strip s));
    [|intros _; exact lower_char_paren|exact Hp'].
  rewrite (sub_from_id "[" "" "]" false (strip s));
    [|discriminate|exact Hb'].
  rewrite (sub_from_id "(" "" ")" false (strip s));
    [|discriminate|exact Hp'].
  rewrite split_strip. reflexivity.
Qed.

(** X9. Where the text "track artist" has no "(" with a ")" after it and
    no "[" with a "]" after it, the builder only cleans the white space:
    the query is the words of that text joined by single spaces. *)
Theorem plain_text_is_only_respaced (track artist : string) :
  has_pair "(" ")" (track ++ " " ++ artist) = false ->
  has_pair "[" "]" (track ++ " " ++ artist) = false ->
  _build_search_query track artist
  = join " " (split (track ++ " " ++ artist)).
Proof. intros Hp Hb. exact (build_plain _ Hp Hb). Qed.

(** *** Round trip of [split] and [join] *)

Lemma split_from_word w rest : forall cur,
  space_free w = true ->
  split_from cur (w ++ rest) = split_from (cur ++ w) rest.
Proof.
  induction w as [|x r IH]; intros cur Hw.
  - rewrite append_empty_r. reflexivity.
  - simpl in Hw. apply andb_true_iff in Hw. destruct Hw as [Hx Hr].
    apply negb_true_iff in Hx.
    rewrite append_cons. cbn [split_from]. rewrite Hx, (IH _ Hr), append_assoc.
    reflexivity.
Qed.

Lemma split_join ws : Forall word ws -> split (join " " ws) = ws.
Proof.
  unfold split. induction ws as [|w r IH]; intros Hws; [reflexivity|].
  apply Forall_cons in Hws. destruct Hws as [[Hne Hw] Hr].
  destruct r as [|w' r'].
  - cbn [join]. transitivity (split_from "" (w ++ "")).
    + rewrite append_empty_r. reflexivity.
    + rewrite (split_from_word w "" "" Hw), append_nil. cbn [split_from].
      destruct w; [contradiction|reflexivity].
  - change (join " " (w :: w' :: r')) with (w ++ " " ++ join " " (w' :: r')).
    rewrite (split_from_word w _ "" Hw), append_nil.
    change (split_from w (" " ++ join " " (w' :: r')))
      with (flush w ++ split_from "" (join " " (w' :: r')))%list.
    rewrite (IH Hr). destruct w; [contradiction|reflexivity].
Qed.

Lemma split_from_trailing_space s : forall cur,
  split_from cur (s ++ " ") = split_from cur s.
Proof.
  induction s as [|x r IH]; intros cur.
  - rewrite append_nil.
    change (split_from cur " ") with (flush cur ++ flush "")%list.
    apply app_nil_r.
  - rewrite append_cons. cbn [split_from]. rewrite !IH. reflexivity.
Qed.

(** X10. Building a query from a query changes nothing, for a track and
    an artist without line feed. *)
Theorem query_builder_is_idempotent (track artist : string) :
  single_line track = true -> single_line artist = true ->
  _build_search_query (_build_search_query track artist) ""
  = _build_search_query track artist.
Proof.
  intros Ht Ha.
  assert (Hq : exists s,
             _build_search_query track artist = join " " (split s)
             /\ has_pair "(" ")" (join " " (split s)) = false
             /\ has_pair "[" "]" (join " " (split s)) = false).
  { unfold single_line in Ht, Ha.
    apply negb_true_iff in Ht. apply negb_true_iff in Ha.
    assert (H0 : occurs newline (strip (track ++ " " ++ artist)) = false).
    { apply strip_single_line. rewrite !occurs_app, Ht, Ha. reflexivity. }
    eexists. split; [reflexivity|].
    split; apply join_split_no_pair; try reflexivity.
    - apply sub_from_no_pair. do 4 apply sub_group_single_line. exact H0.
    - apply sub_group_keeps_no_pair. apply sub_from_no_pair.
      do 3 apply sub_group_single_line. exact H0. }
  destruct Hq as (s & -> & Hp & Hb).
  set (q := join " " (split s)) in *.
  transitivity (join " " (split (q ++ " "))).
  - apply (build_plain (q ++ " ")); rewrite has_pair_app;
      [rewrite Hp|rewrite Hb]; cbn; rewrite andb_false_r; reflexivity.
  - unfold split at 1. rewrite split_from_trailing_space.
    fold (split q). unfold q. rewrite split_join; [reflexivity|].
    apply split_from_words. reflexivity.
Qed.

End QueryFacts.

Lemma query_has_no_bracket_group_witness :
  single_line "Mr. Brightside (feat. [x]) [Live]" = true
  /\ single_line "The (Killers" = true
  /\ _build_search_query "Mr. Brightside (feat. [x]) [Live]" "The (Killers"
     = "Mr. Brightside The (Killers"%string
  /\ has_pair "(" ")"
       (_build_search_query "Mr. Brightside (feat. [x]) [Live]" "The (Killers")
     = false.
Proof.
  split; [reflexivity|]. split; [reflexivity|]. split; [vm_compute; reflexivity|].
  exact (proj1 (query_has_no_bracket_group
                  "Mr. Brightside (feat. [x]) [Live]" "The (Killers"
                  eq_refl eq_refl)).
Defined.

Lemma plain_text_is_only_respaced_witness :
  has_pair "(" ")" ("  Mr.  Brightside)" ++ " " ++ "(The Killers ")%string = false
  /\ has_pair "[" "]" ("  Mr.  Brightside)" ++ " " ++ "(The Killers ")%string = false
  /\ _build_search_query "  Mr.  Brightside)" "(The Killers "
     = PyStr.join " "
         (PyStr.split ("  Mr.  Brightside)" ++ " " ++ "(The Killers ")%string).
Proof.
  split; [reflexivity|]. split; [reflexivity|].
  exact (plain_text_is_only_respaced "  Mr.  Brightside)" "(The Killers "
           eq_refl eq_refl).
Defined.

Lemma query_builder_is_idempotent_witness :
  single_line "Mr. Brightside (Live)" = true
  /\ single_line "The Killers" = true
  /\ _build_search_query (_build_search_query "Mr. Brightside (Live)" "The Killers") ""
     = _build_search_query "Mr. Brightside (Live)" "The Killers".
Proof.
  split; [reflexivity|]. split; [reflexivity|].
  exact (query_builder_is_idempotent "Mr. Brightside (Live)" "The Killers"
           eq_refl eq_refl).
Defined.

(** ** File names *)

Section FilenameFacts.

Local Open Scope string_scope.

Local Abbreviation remove_all :=
  (fold_left (fun filename char => remove_char char filename)).

Lemma occurs_remove_char_same c s : occurs c (remove_char c s) = false.
Proof.
  induction s as [|x r IH]; simpl; [reflexivity|].
  destruct (Ascii.eqb x c) eqn:E; [exact IH|]. simpl. rewrite E. exact IH.
Qed.

Lemma occurs_remove_char d c s :
  occurs d (remove_char c s) = occurs d s && negb (Ascii.eqb d c).
Proof.
  induction s as [|x r IH]; simpl; [reflexivity|].
  destruct (Ascii.eqb_spec x c) as [->|Hxc]; simpl; rewrite IH.
  - destruct (Ascii.eqb_spec c d) as [->|Hcd]; simpl.
    + rewrite Ascii.eqb_refl, andb_false_r. reflexivity.
    + reflexivity.
  - destruct (Ascii.eqb_spec x d) as [->|Hxd]; simpl; [|reflexivity].
    destruct (Ascii.eqb_spec d c) as [->|_]; [contradiction|reflexivity].
Qed.

Lemma occurs_remove_all d l : forall s,
  occurs d (remove_all l s)
  = occurs d s && negb (existsb (Ascii.eqb d) l).
Proof.
  induction l as [|c l IH]; intros s; simpl.
  - rewrite andb_true_r. reflexivity.
  - rewrite IH, occurs_remove_char, negb_orb, andb_assoc. reflexivity.
Qed.

Lemma occurs_lstrip_of cs c s :
  occurs c (lstrip_of cs s) = true -> occurs c s = true.
Proof.
  induction s as [|x r IH]; simpl; [auto|].
  destruct (occurs x cs); [|auto].
  intros H. rewrite (IH H). apply orb_true_r.
Qed.

Lemma occurs_rstrip_of cs c s :
  occurs c (rstrip_of cs s) = true -> occurs c s = true.
Proof.
  induction s as [|x r IH]; simpl; [auto|].
  destruct (rstrip_of cs r) as [|y r'] eqn:E.
  - destruct (occurs x cs); simpl; [discriminate|].
    rewrite orb_false_r. intros ->. reflexivity.
  - cbn [occurs]. fold (occurs c (String y r')).
    destruct (Ascii.eqb x c); [reflexivity|]. simpl.
    intros H. apply IH. exact H.
Qed.

Lemma occurs_substring c s : forall n,
  occurs c (substring 0 n s) = true -> occurs c s = true.
Proof.
  induction s as [|x r IH]; intros [|n]; simpl; try discriminate.
  destruct (Ascii.eqb x c); [reflexivity|]. simpl. apply IH.
Qed.

Lemma length_substring s : forall n,
  (String.length (substring 0 n s) <= n)%nat.
Proof.
  induction s as [|x r IH]; intros [|n]; simpl; try lia.
  specialize (IH n). lia.
Qed.

Lemma first_char_substring s n :
  first_char (substring 0 (S n) s) = first_char s.
Proof. destruct s; reflexivity. Qed.

Lemma first_char_lstrip_of cs s c :
  first_char (lstrip_of cs s) = Some c -> occurs c cs = false.
Proof.
  induction s as [|x r IH]; simpl; [discriminate|].
  destruct (occurs x cs) eqn:E; [exact IH|].
  simpl. intros [= <-]. exact E.
Qed.

Lemma first_char_rstrip_of cs s c :
  first_char (rstrip_of cs s) = Some c -> first_char s = Some c.
Proof.
  destruct s as [|x r]; simpl; [discriminate|].
  destruct (rstrip_of cs r); [destruct (occurs x cs)|]; simpl; congruence.
Qed.

Lemma last_char_rstrip_of cs s c :
  last_char (rstrip_of cs s) = Some c -> occurs c cs = false.
Proof.
  induction s as [|x r IH]; simpl; [discriminate|].
  destruct (rstrip_of cs r) as [|y r'] eqn:E.
  - destruct (occurs x cs) eqn:Ex; simpl; [discriminate|].
    intros [= <-]. exact Ex.
  - exact IH.
Qed.

Lemma length_remove_char c s :
  (String.length (remove_char c s) <= String.length s)%nat.
Proof.
  induction s as [|x r IH]; simpl; [lia|].
  destruct (Ascii.eqb x c); simpl; lia.
Qed.

Lemma length_remove_all l : forall s,
  (String.length (remove_all l s) <= String.length s)%nat.
Proof.
  induction l as [|c l IH]; intros s; simpl; [lia|].
  specialize (IH (remove_char c s)).
  pose proof (length_remove_char c s). lia.
Qed.

Lemma length_lstrip_of cs s :
  (String.length (lstrip_of cs s) <= String.length s)%nat.
Proof.
  induction s as [|x r IH]; simpl; [lia|].
  destruct (occurs x cs); simpl; lia.
Qed.

Lemma length_rstrip_of cs s :
  (String.length (rstrip_of cs s) <= String.length s)%nat.
Proof.
  induction s as [|x r IH]; simpl; [lia|].
  destruct (rstrip_of cs r); [destruct (occurs x cs)|]; simpl in *; lia.
Qed.

Lemma dot_or_space_spec c :
  dot_or_space c = false <-> c <> "."%char /\ c <> " "%char.
Proof.
  unfold dot_or_space. cbn [occurs].
  destruct (Ascii.eqb_spec "." c) as [H1|H1];
    destruct (Ascii.eqb_spec " " c) as [H2|H2];
    simpl; split; try discriminate; try (intros [? ?]; congruence).
  intros _. split; congruence.
Qed.

Lemma dot_or_space_true c :
  dot_or_space c = true -> c = "."%char \/ c = " "%char.
Proof.
  unfold dot_or_space. cbn [occurs].
  destruct (Ascii.eqb_spec "." c) as [H1|H1]; [auto|].
  destruct (Ascii.eqb_spec " " c) as [H2|H2]; [auto|]. discriminate.
Qed.

(** X11. A sanitized name has none of the nine invalid characters, at
    most 200 characters and no dot or space at its start; it is neither
    "." nor ".."; and a name of at most 200 characters has no dot or
    space at its end either. *)
Theorem sanitized_name_is_safe (filename : string) :
  (forall c, In c invalid_chars ->
             occurs c (_sanitize_filename filename) = false)
  /\ (String.length (_sanitize_filename filename) <= 200)%nat
  /\ (forall c, first_char (_sanitize_filename filename) = Some c ->
                c <> "."%char /\ c <> " "%char)
  /\ _sanitize_filename filename <> "."
  /\ _sanitize_filename filename <> ".."
  /\ ((String.length filename <= 200)%nat ->
      forall c, last_char (_sanitize_filename filename) = Some c ->
                c <> "."%char /\ c <> " "%char).
Proof.
  unfold _sanitize_filename. cbv zeta.
  set (t := remove_all invalid_chars filename).
  assert (Hfirst : forall c, first_char
            (if (200 <? PyStr.len (strip_of ". " t))%Z
             then substring 0 200 (strip_of ". " t) else strip_of ". " t)
            = Some c -> c <> "."%char /\ c <> " "%char).
  { intros c Hc. apply dot_or_space_spec.
    assert (H : first_char (strip_of ". " t) = Some c).
    { destruct (200 <? PyStr.len (strip_of ". " t))%Z; [|exact Hc].
      rewrite first_char_substring in Hc. exact Hc. }
    apply first_char_rstrip_of in H.
    exact (first_char_lstrip_of _ _ _ H). }
  split; [|split; [|split; [|split; [|split]]]].
  - intros c Hc. apply not_true_false. intros H.
    assert (Ht : occurs c t = true).
    { destruct (200 <? PyStr.len (strip_of ". " t))%Z;
        [apply occurs_substring in H|];
        apply occurs_rstrip_of, occurs_lstrip_of in H; exact H. }
    unfold t in Ht. rewrite occurs_remove_all in Ht.
    apply andb_true_iff in Ht. destruct Ht as [_ Ht].
    apply negb_true_iff in Ht.
    assert (He : existsb (Ascii.eqb c) invalid_chars = true).
    { apply existsb_exists. exists c. split; [exact Hc|apply Ascii.eqb_refl]. }
    congruence.
  - unfold PyStr.len.
    destruct (Z.ltb_spec 200 (Z.of_nat (String.length (strip_of ". " t))));
      [apply length_substring|lia].
  - exact Hfirst.
  - intros E. rewrite E in Hfirst.
    destruct (Hfirst "."%char eq_refl) as [H _]. congruence.
  - intros E. rewrite E in Hfirst.
    destruct (Hfirst "."%char eq_refl) as [H _]. congruence.
  - intros Hlen c Hc. apply dot_or_space_spec.
    assert (Hl : (String.length (strip_of ". " t) <= 200)%nat).
    { pose proof (length_rstrip_of ". " (lstrip_of ". " t)).
      pose proof (length_lstrip_of ". " t).
      pose proof (length_remove_all invalid_chars filename).
      unfold strip_of. fold t in H1. lia. }
    unfold PyStr.len in Hc.
    destruct (Z.ltb_spec 200 (Z.of_nat (String.length (strip_of ". " t))));
      [lia|].
    exact (last_char_rstrip_of _ _ _ Hc).
Qed.

(** *** Names that are already clean *)

Lemma remove_char_absent c s : occurs c s = false -> remove_char c s = s.
Proof.
  induction s as [|x r IH]; simpl; [reflexivity|].
  intros H. apply orb_false_iff in H. destruct H as [-> Hr].
  rewrite (IH Hr). reflexivity.
Qed.

Lemma remove_all_absent l : forall s,
  (forall c, In c l -> occurs c s = false) -> remove_all l s = s.
Proof.
  induction l as [|c l IH]; intros s H; simpl; [reflexivity|].
  rewrite (remove_char_absent c s) by (apply H; left; reflexivity).
  apply IH. intros d Hd. apply H. right. exact Hd.
Qed.

Lemma lstrip_of_clean cs s :
  (forall c, first_char s = Some c -> occurs c cs = false) ->
  lstrip_of cs s = s.
Proof.
  destruct s as [|x r]; simpl; [reflexivity|].
  intros H. rewrite (H x eq_refl). reflexivity.
Qed.

Lemma rstrip_of_clean cs s :
  (forall c, last_char s = Some c -> occurs c cs = false) ->
  rstrip_of cs s = s.
Proof.
  induction s as [|x r IH]; simpl; [reflexivity|].
  intros H. destruct r as [|y r'].
  - simpl. rewrite (H x eq_refl). reflexivity.
  - rewrite (IH H). reflexivity.
Qed.

(** X12. A name of at most 200 characters without any of the nine
    invalid characters and without a dot or a space at its start or end is
    returned as it is. *)
Theorem clean_name_is_unchanged (filename : string) :
  (forall c, In c invalid_chars -> occurs c filename = false) ->
  (forall c, first_char filename = Some c -> dot_or_space c = false) ->
  (forall c, last_char filename = Some c -> dot_or_space c = false) ->
  (String.length filename <= 200)%nat ->
  _sanitize_filename filename = filename.
Proof.
  intros Hinv Hfirst Hlast Hlen. unfold _sanitize_filename. cbv zeta.
  rewrite (remove_all_absent _ _ Hinv). unfold strip_of.
  rewrite (lstrip_of_clean _ _ Hfirst), (rstrip_of_clean _ _ Hlast).
  unfold PyStr.len.
  destruct (Z.ltb_spec 200 (Z.of_nat (String.length filename))); [lia|].
  reflexivity.
Qed.

(** *** Names of which nothing is left *)

Lemma lstrip_of_empty cs s :
  lstrip_of cs s = "" <-> (forall c, occurs c s = true -> occurs c cs = true).
Proof.
  induction s as [|x r IH]; simpl.
  - split; [intros _ c [=]|reflexivity].
  - destruct (occurs x cs) eqn:Ex.
    + rewrite IH. split.
      * intros H c Hc. apply orb_true_iff in Hc. destruct Hc as [Hc|Hc]; [|auto].
        apply Ascii.eqb_eq in Hc. subst c. exact Ex.
      * intros H c Hc. apply H. rewrite Hc. apply orb_true_r.
    + split; [discriminate|].
      intros H. specialize (H x). rewrite Ascii.eqb_refl in H.
      rewrite (H eq_refl) in Ex. discriminate.
Qed.

Lemma rstrip_of_empty cs s :
  rstrip_of cs s = "" -> lstrip_of cs s = "".
Proof.
  induction s as [|x r IH]; simpl; [reflexivity|].
  destruct (rstrip_of cs r) as [|y r']; [|discriminate].
  destruct (occurs x cs); [|discriminate]. intros _. apply IH. reflexivity.
Qed.

Lemma lstrip_of_idem cs s : lstrip_of cs (lstrip_of cs s) = lstrip_of cs s.
Proof.
  induction s as [|x r IH]; simpl; [reflexivity|].
  destruct (occurs x cs) eqn:Ex; [exact IH|]. simpl. rewrite Ex. reflexivity.
Qed.

Lemma strip_of_empty cs s :
  strip_of cs s = "" <-> (forall c, occurs c s = true -> occurs c cs = true).
Proof.
  rewrite <- lstrip_of_empty. unfold strip_of. split.
  - intros H. apply rstrip_of_empty in H. rewrite lstrip_of_idem in H. exact H.
  - intros ->. reflexivity.
Qed.

(** X13. Nothing is left of a name exactly when each of its characters
    is one of the nine invalid characters, a dot or a space. *)
Theorem sanitized_name_is_empty_iff (filename : string) :
  _sanitize_filename filename = ""
  <-> (forall c, occurs c filename = true ->
                 In c invalid_chars \/ c = "."%char \/ c = " "%char).
Proof.
  unfold _sanitize_filename. cbv zeta.
  set (t := remove_all invalid_chars filename).
  assert (Ht : strip_of ". " t = ""
               <-> (forall c, occurs c filename = true ->
                      In c invalid_chars \/ c = "."%char \/ c = " "%char)).
  { rewrite strip_of_empty. unfold t. split.
    - intros H c Hc.
      destruct (existsb (Ascii.eqb c) invalid_chars) eqn:E.
      + left. apply existsb_exists in E. destruct E as (d & Hd & He).
        apply Ascii.eqb_eq in He. subst d. exact Hd.
      + right. specialize (H c). rewrite occurs_remove_all, Hc, E in H.
        specialize (H eq_refl). cbn [andb negb] in H.
        exact (dot_or_space_true c H).
    - intros H c Hc. rewrite occurs_remove_all in Hc.
      apply andb_true_iff in Hc. destruct Hc as [Hc Hn].
      apply negb_true_iff in Hn.
      destruct (H c Hc) as [Hi|[->| ->]]; [|reflexivity|reflexivity].
      exfalso.
      assert (He : existsb (Ascii.eqb c) invalid_chars = true).
      { apply existsb_exists. exists c. split; [exact Hi|apply Ascii.eqb_refl]. }
      congruence. }
  rewrite <- Ht. unfold PyStr.len.
  destruct (Z.ltb_spec 200 (Z.of_nat (String.length (strip_of ". " t))))
    as [Hlong|Hshort]; [|reflexivity].
  split.
  - destruct (strip_of ". " t); [reflexivity|discriminate].
  - intros E. rewrite E in Hlong. simpl in Hlong. lia.
Qed.

End FilenameFacts.

Lemma sanitized_name_is_safe_witness :
  _sanitize_filename ". AC/DC: Back In Black? ." = "ACDC Back In Black"%string
  /\ (String.length ". AC/DC: Back In Black? ." <= 200)%nat
  /\ forall c, last_char (_sanitize_filename ". AC/DC: Back In Black? .") = Some c ->
               c <> "."%char /\ c <> " "%char.
Proof.
  assert (H : (String.length ". AC/DC: Back In Black? ." <= 200)%nat)
    by (vm_compute; lia).
  split; [vm_compute; reflexivity|]. split; [exact H|].
  pose proof (sanitized_name_is_safe ". AC/DC: Back In Black? .")
    as (_ & _ & _ & _ & _ & Hlast).
  exact (Hlast H).
Defined.

Lemma clean_name_is_unchanged_witness :
  _sanitize_filename "The Killers - Mr. Brightside"
  = "The Killers - Mr. Brightside"%string.
Proof.
  apply clean_name_is_unchanged.
  - intros c Hc. simpl in Hc.
    repeat (destruct Hc as [<-|Hc]; [reflexivity|]). contradiction.
  - intros c [= <-]. reflexivity.
  - intros c [= <-]. reflexivity.
  - vm_compute. lia.
Defined.

(** ** Progress of the audio download *)

Section ProgressFacts.

Import PyFloat FloatFacts.

Lemma of_int_100 : of_int 100 = S754_finite false 7036874417766400 (-46).
Proof. reflexivity. Qed.

Lemma download_percent_range downloaded total :
  0 <= downloaded <= total -> 0 < total ->
  0 <= download_percent downloaded total <= 100.
Proof.
  intros Hd Ht. unfold download_percent. apply to_int_le; [lia|].
  assert (Hx : le_dyadic (truediv downloaded total) 1 0)
    by (apply truediv_le; lia).
  unfold mul_int. rewrite of_int_100.
  apply (SFmul_le _ _ _ 100 1 0 Hx); try lia; reflexivity.
Qed.

Lemma percents_In p : 0 <= p <= 100 -> In p percents.
Proof.
  intros Hp. unfold percents. apply in_map_iff.
  exists (Z.to_nat p). split; [lia|]. apply in_seq. lia.
Qed.

(** On the percents, [int(percent * 0.4)] is two fifths, rounded down. *)
Lemma scaled_percent_table p :
  0 <= p <= 100 -> scaled_percent p = 40 + 2 * p / 5.
Proof.
  intros Hp.
  assert (H : forallb (fun p => scaled_percent p =? 40 + 2 * p / 5) percents
              = true) by (vm_compute; reflexivity).
  rewrite forallb_forall in H. apply Z.eqb_eq, H, percents_In, Hp.
Qed.

Lemma scaled_percent_range p : 0 <= p <= 100 -> 40 <= scaled_percent p <= 80.
Proof.
  intros Hp. rewrite (scaled_percent_table p Hp).
  assert (0 <= 2 * p / 5 <= 40); [|lia].
  split; [apply Z.div_pos; lia|].
  apply Z.div_le_upper_bound; lia.
Qed.

(** The quotient of a size by itself is a float of value one. *)
Lemma truediv_self total :
  0 < total ->
  exists k, 0 <= k <= 52
            /\ truediv total total = S754_finite false (Z.to_pos (2 ^ k)) (- k).
Proof.
  intros Ht.
  assert (Hle : le_dyadic (truediv total total) 1 0)
    by (apply truediv_le; lia).
  assert (Hge : ge_dyadic (truediv total total) 1 0)
    by (apply truediv_ge; lia).
  destruct (truediv total total) as [s| | |[|] m e]; simpl in Hle, Hge;
    try contradiction.
  destruct Hle as [He Hm]. destruct Hge as (_ & Hm' & H53).
  rewrite Z.sub_0_r in Hm, Hm'.
  assert (Em : Z.pos m = 2 ^ (- e)) by lia.
  exists (- e). split.
  - split; [lia|]. rewrite Em in H53.
    apply Z.pow_lt_mono_r_iff in H53; lia.
  - rewrite <- Em, Z.opp_involutive. reflexivity.
Qed.

Lemma download_percent_complete total :
  0 < total -> download_percent total total = 100.
Proof.
  intros Ht. destruct (truediv_self total Ht) as (k & Hk & E).
  unfold download_percent. rewrite E.
  assert (H : forallb
            (fun k => to_int (mul_int (S754_finite false (Z.to_pos (2 ^ k)) (- k))
                                100) =? 100)
            (map Z.of_nat (seq 0 53)) = true) by (vm_compute; reflexivity).
  rewrite forallb_forall in H. apply Z.eqb_eq, H, in_map_iff.
  exists (Z.to_nat k). split; [lia|]. apply in_seq. lia.
Qed.

Lemma download_percent_start total : download_percent 0 total = 0.
Proof.
  unfold download_percent, truediv.
  destruct total as [|t|t]; reflexivity.
Qed.

(** X14. While between zero and all of the bytes of a stream of positive
    size are downloaded, both hooks report a percent between 40 and 80,
    with the message of the truncated percentage: 40 at the start and 80 at
    the end, as the report of [finished].  With a size of zero the yt-dlp
    hook raises and the PyTube hook reports nothing. *)
Theorem download_progress_stays_in_phase (downloaded total : Z) :
  0 <= downloaded <= total -> 0 < total ->
  let d := {| d_status := "downloading";
              d_downloaded_bytes := Some downloaded;
              d_total_bytes := Some total |} in
  let percent := download_percent downloaded total in
  progress_hook true d
  = Returned [(scaled_percent percent, downloading_message percent)]
  /\ _progress_hook total (total - downloaded) true
     = [(scaled_percent percent, downloading_message percent)]
  /\ 0 <= percent <= 100
  /\ 40 <= scaled_percent percent <= 80
  /\ scaled_percent percent = 40 + 2 * percent / 5
  /\ (downloaded = 0 -> scaled_percent percent = 40)
  /\ (downloaded = total -> scaled_percent percent = 80)
  /\ progress_hook true {| d_status := "finished";
                           d_downloaded_bytes := Some downloaded;
                           d_total_bytes := Some total |}
     = Returned [(80, "Processing audio..."%string)]
  /\ progress_hook true {| d_status := "downloading";
                           d_downloaded_bytes := Some downloaded;
                           d_total_bytes := Some 0 |}
     = Raised "division by zero"
  /\ _progress_hook 0 (- downloaded) true = [].
Proof.
  intros Hd Ht d percent.
  pose proof (download_percent_range downloaded total Hd Ht) as Hp.
  fold percent in Hp.
  assert (Hz : (total =? 0) = false) by (apply Z.eqb_neq; lia).
  split; [|split; [|split; [|split; [|split; [|split; [|split; [|split;
    [|split]]]]]]]].
  - unfold progress_hook, d. cbn. rewrite Hz. reflexivity.
  - unfold _progress_hook. cbv zeta. rewrite Hz.
    replace (total - (total - downloaded)) with downloaded by lia.
    reflexivity.
  - exact Hp.
  - apply scaled_percent_range, Hp.
  - apply scaled_percent_table, Hp.
  - intros ->. unfold percent. rewrite download_percent_start. reflexivity.
  - intros ->. unfold percent. rewrite (download_percent_complete total Ht).
    reflexivity.
  - reflexivity.
  - reflexivity.
  - reflexivity.
Qed.

End ProgressFacts.

Lemma download_progress_stays_in_phase_witness :
  progress_hook true {| d_status := "downloading";
                        d_downloaded_bytes := Some 29;
                        d_total_bytes := Some 100 |}
  = Returned [(51, "Downloading: 28%"%string)]
  /\ 40 <= scaled_percent (download_percent 29 100) <= 80.
Proof.
  split; [vm_compute; reflexivity|].
  pose proof (download_progress_stays_in_phase 29 100 ltac:(lia) ltac:(lia))
    as (_ & _ & _ & H & _).
  exact H.
Defined.

(** ** The download as a whole *)

Section DownloadFacts.

Local Open Scope string_scope.
Local Open Scope list_scope.

Variable matching : string -> string -> nat.
Variable new_session : outcome YTMusic.
Variable get_track_metadata : string -> outcome (option track_metadata).
Variable _download_audio :
  string -> string -> string -> bool -> list report * outcome (option string).
Variable lyrics_search : string -> outcome (option string).
Variable write_metadata :
  string -> track_metadata -> option string -> outcome bool.
Variable _move_to_output : string -> track_metadata -> option string.

Local Abbreviation download :=
  (download_track matching new_session get_track_metadata _download_audio
     lyrics_search write_metadata _move_to_output).
Local Abbreviation finish :=
  (finish_download lyrics_search write_metadata _move_to_output).

Ltac unfold_run :=
  cbn [dl_path dl_reports dl_requests failed _report_progress].

Ltac failure_leaf := unfold_run; eexists; apply last_snoc.

(** X15. With a callback, the first report of [download_track] is 5 and
    the last one tells the result: 100 with a path, which is the one
    [_move_to_output] gave for a file that [_download_audio] returned for
    the url of the match, after the tags were written; 0 with a message
    of failure without a path. *)
Theorem last_report_tells_the_result (track_id : string)
    (include_lyrics : bool) (log : list request) :
  let run := download track_id true include_lyrics log in
  head (dl_reports run) = Some (5, "Fetching Spotify metadata...")
  /\ match dl_path run with
     | Some path =>
         last (dl_reports run) = Some (100, "Complete!")
         /\ exists metadata youtube_result artist_name others progress
                   audio_file lyrics,
              get_track_metadata track_id = Returned (Some metadata)
              /\ fst (search matching new_session (md_title metadata)
                        (PyStr.join ", " (md_artists metadata))
                        (md_duration_ms metadata / 1000) 10 log)
                 = Some youtube_result
              /\ md_artists metadata = artist_name :: others
              /\ _download_audio (sv_url youtube_result) (md_title metadata)
                   artist_name true
                 = (progress, Returned (Some audio_file))
              /\ write_metadata audio_file metadata lyrics = Returned true
              /\ _move_to_output audio_file metadata = Some path
     | None =>
         exists message,
           last (dl_reports run) = Some (0, ("Failed: " ++ message)%string)
     end.
Proof.
  cbv zeta. unfold download_track, finish_download. cbv zeta.
  destruct (get_track_metadata track_id) as [[metadata|]|e] eqn:Eg;
    try (split; [reflexivity|failure_leaf]).
  destruct (search _ _ _ _ _ _ _) as [[b|] log'] eqn:Es;
    try (split; [reflexivity|failure_leaf]).
  destruct (md_artists metadata) as [|a others] eqn:Ea;
    try (split; [reflexivity|failure_leaf]).
  destruct (_download_audio _ _ _ _) as [progress [[audio|]|e]] eqn:Ed;
    try (split; [reflexivity|failure_leaf]).
  destruct include_lyrics;
    (destruct (write_metadata _ _ _) as [[|]|e] eqn:Ew;
       try (split; [reflexivity|failure_leaf]);
     destruct (_move_to_output _ _) as [path|] eqn:Em;
       try (split; [reflexivity|failure_leaf]);
     split; [reflexivity|];
     unfold_run; split; [apply last_snoc|];
     exists metadata, b, a, others, progress, audio;
     eexists; rewrite Ea, Es; repeat split; eauto).
Qed.

(** X16. A track for which the metadata lists no artist is never
    downloaded: the catalogue is searched with an empty artist name, and
    then the download stops, without a match as with one, before any
    collaborator of the later steps is used. *)
Theorem track_without_artist_is_not_downloaded (track_id : string)
    (metadata : track_metadata) (callback include_lyrics : bool)
    (log : list request) :
  get_track_metadata track_id = Returned (Some metadata) ->
  md_artists metadata = [] ->
  let found :=
    search matching new_session (md_title metadata) ""
      (md_duration_ms metadata / 1000) 10 log in
  let run := download track_id callback include_lyrics log in
  dl_path run = None
  /\ dl_requests run = snd found
  /\ (callback = true ->
      last (dl_reports run)
      = Some (0, match fst found with
                 | None => "Failed: No YouTube match found"
                 | Some _ => "Failed: list index out of range"
                 end))
  /\ (forall _download_audio' lyrics_search' write_metadata' _move_to_output',
        download_track matching new_session get_track_metadata
          _download_audio' lyrics_search' write_metadata' _move_to_output'
          track_id callback include_lyrics log
        = run).
Proof.
  intros Hg Ha. cbv zeta. unfold download_track. cbv zeta.
  rewrite Hg, Ha. cbn [PyStr.join].
  destruct (search _ _ _ _ _ _ _) as [[b|] log'];
    (split; [reflexivity|]; split; [reflexivity|];
     split; [intros ->; unfold_run; apply last_snoc|reflexivity]).
Qed.

(** X17. When the session cannot be created, or no candidate of the
    three passes of the search reaches the floor of 100 for the title, the
    artists joined by a comma and a space, and the duration in whole
    seconds, nothing is downloaded: the reports are 5, 20, 25 and the
    failure, and the only requests are the nine of the three passes, each
    with a limit of 10. *)
Theorem unmatched_track_is_not_downloaded (track_id : string)
    (metadata : track_metadata) (callback include_lyrics : bool)
    (log : list request) :
  get_track_metadata track_id = Returned (Some metadata) ->
  let track_name := md_title metadata in
  let artist_name := PyStr.join ", " (md_artists metadata) in
  let duration_seconds := md_duration_ms metadata / 1000 in
  match new_session with
  | Returned ytmusic =>
      forall v,
        In v (search_candidates ytmusic track_name artist_name 10 log) ->
        score_video matching v track_name artist_name duration_seconds < 100
  | Raised _ => True
  end ->
  download track_id callback include_lyrics log
  = {| dl_path := None;
       dl_reports :=
         _report_progress callback 5 "Fetching Spotify metadata..."
         ++ _report_progress callback 20 ("Found: " ++ track_name)%string
         ++ _report_progress callback 25 "Searching YouTube Music..."
         ++ _report_progress callback 0 "Failed: No YouTube match found";
       dl_requests :=
         match new_session with
         | Returned _ =>
             log
             ++ pass_requests (_build_search_query track_name "") 10
             ++ pass_requests (_build_search_query track_name artist_name) 10
             ++ pass_requests (_build_search_query artist_name track_name) 10
         | Raised _ => log
         end |}.
Proof.
  intros Hg. cbv zeta. intros Hs. unfold download_track. cbv zeta.
  rewrite Hg.
  destruct new_session as [yt|e].
  - rewrite (search_below_floor matching _ _ _ 10 yt log Hs).
    unfold failed. rewrite <- !app_assoc. reflexivity.
  - cbn [search ret]. unfold failed. rewrite <- !app_assoc. reflexivity.
Qed.

End DownloadFacts.

Lemma track_without_artist_is_not_downloaded_witness :
  dl_path
    (download_track Difflib.matching (Returned (always [official_190]))
       (fun _ => Returned (Some anonymous)) audio_in_cache no_lyrics
       tags_written moved "003vvx7Niy0yvhvHt4a68B" true true [])
  = None
  /\ dl_path
       (download_track Difflib.matching (Returned (always [official_190]))
          (fun _ => Returned (Some brightside)) audio_in_cache no_lyrics
          tags_written moved "003vvx7Niy0yvhvHt4a68B" true true [])
     = Some "downloads/The Killers/Hot Fuss/02 - Mr. Brightside.m4a"%string.
Proof.
  split; [|vm_compute; reflexivity].
  exact (proj1 (track_without_artist_is_not_downloaded Difflib.matching
                  (Returned (always [official_190]))
                  (fun _ => Returned (Some anonymous)) audio_in_cache no_lyrics
                  tags_written moved "003vvx7Niy0yvhvHt4a68B" anonymous
                  true true [] eq_refl eq_refl)).
Defined.

Lemma unmatched_track_is_not_downloaded_witness :
  download_track Difflib.matching (Returned (always [live_99]))
    (fun _ => Returned (Some brightside)) audio_in_cache no_lyrics
    tags_written moved "003vvx7Niy0yvhvHt4a68B" true true []
  = {| dl_path := None;
       dl_reports :=
         [(5, "Fetching Spotify metadata..."); (20, "Found: Mr. Brightside");
          (25, "Searching YouTube Music...");
          (0, "Failed: No YouTube match found")]%string;
       dl_requests :=
         pass_requests "Mr. Brightside" 10
         ++ pass_requests "Mr. Brightside The Killers" 10
         ++ pass_requests "The Killers Mr. Brightside" 10 |}.
Proof.
  exact (unmatched_track_is_not_downloaded Difflib.matching
           (Returned (always [live_99]))
           (fun _ => Returned (Some brightside)) audio_in_cache no_lyrics
           tags_written moved "003vvx7Niy0yvhvHt4a68B" brightside
           true true [] eq_refl live_99_below_floor).
Defined.

(** ** The download cache *)

Lemma get_cached_download_other file_exists now id id' cache :
  id' <> id ->
  snd (get_cached_download file_exists now id cache) !! id' = cache !! id'.
Proof.
  intros Hne. unfold get_cached_download.
  destruct (cache !! id) as [[p t]|]; [|reflexivity]. cbv zeta.
  destruct (CACHE_DURATION <? now - t);
    [|destruct (file_exists p)]; cbn [snd];
    try reflexivity; apply lookup_delete_ne; congruence.
Qed.

(** X18. A cached download is found again until it is more than 24
    hours old or its file is gone; then the lookup gives nothing, the
    entry is dropped and stays absent.  Whatever the cache, a path that
    is returned is the cached one, of a file that exists, cached at most
    24 hours ago, and the lookup of one id leaves the other ids as they
    were. *)
Theorem cached_download_round_trip (file_exists : string -> bool)
    (cache : gmap string (string * Z)) (id path : string)
    (cached_at now : Z) :
  let cache1 := cache_download cached_at id path cache in
  let lookup := get_cached_download file_exists now id cache1 in
  (now - cached_at <= CACHE_DURATION -> file_exists path = true ->
   lookup = (Some path, cache1))
  /\ (CACHE_DURATION < now - cached_at \/ file_exists path = false ->
      lookup = (None, delete id cache)
      /\ forall file_exists' now',
           get_cached_download file_exists' now' id (delete id cache)
           = (None, delete id cache))
  /\ (forall found,
        fst (get_cached_download file_exists now id cache) = Some found ->
        file_exists found = true
        /\ exists timestamp,
             cache !! id = Some (found, timestamp)
             /\ now - timestamp <= CACHE_DURATION)
  /\ (forall id', id' <> id ->
        snd (get_cached_download file_exists now id cache) !! id'
        = cache !! id').
Proof.
  cbv zeta. unfold cache_download.
  split; [|split; [|split]].
  - intros Hage Hfile. unfold get_cached_download.
    rewrite lookup_insert_eq. cbv zeta.
    destruct (Z.ltb_spec CACHE_DURATION (now - cached_at)); [lia|].
    rewrite Hfile. reflexivity.
  - intros H. split.
    + unfold get_cached_download. rewrite lookup_insert_eq. cbv zeta.
      rewrite delete_insert_eq.
      destruct (Z.ltb_spec CACHE_DURATION (now - cached_at)); [reflexivity|].
      destruct H as [H|H]; [lia|]. rewrite H. reflexivity.
    + intros file_exists' now'. unfold get_cached_download.
      rewrite lookup_delete_eq. reflexivity.
  - intros found. unfold get_cached_download.
    destruct (cache !! id) as [[p t]|]; [|discriminate]. cbv zeta.
    destruct (Z.ltb_spec CACHE_DURATION (now - t)); [discriminate|].
    destruct (file_exists p) eqn:E; [|discriminate].
    cbn. intros [= <-]. split; [exact E|]. exists t. split; [reflexivity|lia].
  - intros id'. apply get_cached_download_other.
Qed.

Lemma cached_download_round_trip_witness :
  get_cached_download (fun _ => true) CACHE_DURATION "id1"
    (cache_download 0 "id1" "downloads/a.m4a" ∅)
  = (Some "downloads/a.m4a"%string, cache_download 0 "id1" "downloads/a.m4a" ∅)
  /\ get_cached_download (fun _ => true) (CACHE_DURATION + 1) "id1"
       (cache_download 0 "id1" "downloads/a.m4a" ∅)
     = (None, delete "id1" (∅ : gmap string (string * Z))).
Proof.
  pose proof (cached_download_round_trip (fun _ => true) ∅ "id1"
                "downloads/a.m4a" 0 CACHE_DURATION) as (Hhit & _).
  pose proof (cached_download_round_trip (fun _ => true) ∅ "id1"
                "downloads/a.m4a" 0 (CACHE_DURATION + 1)) as (_ & Hmiss & _).
  split.
  - apply Hhit; [vm_compute; discriminate|reflexivity].
  - apply Hmiss. left. vm_compute. reflexivity.
Defined.

(** ** The age of a download *)

Section AgeFacts.

Import PyFloat FloatFacts.

(** The quotient of two positive floats between two dyadic bounds. *)
Lemma SFdiv_le m1 e1 m2 e2 Bn Bk :
  e1 <= 0 -> e2 <= 0 -> 0 < Bn < 2 ^ 53 -> 0 <= Bk <= 1074 ->
  Z.pos m1 * 2 ^ (- e2) * 2 ^ Bk <= Bn * Z.pos m2 * 2 ^ (- e1) ->
  le_dyadic (SFdiv prec emax (S754_finite false m1 e1) (S754_finite false m2 e2))
            Bn Bk.
Proof.
  intros He1 He2 HBn HBk Hle.
  unfold SFdiv, SFdiv_core_binary. cbn [xorb].
  set (d1 := Zdigits2 (Z.pos m1)). set (d2 := Zdigits2 (Z.pos m2)).
  assert (Hd2 : Z.pos m2 < 2 ^ d2) by (apply Zdigits2_gt; lia).
  assert (Hd2' : 0 <= d2) by (unfold d2; simpl; lia).
  assert (P1 : 0 < 2 ^ (- e1)) by (apply Z.pow_pos_nonneg; lia).
  assert (P2 : 0 < 2 ^ (- e2)) by (apply Z.pow_pos_nonneg; lia).
  assert (PB : 0 < 2 ^ Bk) by (apply Z.pow_pos_nonneg; lia).
  assert (Hd1 : d1 <= 53 + d2 - e1 + e2 - Bk).
  { assert (Hlt : Z.pos m1 * 2 ^ (- e2 + Bk) < 2 ^ (53 + d2 - e1)).
    { rewrite Z.pow_add_r by lia.
      replace (53 + d2 - e1) with (53 + d2 + - e1) by lia.
      rewrite !Z.pow_add_r by lia.
      assert (HX : Bn * Z.pos m2 < 2 ^ 53 * 2 ^ d2).
      { assert (0 < 2 ^ d2) by (apply Z.pow_pos_nonneg; lia). nia. }
      apply (Z.mul_lt_mono_pos_r (2 ^ (- e1))) in HX; [|exact P1].
      lia. }
    destruct (Z_lt_le_dec (53 + d2 - e1 + e2 - Bk) 0) as [Hneg|Hpos].
    - exfalso.
      assert (HXY : 2 ^ (53 + d2 - e1) <= 2 ^ (- e2 + Bk))
        by (apply Z.pow_le_mono_r; lia).
      assert (HY : 0 < 2 ^ (- e2 + Bk)) by (apply Z.pow_pos_nonneg; lia).
      assert (HmY : 1 * 2 ^ (- e2 + Bk) <= Z.pos m1 * 2 ^ (- e2 + Bk))
        by (apply Z.mul_le_mono_nonneg_r; lia).
      lia.
    - apply Zdigits2_le; try lia.
      replace (53 + d2 - e1) with ((53 + d2 - e1 + e2 - Bk) + (- e2 + Bk))
        in Hlt by lia.
      rewrite (Z.pow_add_r 2 (53 + d2 - e1 + e2 - Bk) (- e2 + Bk)) in Hlt
        by lia.
      assert (HY : 0 < 2 ^ (- e2 + Bk)) by (apply Z.pow_pos_nonneg; lia).
      apply Z.mul_lt_mono_pos_r in Hlt; [exact Hlt|exact HY]. }
  assert (Hf : fexp prec emax (d1 + e1 - (d2 + e2)) <= - Bk)
    by (apply fexp_le; lia).
  set (e' := Z.min (fexp prec emax (d1 + e1 - (d2 + e2))) (e1 - e2)) in *.
  assert (He' : e' <= - Bk) by (unfold e'; lia).
  assert (Hs : 0 <= e1 - e2 - e') by (unfold e'; lia).
  set (m' := match e1 - e2 - e' with
             | 0 => Z.pos m1
             | Z.pos _ => Z.shiftl (Z.pos m1) (e1 - e2 - e')
             | Z.neg _ => 0
             end).
  assert (Hm' : m' = Z.pos m1 * 2 ^ (e1 - e2 - e')).
  { unfold m'. destruct (e1 - e2 - e') as [|s|s] eqn:Es; try lia.
    rewrite Z.shiftl_mul_pow2 by lia. reflexivity. }
  pose proof (Z.div_mod m' (Z.pos m2) ltac:(lia)) as Hdm.
  pose proof (Z.mod_pos_bound m' (Z.pos m2) ltac:(lia)) as Hmb.
  unfold Z.div, Z.modulo in Hdm, Hmb.
  destruct (Z.div_eucl m' (Z.pos m2)) as [q r]. cbn [fst snd] in Hdm, Hmb.
  assert (PE : 0 < 2 ^ (- e' - Bk)) by (apply Z.pow_pos_nonneg; lia).
  assert (PS : 0 < 2 ^ (e1 - e2 - e')) by (apply Z.pow_pos_nonneg; lia).
  assert (Hsplit : 2 ^ (e1 - e2 - e') * 2 ^ (- e1)
                   = 2 ^ (- e2) * 2 ^ (- e' - Bk) * 2 ^ Bk).
  { rewrite <- !Z.pow_add_r by lia. f_equal. lia. }
  assert (HT : m' <= Z.pos m2 * (Bn * 2 ^ (- e' - Bk))).
  { rewrite Hm'.
    assert (Z.pos m1 * 2 ^ (e1 - e2 - e') * 2 ^ (- e1)
            <= Z.pos m2 * (Bn * 2 ^ (- e' - Bk)) * 2 ^ (- e1)); [|nia].
    replace (Z.pos m1 * 2 ^ (e1 - e2 - e') * 2 ^ (- e1))
      with (Z.pos m1 * (2 ^ (e1 - e2 - e') * 2 ^ (- e1))) by ring.
    rewrite Hsplit. nia. }
  assert (Hq0 : 0 <= q) by nia.
  apply binary_round_aux_le; try lia.
  destruct (Z_lt_le_dec q (Bn * 2 ^ (- e' - Bk))) as [Hlt|Hge];
    [left; exact Hlt|right].
  assert (Hqe : q = Bn * 2 ^ (- e' - Bk)) by nia.
  split; [exact Hqe|].
  assert (r = 0) by nia. subst r. apply new_location_0.
Qed.

Lemma SFdiv_ge m1 e1 m2 e2 Bn Bk Ln Lk :
  e1 <= 0 -> e2 <= 0 -> 0 < Bn < 2 ^ 53 -> 0 <= Bk <= 1074 ->
  Z.pos m1 * 2 ^ (- e2) * 2 ^ Bk <= Bn * Z.pos m2 * 2 ^ (- e1) ->
  0 < Ln -> 0 <= Lk <= Bk ->
  Ln * Z.pos m2 * 2 ^ (- e1) <= Z.pos m1 * 2 ^ (- e2) * 2 ^ Lk ->
  ge_dyadic (SFdiv prec emax (S754_finite false m1 e1) (S754_finite false m2 e2))
            Ln Lk.
Proof.
  intros He1 He2 HBn HBk Hle HLn HLk Hge.
  unfold SFdiv, SFdiv_core_binary. cbn [xorb].
  set (d1 := Zdigits2 (Z.pos m1)). set (d2 := Zdigits2 (Z.pos m2)).
  assert (Hd2 : Z.pos m2 < 2 ^ d2) by (apply Zdigits2_gt; lia).
  assert (Hd2' : 0 <= d2) by (unfold d2; simpl; lia).
  assert (P1 : 0 < 2 ^ (- e1)) by (apply Z.pow_pos_nonneg; lia).
  assert (P2 : 0 < 2 ^ (- e2)) by (apply Z.pow_pos_nonneg; lia).
  assert (PB : 0 < 2 ^ Bk) by (apply Z.pow_pos_nonneg; lia).
  assert (PL : 0 < 2 ^ Lk) by (apply Z.pow_pos_nonneg; lia).
  assert (Hd1 : d1 <= 53 + d2 - e1 + e2 - Bk).
  { assert (Hlt : Z.pos m1 * 2 ^ (- e2 + Bk) < 2 ^ (53 + d2 - e1)).
    { rewrite Z.pow_add_r by lia.
      replace (53 + d2 - e1) with (53 + d2 + - e1) by lia.
      rewrite !Z.pow_add_r by lia.
      assert (HX : Bn * Z.pos m2 < 2 ^ 53 * 2 ^ d2).
      { assert (0 < 2 ^ d2) by (apply Z.pow_pos_nonneg; lia). nia. }
      apply (Z.mul_lt_mono_pos_r (2 ^ (- e1))) in HX; [|exact P1].
      lia. }
    destruct (Z_lt_le_dec (53 + d2 - e1 + e2 - Bk) 0) as [Hneg|Hpos].
    - exfalso.
      assert (HXY : 2 ^ (53 + d2 - e1) <= 2 ^ (- e2 + Bk))
        by (apply Z.pow_le_mono_r; lia).
      assert (HY : 0 < 2 ^ (- e2 + Bk)) by (apply Z.pow_pos_nonneg; lia).
      assert (HmY : 1 * 2 ^ (- e2 + Bk) <= Z.pos m1 * 2 ^ (- e2 + Bk))
        by (apply Z.mul_le_mono_nonneg_r; lia).
      lia.
    - apply Zdigits2_le; try lia.
      replace (53 + d2 - e1) with ((53 + d2 - e1 + e2 - Bk) + (- e2 + Bk))
        in Hlt by lia.
      rewrite (Z.pow_add_r 2 (53 + d2 - e1 + e2 - Bk) (- e2 + Bk)) in Hlt
        by lia.
      assert (HY : 0 < 2 ^ (- e2 + Bk)) by (apply Z.pow_pos_nonneg; lia).
      apply Z.mul_lt_mono_pos_r in Hlt; [exact Hlt|exact HY]. }
  assert (Hf : fexp prec emax (d1 + e1 - (d2 + e2)) <= - Bk)
    by (apply fexp_le; lia).
  set (e' := Z.min (fexp prec emax (d1 + e1 - (d2 + e2))) (e1 - e2)) in *.
  assert (He' : e' <= - Bk) by (unfold e'; lia).
  assert (Hs : 0 <= e1 - e2 - e') by (unfold e'; lia).
  set (m' := match e1 - e2 - e' with
             | 0 => Z.pos m1
             | Z.pos _ => Z.shiftl (Z.pos m1) (e1 - e2 - e')
             | Z.neg _ => 0
             end).
  assert (Hm' : m' = Z.pos m1 * 2 ^ (e1 - e2 - e')).
  { unfold m'. destruct (e1 - e2 - e') as [|s|s] eqn:Es; try lia.
    rewrite Z.shiftl_mul_pow2 by lia. reflexivity. }
  pose proof (Z.div_mod m' (Z.pos m2) ltac:(lia)) as Hdm.
  pose proof (Z.mod_pos_bound m' (Z.pos m2) ltac:(lia)) as Hmb.
  unfold Z.div, Z.modulo in Hdm, Hmb.
  destruct (Z.div_eucl m' (Z.pos m2)) as [q r]. cbn [fst snd] in Hdm, Hmb.
  assert (PE : 0 < 2 ^ (- e' - Bk)) by (apply Z.pow_pos_nonneg; lia).
  assert (PEL : 0 < 2 ^ (- e' - Lk)) by (apply Z.pow_pos_nonneg; lia).
  assert (PS : 0 < 2 ^ (e1 - e2 - e')) by (apply Z.pow_pos_nonneg; lia).
  assert (Hsplit : 2 ^ (e1 - e2 - e') * 2 ^ (- e1)
                   = 2 ^ (- e2) * 2 ^ (- e' - Bk) * 2 ^ Bk).
  { rewrite <- !Z.pow_add_r by lia. f_equal. lia. }
  assert (Hsplit' : 2 ^ (e1 - e2 - e') * 2 ^ (- e1)
                    = 2 ^ (- e2) * 2 ^ (- e' - Lk) * 2 ^ Lk).
  { rewrite <- !Z.pow_add_r by lia. f_equal. lia. }
  assert (HT : m' <= Z.pos m2 * (Bn * 2 ^ (- e' - Bk))).
  { rewrite Hm'.
    assert (Z.pos m1 * 2 ^ (e1 - e2 - e') * 2 ^ (- e1)
            <= Z.pos m2 * (Bn * 2 ^ (- e' - Bk)) * 2 ^ (- e1)); [|nia].
    replace (Z.pos m1 * 2 ^ (e1 - e2 - e') * 2 ^ (- e1))
      with (Z.pos m1 * (2 ^ (e1 - e2 - e') * 2 ^ (- e1))) by ring.
    rewrite Hsplit. nia. }
  assert (HL : Z.pos m2 * (Ln * 2 ^ (- e' - Lk)) <= m').
  { rewrite Hm'.
    assert (Z.pos m2 * (Ln * 2 ^ (- e' - Lk)) * 2 ^ (- e1)
            <= Z.pos m1 * 2 ^ (e1 - e2 - e') * 2 ^ (- e1)); [|nia].
    replace (Z.pos m1 * 2 ^ (e1 - e2 - e') * 2 ^ (- e1))
      with (Z.pos m1 * (2 ^ (e1 - e2 - e') * 2 ^ (- e1))) by ring.
    rewrite Hsplit'. nia. }
  assert (Hq0 : 0 <= q) by nia.
  apply (binary_round_aux_ge Bn Bk); try lia.
  - destruct (Z_lt_le_dec q (Bn * 2 ^ (- e' - Bk))) as [Hlt|Hge'];
      [left; exact Hlt|right].
    assert (Hqe : q = Bn * 2 ^ (- e' - Bk)) by nia.
    split; [exact Hqe|].
    assert (r = 0) by nia. subst r. apply new_location_0.
  - destruct (Z_lt_le_dec q (Ln * 2 ^ (- e' - Lk))); [|lia]. nia.
Qed.

Lemma of_int_3600 : of_int 3600 = S754_finite false 7916483719987200 (-41).
Proof. reflexivity. Qed.

Lemma binary_round_aux_negative mx ex lx :
  not_positive (binary_round_aux prec emax true mx ex lx).
Proof.
  unfold binary_round_aux.
  destruct (shr_fexp prec emax mx ex lx) as [mrs e].
  destruct (shr_fexp prec emax _ e loc_Exact) as [mrs' e'].
  destruct (shr_m mrs'); [exact I| |exact I].
  destruct (e' <=? emax - prec); reflexivity.
Qed.

Lemma gt_int_not_positive x n : 0 <= n -> not_positive x -> gt_int x n = false.
Proof.
  intros Hn. destruct x as [s|s| |s m e]; cbn [not_positive gt_int]; intros Hx.
  - apply Z.ltb_ge, Hn.
  - subst s. reflexivity.
  - reflexivity.
  - subst s. cbn [cond_Zopp].
    destruct e as [|p|p]; apply Z.ltb_ge.
    + rewrite ?Z.pow_0_r. lia.
    + assert (0 < 2 ^ Z.pos p) by (apply Z.pow_pos_nonneg; lia).
      assert (0 <= Z.pos m * 2 ^ Z.pos p) by nia. lia.
    + assert (0 < 2 ^ Z.pos p) by (apply Z.pow_pos_nonneg; lia).
      assert (0 <= n * 2 ^ Z.pos p) by nia. lia.
Qed.

Lemma gt_int_le x n : 0 <= n -> le_dyadic x n 0 -> gt_int x n = false.
Proof.
  intros Hn. destruct x as [s|s| |[|] m e]; cbn [le_dyadic gt_int];
    intros Hx; try contradiction.
  - apply Z.ltb_ge, Hn.
  - destruct Hx as [He Hm]. rewrite Z.sub_0_r in Hm. cbn [cond_Zopp].
    destruct e as [|p|p]; try lia. apply Z.ltb_ge. exact Hm.
Qed.

Lemma gt_int_ge x n k :
  0 <= n -> 0 <= k -> ge_dyadic x (n * 2 ^ k + 1) k -> gt_int x n = true.
Proof.
  intros Hn Hk. destruct x as [s|s| |[|] m e]; cbn [ge_dyadic gt_int];
    intros Hx; try contradiction.
  destruct Hx as (He & Hm & _). cbn [cond_Zopp].
  assert (Pk : 0 < 2 ^ k) by (apply Z.pow_pos_nonneg; lia).
  assert (Pe : 0 < 2 ^ (- e - k)) by (apply Z.pow_pos_nonneg; lia).
  destruct e as [|p|p]; try lia; apply Z.ltb_lt.
  - assert (k = 0) by lia. subst k.
    change (- 0 - 0) with 0 in Hm. rewrite Z.pow_0_r in Hm.
    rewrite ?Z.pow_0_r in *. lia.
  - replace (2 ^ Z.pos p) with (2 ^ k * 2 ^ (- Z.neg p - k))
      by (rewrite <- Z.pow_add_r by lia; f_equal; lia).
    nia.
Qed.

(** An age of at most [max_age_hours] hours is not greater for the test. *)
Lemma age_not_greater now start_time max_age_hours :
  0 <= max_age_hours < 2 ^ 40 ->
  now - start_time <= max_age_hours * 3600000000 ->
  gt_int (age_hours now start_time) max_age_hours = false.
Proof.
  intros HM Hage. unfold age_hours, truediv. rewrite of_int_3600.
  set (x := now - start_time) in *.
  destruct x as [|x|x]; cbn [Z2SF].
  - apply gt_int_not_positive; [lia|exact I].
  - assert (H1 : 1 <= max_age_hours) by lia.
    assert (Hy : le_dyadic (truediv (Z.pos x) 1000000)
                   (3600 * max_age_hours) 0)
      by (apply truediv_le; lia).
    unfold truediv in Hy. cbn [Z2SF] in Hy.
    destruct (SFdiv prec emax (S754_finite false x 0)
                (S754_finite false 1000000 0)) as [s|s| |[|] m e];
      simpl in Hy; try contradiction.
    + apply gt_int_le; [lia|exact I].
    + destruct Hy as [He Hm]. rewrite Z.sub_0_r in Hm.
      apply gt_int_le; [lia|].
      assert (P : 0 < 2 ^ (- e)) by (apply Z.pow_pos_nonneg; lia).
      apply SFdiv_le; try lia;
        try (change (2 ^ (- -41)) with 2199023255552; rewrite ?Z.pow_0_r;
             nia).
  - apply gt_int_not_positive; [lia|].
    unfold SFdiv at 2. cbn [xorb].
    destruct (SFdiv_core_binary prec emax (Z.pos x) 0 1000000 0)
      as [[mz ez] lz].
    pose proof (binary_round_aux_negative mz ez lz) as Hneg.
    destruct (binary_round_aux prec emax true mz ez lz) as [s|s| |s m e];
      simpl in Hneg; try subst s; cbn [SFdiv xorb]; try exact I;
      try reflexivity.
    destruct (SFdiv_core_binary prec emax (Z.pos m) e 7916483719987200 (-41))
      as [[mz' ez'] lz'].
    apply binary_round_aux_negative.
Qed.

(** An age of a second more than [max_age_hours] hours is greater. *)
Lemma age_greater now start_time max_age_hours :
  0 <= max_age_hours ->
  max_age_hours * 3600000000 + 1000000 <= now - start_time ->
  now - start_time <= 2 ^ 52 * 1000000 ->
  gt_int (age_hours now start_time) max_age_hours = true.
Proof.
  intros HM Hlow Hhigh. unfold age_hours, truediv. rewrite of_int_3600.
  set (x := now - start_time) in *.
  destruct x as [|x|x]; cbn [Z2SF]; try lia.
  assert (Hge : ge_dyadic (SFdiv prec emax (S754_finite false x 0)
                             (S754_finite false 1000000 0))
                  (3600 * max_age_hours + 1) 0).
  { apply (SFdiv_ge _ _ _ _ (2 ^ 52) 0); rewrite ?Z.pow_0_r; lia. }
  assert (Hle : le_dyadic (SFdiv prec emax (S754_finite false x 0)
                             (S754_finite false 1000000 0))
                  (2 ^ 52) 0).
  { apply SFdiv_le; rewrite ?Z.pow_0_r; lia. }
  destruct (SFdiv prec emax (S754_finite false x 0)
              (S754_finite false 1000000 0)) as [s|s| |[|] m e];
    simpl in Hge, Hle; try contradiction.
  destruct Hge as (He & Hm & _). destruct Hle as [_ Hm'].
  rewrite Z.sub_0_r in Hm, Hm'.
  assert (P : 0 < 2 ^ (- e)) by (apply Z.pow_pos_nonneg; lia).
  apply (gt_int_ge _ _ 12); try lia.
  change (2 ^ 12) with 4096.
  change (2 ^ 52) with 4503599627370496 in Hm'.
  apply (SFdiv_ge _ _ _ _ (2 ^ 53 - 1) 12); try lia;
    change (2 ^ (- -41)) with 2199023255552; change (2 ^ 12) with 4096;
    change (2 ^ 53) with 9007199254740992; nia.
Qed.

End AgeFacts.

(** ** The progress tracker *)

Section TrackerFacts.

Lemma put_range m qs queue :
  0 <= m_progress m <= 100 ->
  (forall q sent x, qs !! q = Some sent -> In x sent -> 0 <= m_progress x <= 100) ->
  forall q sent x, put m qs queue !! q = Some sent -> In x sent ->
                   0 <= m_progress x <= 100.
Proof.
  intros Hm Hqs q sent x. unfold put.
  destruct (decide (q = queue)) as [->|Hne].
  - rewrite lookup_insert_eq. intros [= <-] Hx.
    apply in_app_iff in Hx. destruct Hx as [Hx|[<-|[]]]; [|exact Hm].
    destruct (qs !! queue) as [old|] eqn:E; [|destruct Hx].
    exact (Hqs _ _ _ E Hx).
  - rewrite lookup_insert_ne by congruence. apply Hqs.
Qed.

Lemma put_all_range m subscribers : forall qs,
  0 <= m_progress m <= 100 ->
  (forall q sent x, qs !! q = Some sent -> In x sent -> 0 <= m_progress x <= 100) ->
  forall q sent x, put_all subscribers m qs !! q = Some sent -> In x sent ->
                   0 <= m_progress x <= 100.
Proof.
  unfold put_all. induction subscribers as [|s r IH]; intros qs Hm Hqs;
    [exact Hqs|].
  simpl. apply IH; [exact Hm|]. apply put_range; assumption.
Qed.

Lemma lookup_pop_all {A : Type} (to_remove : list string) (d : gmap string A) k :
  pop_all to_remove d !! k = if decide (k ∈ to_remove) then None else d !! k.
Proof.
  unfold pop_all. induction to_remove as [|x r IH]; simpl.
  - destruct (decide (k ∈ [])) as [H|_]; [inversion H|reflexivity].
  - destruct (decide (x = k)) as [->|Hne].
    + rewrite lookup_delete_eq.
      destruct (decide (k ∈ k :: r)) as [_|H]; [reflexivity|].
      exfalso. apply H. left.
    + rewrite lookup_delete_ne by exact Hne. rewrite IH.
      destruct (decide (k ∈ r)) as [Hin|Hout];
        destruct (decide (k ∈ x :: r)) as [H|H]; try reflexivity.
      * exfalso. apply H. right. exact Hin.
      * apply elem_of_cons in H. destruct H as [H|H]; congruence.
Qed.

Lemma after_call_range self c :
  progress_in_range self -> progress_in_range (after_call self c).
Proof.
  intros [Hp Hq]. destruct c as [now id|now id p s|now id ok e|now id|id q|now age];
    cbn [after_call].
  - split; [|exact Hq]. cbn. intros k v.
    destruct (decide (k = id)) as [->|Hne].
    + rewrite lookup_insert_eq. intros [= <-]. lia.
    + rewrite lookup_insert_ne by congruence. apply Hp.
  - split; cbn.
    + intros k v. destruct (decide (k = id)) as [->|Hne].
      * rewrite lookup_insert_eq. intros [= <-]. lia.
      * rewrite lookup_insert_ne by congruence. apply Hp.
    + destruct (_subscribers self !! id) as [subs|]; [|exact Hq].
      match goal with
      | |- context [match ?x with Some _ => _ | None => _ end] =>
          destruct x as [cur|]; [|exact Hq]
      end.
      apply put_all_range; [cbn; lia|exact Hq].
  - assert (Hp' : forall k v,
               (if ok then <[id := 100]> (_progress self) else _progress self)
                 !! k = Some v -> 0 <= v <= 100).
    { intros k v. destruct ok; [|apply Hp].
      destruct (decide (k = id)) as [->|Hne].
      - rewrite lookup_insert_eq. intros [= <-]. lia.
      - rewrite lookup_insert_ne by congruence. apply Hp. }
    unfold complete_download. cbv zeta.
    destruct (_subscribers self !! id) as [subs|]; [|split; [exact Hp'|exact Hq]].
    destruct ((if ok then <[id:=100]> (_progress self) else _progress self) !! id)
      as [cur|] eqn:Ec; [|split; [exact Hp'|exact Hq]].
    match goal with
    | |- context [match ?x with Some _ => _ | None => _ end] =>
        destruct x as [cs|]; [|split; [exact Hp'|exact Hq]]
    end.
    split; [exact Hp'|]. cbn.
    apply put_all_range; [cbn; exact (Hp' _ _ Ec)|exact Hq].
  - split; [exact Hp|]. cbn.
    assert (H0 : forall q sent x,
               <[next_queue self := []]> (queues self) !! q = Some sent ->
               In x sent -> 0 <= m_progress x <= 100).
    { intros q sent x. destruct (decide (q = next_queue self)) as [->|Hne].
      - rewrite lookup_insert_eq. intros [= <-] [].
      - rewrite lookup_insert_ne by congruence. apply Hq. }
    destruct (_progress self !! id) as [cur|] eqn:Ec; [|exact H0].
    apply put_range; [cbn; exact (Hp _ _ Ec)|exact H0].
  - unfold unsubscribe. destruct (_subscribers self !! id); split; assumption.
  - split; [|exact Hq]. cbn. intros k v. rewrite lookup_pop_all.
    match goal with
    | |- context [decide ?P] => destruct (decide P); [discriminate|apply Hp]
    end.
Qed.

(** X19. Whatever methods were called on a tracker, with whatever
    arguments, every progress it stores and every progress it has put on
    a queue lies between 0 and 100, and so does [get_progress] for every
    download. *)
Theorem tracker_progress_is_a_percentage (calls : list call)
    (download_id : string) :
  progress_in_range (after_calls calls)
  /\ 0 <= get_progress (after_calls calls) download_id <= 100.
Proof.
  assert (H : progress_in_range (after_calls calls)).
  { unfold after_calls.
    assert (H0 : progress_in_range new_tracker).
    { split.
      - intros k v. cbn. rewrite lookup_empty. discriminate.
      - intros q sent m. cbn. rewrite lookup_empty. discriminate. }
    revert H0. generalize new_tracker.
    induction calls as [|c r IH]; intros self H0; [exact H0|].
    simpl. apply IH, after_call_range, H0. }
  split; [exact H|]. unfold get_progress.
  destruct (_progress (after_calls calls) !! download_id) as [v|] eqn:E;
    [exact (proj1 H _ _ E)|cbn; lia].
Qed.

(** *** Cleaning up *)

Lemma to_remove_spec self now max_age_hours k :
  k ∈ List.filter (to_be_removed self now max_age_hours)
        (map fst (map_to_list (_start_times self)))
  <-> to_be_removed self now max_age_hours k = true.
Proof.
  rewrite list_elem_of_In, filter_In, <- list_elem_of_In. split; [tauto|].
  intros H. split; [|exact H].
  unfold to_be_removed in H.
  destruct (_start_times self !! k) as [t|] eqn:E; [|discriminate].
  apply list_elem_of_fmap. exists (k, t). split; [reflexivity|].
  apply elem_of_map_to_list. exact E.
Qed.

Lemma size_pop_all {A : Type} (to_remove : list string) (d : gmap string A) :
  NoDup to_remove -> (forall k, k ∈ to_remove -> is_Some (d !! k)) ->
  (size (pop_all to_remove d) + length to_remove = size d)%nat.
Proof.
  unfold pop_all. induction to_remove as [|x r IH]; intros Hnd Hin; simpl;
    [lia|].
  apply NoDup_cons in Hnd. destruct Hnd as [Hx Hr].
  assert (Hsome : is_Some (fold_right delete d r !! x)).
  { fold (pop_all r d). rewrite lookup_pop_all.
    destruct (decide (x ∈ r)); [contradiction|]. apply Hin. left. }
  rewrite (map_size_delete_Some _ _ Hsome).
  specialize (IH Hr (fun k Hk => Hin k (list_elem_of_further _ _ _ Hk))).
  assert (size (fold_right delete d r) <> 0%nat).
  { intros H0. apply map_size_empty_iff in H0. rewrite H0 in Hsome.
    rewrite lookup_empty in Hsome. destruct Hsome as [? [=]]. }
  lia.
Qed.

(** X20. [cleanup_old_downloads] forgets a download in all six
    dictionaries or keeps all its entries, as its test says.  Times are
    in microseconds, an hour is 3600000000 of them.  A start time that
    it forgets is one of a completed download and lies more than
    [max_age_hours] hours before [now]; a completed download started a
    second more than [max_age_hours] hours before [now], or earlier, is
    forgotten in all six dictionaries; a download started at most
    [max_age_hours] hours before [now] keeps all its entries.  A
    download that is not completed, or that was never started, is never
    removed; the active downloads stay the same; the number returned is
    the number of start times removed. *)
Theorem cleanup_forgets_old_completed_downloads (now max_age_hours : Z)
    (self : ProgressTracker) (download_id : string) :
  let removed := fst (cleanup_old_downloads now max_age_hours self) in
  let self' := snd (cleanup_old_downloads now max_age_hours self) in
  (to_be_removed self now max_age_hours download_id = true ->
   _progress self' !! download_id = None
   /\ _status self' !! download_id = None
   /\ _subscribers self' !! download_id = None
   /\ _completed self' !! download_id = None
   /\ _errors self' !! download_id = None
   /\ _start_times self' !! download_id = None)
  /\ (to_be_removed self now max_age_hours download_id = false ->
      _progress self' !! download_id = _progress self !! download_id
      /\ _status self' !! download_id = _status self !! download_id
      /\ _subscribers self' !! download_id = _subscribers self !! download_id
      /\ _completed self' !! download_id = _completed self !! download_id
      /\ _errors self' !! download_id = _errors self !! download_id
      /\ _start_times self' !! download_id = _start_times self !! download_id)
  /\ (forall start_time,
        0 <= max_age_hours < 2 ^ 40 ->
        _start_times self !! download_id = Some start_time ->
        _start_times self' !! download_id = None ->
        _completed self !! download_id = Some true
        /\ max_age_hours * 3600000000 < now - start_time)
  /\ (forall start_time,
        0 <= max_age_hours ->
        _start_times self !! download_id = Some start_time ->
        _completed self !! download_id = Some true ->
        max_age_hours * 3600000000 + 1000000 <= now - start_time ->
        now - start_time <= 2 ^ 52 * 1000000 ->
        _progress self' !! download_id = None
        /\ _status self' !! download_id = None
        /\ _subscribers self' !! download_id = None
        /\ _completed self' !! download_id = None
        /\ _errors self' !! download_id = None
        /\ _start_times self' !! download_id = None)
  /\ (forall start_time,
        0 <= max_age_hours < 2 ^ 40 ->
        _start_times self !! download_id = Some start_time ->
        now - start_time <= max_age_hours * 3600000000 ->
        _progress self' !! download_id = _progress self !! download_id
        /\ _status self' !! download_id = _status self !! download_id
        /\ _subscribers self' !! download_id = _subscribers self !! download_id
        /\ _completed self' !! download_id = _completed self !! download_id
        /\ _errors self' !! download_id = _errors self !! download_id
        /\ _start_times self' !! download_id = _start_times self !! download_id)
  /\ (is_completed self download_id = false ->
      to_be_removed self now max_age_hours download_id = false)
  /\ (_start_times self !! download_id = None ->
      to_be_removed self now max_age_hours download_id = false)
  /\ get_active_downloads self' = get_active_downloads self
  /\ removed
     = Z.of_nat (size (_start_times self)) - Z.of_nat (size (_start_times self')).
Proof.
  cbv zeta. unfold cleanup_old_downloads. cbn [fst snd].
  cbn [_progress _status _subscribers _completed _errors _start_times].
  set (to_remove := List.filter (to_be_removed self now max_age_hours)
                       (map fst (map_to_list (_start_times self)))).
  assert (Hgone : to_be_removed self now max_age_hours download_id = true ->
    pop_all to_remove (_progress self)
      !! download_id = None
    /\ pop_all to_remove (_status self)
         !! download_id = None
    /\ pop_all to_remove (_subscribers self)
         !! download_id = None
    /\ pop_all to_remove (_completed self)
         !! download_id = None
    /\ pop_all to_remove (_errors self)
         !! download_id = None
    /\ pop_all to_remove (_start_times self)
         !! download_id = None).
  { intros H. apply to_remove_spec in H. rewrite !lookup_pop_all.
    destruct (decide _) as [_|Hn]; [|contradiction]. repeat split. }
  assert (Hkept : to_be_removed self now max_age_hours download_id = false ->
    pop_all to_remove (_progress self)
      !! download_id = _progress self !! download_id
    /\ pop_all to_remove (_status self)
         !! download_id = _status self !! download_id
    /\ pop_all to_remove (_subscribers self)
         !! download_id = _subscribers self !! download_id
    /\ pop_all to_remove (_completed self)
         !! download_id = _completed self !! download_id
    /\ pop_all to_remove (_errors self)
         !! download_id = _errors self !! download_id
    /\ pop_all to_remove (_start_times self)
         !! download_id = _start_times self !! download_id).
  { intros H. rewrite !lookup_pop_all.
    destruct (decide _) as [Hin|_]; [|repeat split].
    apply to_remove_spec in Hin. congruence. }
  subst to_remove.
  split; [exact Hgone|]. split; [exact Hkept|].
  split; [|split; [|split; [|split; [|split; [|split]]]]].
  - intros start_time HM Hs Hnone.
    destruct (to_be_removed self now max_age_hours download_id) eqn:Hr.
    + unfold to_be_removed in Hr. rewrite Hs in Hr.
      apply andb_true_iff in Hr. destruct Hr as [Hage Hdone]. split.
      * destruct (_completed self !! download_id) as [[|]|];
          [reflexivity|discriminate|discriminate].
      * destruct (Z_lt_le_dec (max_age_hours * 3600000000) (now - start_time))
          as [Hlt|Hle]; [exact Hlt|].
        rewrite (age_not_greater now start_time max_age_hours HM Hle) in Hage.
        discriminate.
    + destruct (Hkept eq_refl) as (_ & _ & _ & _ & _ & Hk).
      rewrite Hk, Hs in Hnone. discriminate.
  - intros start_time HM Hs Hc Hlow Hhigh. apply Hgone. unfold to_be_removed.
    rewrite Hs, Hc, (age_greater now start_time max_age_hours HM Hlow Hhigh).
    reflexivity.
  - intros start_time HM Hs Hle. apply Hkept. unfold to_be_removed.
    rewrite Hs, (age_not_greater now start_time max_age_hours HM Hle).
    reflexivity.
  - unfold is_completed, to_be_removed. intros ->.
    destruct (_start_times self !! download_id); [apply andb_false_r|reflexivity].
  - unfold to_be_removed. intros ->. reflexivity.
  - unfold get_active_downloads. apply set_eq. intros k.
    rewrite !elem_of_dom. unfold is_Some.
    setoid_rewrite map_lookup_filter_Some.
    cbn [_completed snd]. rewrite lookup_pop_all.
    destruct (decide _) as [Hin|_]; [|reflexivity].
    apply to_remove_spec in Hin. unfold to_be_removed in Hin.
    destruct (_start_times self !! k); [|discriminate].
    apply andb_true_iff in Hin. destruct Hin as [_ Hc].
    split; [intros (x & [=] & _)|].
    intros (x & Hx & ->). rewrite Hx in Hc. discriminate.
  - pose proof (size_pop_all
                  (List.filter (to_be_removed self now max_age_hours)
                     (map fst (map_to_list (_start_times self))))
                  (_start_times self)) as Hs.
    rewrite <- Hs; [lia| |].
    + apply NoDup_ListNoDup, List.NoDup_filter, NoDup_ListNoDup.
      apply NoDup_fst_map_to_list.
    + intros k Hk. apply to_remove_spec in Hk. unfold to_be_removed in Hk.
      destruct (_start_times self !! k); [eauto|discriminate].
Qed.

(** *** Completion *)

Lemma put_other m qs queue q : q <> queue -> put m qs queue !! q = qs !! q.
Proof. intros H. unfold put. apply lookup_insert_ne. congruence. Qed.

Lemma put_all_other m subscribers q : forall qs,
  q ∉ subscribers -> put_all subscribers m qs !! q = qs !! q.
Proof.
  unfold put_all. induction subscribers as [|s r IH]; intros qs Hq;
    [reflexivity|].
  apply not_elem_of_cons in Hq. destruct Hq as [Hne Hr].
  simpl. rewrite (IH _ Hr). apply put_other. exact Hne.
Qed.

Lemma put_all_last m subscribers q : forall qs,
  q ∈ subscribers ->
  exists sent, put_all subscribers m qs !! q = Some (sent ++ [m]).
Proof.
  unfold put_all. induction subscribers as [|s r IH]; intros qs Hq;
    [inversion Hq|].
  simpl. destruct (decide (q ∈ r)) as [Hr|Hr]; [exact (IH _ Hr)|].
  apply elem_of_cons in Hq. destruct Hq as [->|Hq]; [|contradiction].
  fold (put_all r m (put m qs s)). rewrite (put_all_other _ _ _ _ Hr).
  unfold put. rewrite lookup_insert_eq. eauto.
Qed.

(** X21. After [complete_download] the download is completed.  With
    success it stands at 100 with the status of completion, and the call
    does not raise; with a failure its progress stays, its error is the
    one given, or "Unknown error", and the call raises [KeyError] exactly
    when the download has subscribers and no progress.  When the call
    returns, the last message of each subscriber of the download is the
    final one, with the progress and status that the tracker now holds. *)
Theorem completion_is_final (now : Z) (download_id : string) (success : bool)
    (error : option string) (self : ProgressTracker) :
  let result := fst (complete_download now download_id success error self) in
  let self' := snd (complete_download now download_id success error self) in
  is_completed self' download_id = true
  /\ (success = true ->
      result = Returned tt
      /\ get_progress self' download_id = 100
      /\ get_status self' download_id = "Download complete!"%string
      /\ get_error self' download_id = get_error self download_id)
  /\ (success = false ->
      get_progress self' download_id = get_progress self download_id
      /\ get_status self' download_id
         = ("Failed: " ++ str_of_error error)%string
      /\ get_error self' download_id
         = Some (if given error then default EmptyString error
                 else "Unknown error"%string)
      /\ (result = Raised "KeyError"
          <-> is_Some (_subscribers self !! download_id)
              /\ _progress self !! download_id = None))
  /\ (result = Returned tt ->
      forall subscribers queue,
        _subscribers self !! download_id = Some subscribers ->
        queue ∈ subscribers ->
        exists sent final,
          queues self' !! queue = Some (sent ++ [final])
          /\ m_progress final = get_progress self' download_id
          /\ m_status final = get_status self' download_id
          /\ m_completed final = Some true
          /\ m_success final = Some success
          /\ m_timestamp final = now).
Proof.
  cbv zeta. unfold complete_download. cbv zeta.
  unfold is_completed, get_progress, get_status, get_error.
  destruct success.
  - rewrite !lookup_insert_eq.
    destruct (_subscribers self !! download_id) as [subs|] eqn:Es;
      cbn [fst snd _completed _progress _status _errors queues];
      rewrite !lookup_insert_eq; cbn [default].
    + split; [reflexivity|]. split; [auto|]. split; [discriminate|].
      intros _ subscribers queue [= <-] Hq.
      destruct (put_all_last
                  {| m_progress := 100; m_status := "Download complete!";
                     m_completed := Some true; m_success := Some true;
                     m_error := if given error then error else None;
                     m_timestamp := now |} subs queue (queues self) Hq)
        as (sent & Hsent).
      exists sent. eexists. split; [exact Hsent|]. repeat split.
    + split; [reflexivity|]. split; [auto|]. split; [discriminate|].
      intros _ subscribers queue [=].
  - rewrite !lookup_insert_eq.
    destruct (_subscribers self !! download_id) as [subs|] eqn:Es.
    + destruct (_progress self !! download_id) as [cur|] eqn:Ep;
        cbn [fst snd _completed _progress _status _errors queues];
        rewrite ?lookup_insert_eq, ?Ep; cbn [default].
      * split; [reflexivity|]. split; [discriminate|].
        split.
        { intros _. repeat split; try discriminate.
          intros [_ [=]]. }
        intros _ subscribers queue [= <-] Hq.
        destruct (put_all_last
                    {| m_progress := cur;
                       m_status := "Failed: " +:+ str_of_error error;
                       m_completed := Some true; m_success := Some false;
                       m_error := if given error then error else None;
                       m_timestamp := now |} subs queue (queues self) Hq)
          as (sent & Hsent).
        exists sent. eexists. split; [exact Hsent|]. repeat split.
      * split; [reflexivity|]. split; [discriminate|].
        split; [|discriminate].
        intros _. repeat split; eauto.
    + cbn [fst snd _completed _progress _status _errors queues].
      rewrite !lookup_insert_eq. cbn [default].
      split; [reflexivity|]. split; [discriminate|].
      split; [|intros _ subscribers queue [=]].
      intros _. repeat split; try discriminate.
      intros [[? [=]] _].
Qed.

(** *** Subscriptions *)

Lemma remove_first_subset x q l : x ∈ remove_first q l -> x ∈ l.
Proof.
  induction l as [|y r IH]; simpl; [auto|].
  destruct (Nat.eqb y q); [apply list_elem_of_further|].
  intros H. apply elem_of_cons in H. destruct H as [->|H].
  - left.
  - right. exact (IH H).
Qed.

Lemma remove_first_last q l : q ∉ l -> remove_first q (l ++ [q]) = l.
Proof.
  induction l as [|y r IH]; intros Hq; simpl.
  - rewrite Nat.eqb_refl. reflexivity.
  - apply not_elem_of_cons in Hq. destruct Hq as [Hne Hr].
    destruct (Nat.eqb_spec y q) as [->|_]; [contradiction|].
    rewrite (IH Hr). reflexivity.
Qed.

Lemma lookup_pop_all_Some {A : Type} to_remove (d : gmap string A) k v :
  pop_all to_remove d !! k = Some v -> d !! k = Some v.
Proof.
  rewrite lookup_pop_all.
  match goal with |- context [decide ?P] => destruct (decide P) end;
    [discriminate|auto].
Qed.

Lemma after_call_names self c :
  names_in_use self -> names_in_use (after_call self c).
Proof.
  intros H. destruct c as [now id|now id p s|now id ok e|now id|id q|now age];
    cbn [after_call].
  - intros k subs q. cbn. destruct (decide (k = id)) as [->|Hne].
    + rewrite lookup_insert_eq. intros [= <-] Hq. inversion Hq.
    + rewrite lookup_insert_ne by congruence. apply H.
  - exact H.
  - unfold complete_download. cbv zeta.
    destruct (_subscribers self !! id) as [subs|] eqn:Es; [|exact H].
    repeat match goal with
           | |- context [match ?x with Some _ => _ | None => _ end] =>
               destruct x
           end; exact H.
  - intros k subs q. cbn. destruct (decide (k = id)) as [->|Hne].
    + rewrite lookup_insert_eq. intros [= <-] Hq.
      apply elem_of_app in Hq. destruct Hq as [Hq|Hq].
      * destruct (_subscribers self !! id) as [old|] eqn:Eo; [|inversion Hq].
        specialize (H _ _ _ Eo Hq). lia.
      * apply list_elem_of_singleton in Hq. lia.
    + rewrite lookup_insert_ne by congruence. intros Hs Hq.
      specialize (H _ _ _ Hs Hq). lia.
  - unfold unsubscribe. destruct (_subscribers self !! id) as [old|] eqn:Eo;
      [|exact H].
    intros k subs x. cbn. destruct (decide (k = id)) as [->|Hne].
    + rewrite lookup_insert_eq. intros [= <-] Hx.
      exact (H _ _ _ Eo (remove_first_subset _ _ _ Hx)).
    + rewrite lookup_insert_ne by congruence. apply H.
  - intros k subs x. cbn. intros Hs. apply lookup_pop_all_Some in Hs.
    exact (H _ _ _ Hs).
Qed.

Lemma after_calls_names calls : names_in_use (after_calls calls).
Proof.
  unfold after_calls.
  assert (H0 : names_in_use new_tracker).
  { intros k subs q. cbn. rewrite lookup_empty. discriminate. }
  revert H0. generalize new_tracker.
  induction calls as [|c r IH]; intros self H0; [exact H0|].
  simpl. apply IH, after_call_names, H0.
Qed.

Lemma after_call_unsubscribed queue self c :
  unsubscribed queue self ->
  unsubscribed queue (after_call self c)
  /\ queues (after_call self c) !! queue = queues self !! queue.
Proof.
  intros [Hlt H].
  destruct c as [now id|now id p s|now id ok e|now id|id q|now age];
    cbn [after_call].
  - split; [|reflexivity]. split; [exact Hlt|].
    intros k subs. cbn. destruct (decide (k = id)) as [->|Hne].
    + rewrite lookup_insert_eq. intros [= <-] Hq. inversion Hq.
    + rewrite lookup_insert_ne by congruence. apply H.
  - split; [split; [exact Hlt|exact H]|]. cbn.
    destruct (_subscribers self !! id) as [subs|] eqn:Es; [|reflexivity].
    match goal with
    | |- context [match ?x with Some _ => _ | None => _ end] =>
        destruct x; [|reflexivity]
    end.
    apply put_all_other. exact (H _ _ Es).
  - unfold complete_download. cbv zeta.
    destruct (_subscribers self !! id) as [subs|] eqn:Es;
      [|split; [split; [exact Hlt|exact H]|reflexivity]].
    repeat match goal with
           | |- context [match ?x with Some _ => _ | None => _ end] =>
               destruct x
           end;
      (split; [split; [exact Hlt|exact H]|]); cbn; try reflexivity.
    apply put_all_other. exact (H _ _ Es).
  - split.
    + split; [cbn; lia|]. intros k subs. cbn.
      destruct (decide (k = id)) as [->|Hne].
      * rewrite lookup_insert_eq. intros [= <-] Hq.
        apply elem_of_app in Hq. destruct Hq as [Hq|Hq].
        -- destruct (_subscribers self !! id) as [old|] eqn:Eo;
             [exact (H _ _ Eo Hq)|inversion Hq].
        -- apply list_elem_of_singleton in Hq. lia.
      * rewrite lookup_insert_ne by congruence. apply H.
    + cbn. assert (Hne : queue <> next_queue self) by lia.
      destruct (_progress self !! id);
        rewrite ?put_other by exact Hne;
        apply lookup_insert_ne; congruence.
  - unfold unsubscribe. destruct (_subscribers self !! id) as [old|] eqn:Eo;
      [|split; [split; [exact Hlt|exact H]|reflexivity]].
    split; [|reflexivity]. split; [exact Hlt|].
    intros k subs. cbn. destruct (decide (k = id)) as [->|Hne].
    + rewrite lookup_insert_eq. intros [= <-] Hx.
      exact (H _ _ Eo (remove_first_subset _ _ _ Hx)).
    + rewrite lookup_insert_ne by congruence. apply H.
  - split; [|reflexivity]. split; [exact Hlt|].
    intros k subs. cbn. intros Hs. apply lookup_pop_all_Some in Hs.
    exact (H _ _ Hs).
Qed.

Lemma put_all_app l1 l2 m qs :
  put_all (l1 ++ l2) m qs = put_all l2 m (put_all l1 m qs).
Proof. unfold put_all. apply fold_left_app. Qed.

(** X22. On a tracker reached by any calls, the queue of a new
    subscriber holds the current state of the download, if it has a
    progress, and nothing else; an update of the download with a status
    adds one message to it; and once it is unsubscribed nothing is put on
    it any more, whatever calls follow. *)
Theorem subscription_delivery (calls : list call) (now : Z)
    (download_id : string) :
  let self := after_calls calls in
  let queue := fst (subscribe now download_id self) in
  let subscribed := snd (subscribe now download_id self) in
  let initial :=
    match _progress self !! download_id with
    | Some current =>
        [update current
           (default "In progress..."%string (_status self !! download_id)) now]
    | None => []
    end in
  queues subscribed !! queue = Some initial
  /\ (forall now' progress status,
        given status = true ->
        queues (set_progress now' download_id progress status subscribed)
          !! queue
        = Some (initial
                ++ [update (Z.min 100 (Z.max 0 progress))
                      (default EmptyString status) now']))
  /\ (forall later,
        queues (fold_left after_call later
                  (unsubscribe download_id queue subscribed)) !! queue
        = Some initial).
Proof.
  cbv zeta. pose proof (after_calls_names calls) as Hnames.
  set (self := after_calls calls) in *.
  assert (Hfresh : forall k subs, _subscribers self !! k = Some subs ->
                                  next_queue self ∉ subs).
  { intros k subs Hs Hq. specialize (Hnames _ _ _ Hs Hq). lia. }
  assert (Hinit : queues (snd (subscribe now download_id self))
                    !! next_queue self
                  = Some match _progress self !! download_id with
                         | Some current =>
                             [update current
                                (default "In progress..."%string
                                   (_status self !! download_id)) now]
                         | None => []
                         end).
  { cbn. destruct (_progress self !! download_id) as [cur|].
    - unfold put. rewrite lookup_insert_eq, lookup_insert_eq. reflexivity.
    - apply lookup_insert_eq. }
  assert (Hold : next_queue self ∉ default [] (_subscribers self !! download_id)).
  { destruct (_subscribers self !! download_id) as [old|] eqn:Eo;
      [exact (Hfresh _ _ Eo)|intros Hq; inversion Hq]. }
  split; [exact Hinit|]. split.
  - intros now' progress status Hgiven.
    unfold set_progress. cbv zeta. rewrite Hgiven.
    cbn [queues fst snd subscribe _subscribers _status].
    rewrite !lookup_insert_eq.
    rewrite put_all_app. unfold put_all at 1. cbn [fold_left].
    unfold put at 1. rewrite lookup_insert_eq.
    rewrite (put_all_other _ _ _ _ Hold).
    cbn in Hinit. rewrite Hinit. reflexivity.
  - intros later.
    assert (Hu : unsubscribed (next_queue self)
                   (unsubscribe download_id (next_queue self)
                      (snd (subscribe now download_id self)))).
    { unfold unsubscribe. cbn [subscribe snd _subscribers].
      rewrite lookup_insert_eq. split; [cbn; lia|].
      intros k subs. cbn [_subscribers].
      rewrite insert_insert_eq. destruct (decide (k = download_id)) as [->|Hne].
      - rewrite lookup_insert_eq. intros [= <-].
        rewrite (remove_first_last _ _ Hold). exact Hold.
      - rewrite lookup_insert_ne by congruence. apply Hfresh. }
    assert (Hq : queues (unsubscribe download_id (next_queue self)
                           (snd (subscribe now download_id self)))
                   !! next_queue self
                 = queues (snd (subscribe now download_id self))
                     !! next_queue self).
    { unfold unsubscribe. cbn [subscribe snd _subscribers].
      rewrite lookup_insert_eq. reflexivity. }
    cbn [fst subscribe]. rewrite <- Hinit, <- Hq.
    revert Hu. generalize (unsubscribe download_id (next_queue self)
                             (snd (subscribe now download_id self))).
    induction later as [|c r IH]; intros s Hs; [reflexivity|].
    simpl. destruct (after_call_unsubscribed _ s c Hs) as [Hs' Hq'].
    rewrite (IH _ Hs'). exact Hq'.
Qed.

End TrackerFacts.

Lemma cleanup_forgets_old_completed_downloads_witness :
  let self :=
    after_calls [StartDownload 0 "dl-1";
                 CompleteDownload 1000000 "dl-1" true None;
                 StartDownload 0 "dl-2"] in
  to_be_removed self 90000000000 24 "dl-1" = true
  /\ to_be_removed self 86400000000 24 "dl-1" = false
  /\ to_be_removed self 90000000000 24 "dl-2" = false
  /\ _start_times self !! "dl-1" = Some 0
  /\ _completed self !! "dl-1" = Some true
  /\ 24 * 3600000000 + 1000000 <= 90000000000 - 0 <= 2 ^ 52 * 1000000
  /\ _progress (snd (cleanup_old_downloads 90000000000 24 self)) !! "dl-1" = None
  /\ _start_times (snd (cleanup_old_downloads 90000000000 24 self)) !! "dl-1"
     = None
  /\ 86400000000 - 0 <= 24 * 3600000000
  /\ _start_times (snd (cleanup_old_downloads 86400000000 24 self)) !! "dl-1"
     = Some 0
  /\ _progress (snd (cleanup_old_downloads 90000000000 24 self)) !! "dl-2" = Some 0
  /\ fst (cleanup_old_downloads 90000000000 24 self) = 1.
Proof.
  cbv zeta.
  split; [vm_compute; reflexivity|]. split; [vm_compute; reflexivity|].
  split; [vm_compute; reflexivity|].
  split; [vm_compute; reflexivity|]. split; [vm_compute; reflexivity|].
  split; [lia|].
  pose proof (cleanup_forgets_old_completed_downloads 90000000000 24
                (after_calls [StartDownload 0 "dl-1";
                              CompleteDownload 1000000 "dl-1" true None;
                              StartDownload 0 "dl-2"]) "dl-1")
    as (_ & _ & _ & Hold & _).
  destruct (Hold 0) as (Hp & _ & _ & _ & _ & Hs);
    [lia|vm_compute; reflexivity|vm_compute; reflexivity|lia|lia|].
  split; [exact Hp|]. split; [exact Hs|]. split; [lia|].
  pose proof (cleanup_forgets_old_completed_downloads 86400000000 24
                (after_calls [StartDownload 0 "dl-1";
                              CompleteDownload 1000000 "dl-1" true None;
                              StartDownload 0 "dl-2"]) "dl-1")
    as (_ & _ & _ & _ & Hyoung & _).
  destruct (Hyoung 0) as (_ & _ & _ & _ & _ & Hk);
    [lia|vm_compute; reflexivity|lia|].
  split; [rewrite Hk; vm_compute; reflexivity|].
  split; vm_compute; reflexivity.
Defined.

(** ** What the searcher never returns, and what it always finds *)

Section Guarantees.

Import PyFloat PyStr FloatFacts.
Local Open Scope string_scope.
Local Open Scope Z_scope.

Variable matching : string -> string -> nat.
Hypothesis matching_bound :
  forall a b, (2 * matching a b <= String.length a + String.length b)%nat.

Variables (track_name artist_name : string) (duration_seconds max_results : Z).

Local Abbreviation pass yt q :=
  (_search_with_query matching yt q track_name artist_name duration_seconds
     max_results).
Local Abbreviation score v :=
  (score_video matching v track_name artist_name duration_seconds).
Local Abbreviation best vs :=
  (_find_best_match matching vs track_name artist_name duration_seconds).
Local Abbreviation run new_session :=
  (search matching new_session track_name artist_name duration_seconds
     max_results).
Local Abbreviation similarity := (_calculate_similarity matching).

(** X23. No title with three or more bad keywords is ever returned,
    whatever else speaks for it.  What [search] returns with two bad
    keywords in its title scores exactly 100, and with one at most 150. *)
Theorem flagged_titles_are_rarely_returned :
  (forall videos b,
      best videos = Some b -> denylist_hits (lower (sv_title b)) <= 2)
  /\ (forall new_session log b,
        fst (run new_session log) = Some b ->
        denylist_hits (lower (sv_title b)) <= 2
        /\ (denylist_hits (lower (sv_title b)) = 2 -> sv_score b = 100)
        /\ (denylist_hits (lower (sv_title b)) = 1 -> sv_score b <= 150)).
Proof.
  split.
  - intros videos b H. apply find_best_match_Some in H.
    destruct H as (v & _ & Hs & ->). cbn [sv_title scored_entry].
    rewrite score_video_split, keyword_penalty_hits in Hs.
    pose proof (other_criteria_range matching matching_bound v track_name
                  artist_name duration_seconds) as Ho.
    assert (view_score (vi_view_count v) <= 15)
      by (unfold view_score; repeat destruct (_ <=? _); lia).
    lia.
  - apply (search_inv matching track_name artist_name duration_seconds
             max_results
             (fun b => denylist_hits (lower (sv_title b)) <= 2
                       /\ (denylist_hits (lower (sv_title b)) = 2 ->
                           sv_score b = 100)
                       /\ (denylist_hits (lower (sv_title b)) = 1 ->
                           sv_score b <= 150))).
    intros yt q log b. rewrite search_with_query_eq. cbn [fst]. intros H.
    apply find_best_match_Some in H. destruct H as (v & Hv & Hs & ->).
    cbn [sv_title sv_score scored_entry].
    apply collect_In in Hv. destruct Hv as (log' & rq & results & _ & Hv).
    pose proof (other_criteria_range matching matching_bound v track_name
                  artist_name duration_seconds) as Ho.
    rewrite (from_results_view_count _ _ Hv) in Ho.
    change (view_score 0) with (-5) in Ho.
    rewrite score_video_split, keyword_penalty_hits in *. lia.
Qed.

(** *** An exact entry *)



















End Guarantees.

Lemma flagged_titles_are_rarely_returned_witness :
  fst (search Difflib.matching (Returned (always [remix_140]))
         track performer seconds 10 [])
  = Some (scored_entry (video_of remix_140) 140)
  /\ denylist_hits (PyStr.lower (sv_title (scored_entry (video_of remix_140) 140)))
     = 1
  /\ sv_score (scored_entry (video_of remix_140) 140) <= 150.
Proof.
  assert (H : fst (search Difflib.matching (Returned (always [remix_140]))
                     track performer seconds 10 [])
              = Some (scored_entry (video_of remix_140) 140))
    by (vm_compute; reflexivity).
  assert (H1 : denylist_hits
                 (PyStr.lower (sv_title (scored_entry (video_of remix_140) 140)))
               = 1) by (vm_compute; reflexivity).
  split; [exact H|]. split; [exact H1|].
  pose proof (flagged_titles_are_rarely_returned Difflib.matching
                DifflibFacts.matching_bound track performer seconds 10)
    as (_ & Hs).
  destruct (Hs _ _ _ H) as (_ & _ & H150). exact (H150 H1).
Defined.

